(* ===== verification/_CoqProject ===== *)
-Q . S2P
Prelude.v
Json.v
Sort.v
Immutable.v
Utils.v
Schema.v
Samples.v
ElasticTextArea.v
QuizBuilder.v
Spec.v
Refinement.v
Invariants.v
GroupSort.v
Answer.v
Editor.v
Contract.v
Builder.v
Bounds.v
Termination.v
View.v
Bootstrap.v
Handlers.v
ResultGroups.v
