(* ===== verification/Prelude.v ===== *)
(** * A verification development for quiz-builder

    The repository is a browser editor for multiple-choice quiz documents.
    All of its state lives in one immutable document held by the React
    component [QuizBuilder] (src/static/js/QuizBuilder.jsx): every user
    event calls one handler of that class, which computes a new document
    with Immutable.js path operations ([update], [updateIn], [setIn],
    [remove], [push], [unshift], [sort], [map]) and replaces the old one
    through [updateState]/[updateQuiz].  [render] binds the handlers to the
    controls with the indices of the questions and answers it draws.
    [ResultGroups] (src/lib/ResultGroups.jsx) draws the result groups
    ("messaging"), [Answer] (src/static/js/builder/Answer.jsx) one answer;
    [ElasticTextArea] (src/static/js/ElasticTextArea.js) is the text area
    ResultGroups uses, and bootstrap.js mounts the component in the page.

    ** Files, in dependency order

    - [Prelude] (this file): the result monad [res] for a thrown JS
      exception ([TypeError], Immutable's "invalid keyPath"), its notation
      in [res_scope], the tactics [res_inv] and [opt_inv], the hint
      databases [quiz] and [quiz_rw], and lemmas on [mapM] over lists.
    - [Json]: JS values as the document holds them ([value]), JS numbers
      ([number]: integers, NaN, infinities) and the coercions the handlers
      use ([to_number], [js_add1], [js_sub1], [get_prop], [truthy],
      [js_to_string]).
    - [Sort]: Immutable's stable [sort] with a key comparator, as an
      insertion sort over (key, element) pairs: permutation, sortedness,
      identity on sorted input, stability (equal keys keep their order).
    - [Immutable]: the Immutable.js 3 operations, on [value]:
      [updateInDeep] translates [updateInDeepMap] with its NOT_SET
      bookkeeping and "invalid keyPath" check; [list_set] pads with
      [undefined] past the end as [List.set] does; [list_remove] is a no-op
      out of range; [updateIn], [setIn], [update], [jset], [jget], [jpush],
      [junshift], [jmap], [jsort]; and the lemmas that read them as
      "get, apply, put back" on paths that exist.
    - [Utils]: what the sources import from outside src/: [move] of
      ./utils (modelled from the spec: a reorder permutes), and lodash
      [max], [some] on [toJS()]; lemmas on [list_move] (the moved element
      lands at [to]; moving back undoes it).
    - [Schema]: the typed view (records [answer], [question], [group],
      [quiz]), [decode_state]/[decode_quiz] from [value], [encode_quiz],
      and [validate], the schema check of ./schema (not under src/,
      modelled from the spec's data model as "the document decodes");
      decidable equality of the records ([EqDecision] instances).
    - [Samples]: concrete documents and a [JSON.parse] the witnesses use.
    - [ElasticTextArea]: [ElasticTextArea.render], the lodash [merge] of the
      caller's props with the component's [style] and [className]
      ([lodash_merge]), and what reaches the container and the textarea.
    - [QuizBuilder]: every handler, one definition each, composed through
      [updateQuiz] as in the source, on the state [{quiz: ...}].  A call
      gives a [run]: the new state and the exception thrown, if any; a
      throwing updater leaves the state (updateState computes before it
      assigns); [seq_run] is two statements in sequence.
    - [Spec]: the abstract editor, one pure operation on [quiz] per
      handler ([a_removeAnswer], [a_changeGroupMinScore], ...), the stable
      re-sort [sort_groups], and the two document invariants [answers_ok]
      (each question has exactly one correct answer, or no answer) and
      [groups_sorted] (descending [minScore]).
    - [Refinement]: each handler implements its abstract operation
      ([implements]): on a state that decodes, under the index condition
      [render] guarantees, it does not throw and its result decodes to the
      operation applied to the decoded quiz; [shuffleAnswers] refines the
      relation [a_shuffled] for any permutations.
    - [Invariants]: the abstract operations keep [answers_ok] and
      [groups_sorted]; [sort_groups] is a sorted, stable permutation;
      [new_score] is above every score; [count_correct] and [one_correct]
      respect permutations ([Proper] instances, so a reordering is
      rewritten under them).
    - [GroupSort]: the re-sort against a reference: [stable_sort_ref]
      takes the groups of the greatest score in order, then the rest; the
      characterisation [stable_desc_unique] of a stable descending sort.
    - [Answer]: what an answer shows ([Answer.render]) and its three change
      handlers.
    - [Editor]: the event loop: [event] (one constructor per bound
      handler), [handle], the abstract step relation [abs_step], the
      states [reachable] from the constructor's, runs of events
      ([run_events], [abs_run]), and the import [loadFromJSON].
    - [Contract]: the interface between the event loop and the theorems
      about sessions: the record [editor] of a state type, its decoding,
      its handler and the simulation law, and the clients proved against
      it alone ([ed_run_abs], [ed_run_graded], [ed_class_step_wf],
      [ed_class_run_length]).
    - [Builder]: the builder as an [editor] ([quiz_builder], whose law is
      [handle_refines]) and the runs of [Editor] read as the contract's.
    - [Bounds]: how far scores can move in a run of events ([scores_within]).
    - [Termination]: the close buttons as a loop: [removal_step] and the
      variant [quiz_size] (questions, answers and groups).
    - [View]: [QuizBuilderView.render], what [QuizBuilder.render] passes to
      each [Question] element ([question_element]) and control, and how
      Question.jsx hands the props on to each [Answer] ([answer_props],
      modelled from the prop names since Question.jsx is not a source).
    - [Bootstrap]: bootstrap.js, [bootstrap]: the placeholder element
      (qwery is a parameter), the constructor's state and the first
      [render]; React's invariant error ([InvariantViolation]) when no
      element matches.
    - [Handlers]: one correctness theorem per handler on a well-formed
      state, and the behaviour on indices out of range.
    - [ResultGroups]: [ResultGroups.render] and its buttons, and the UI as
      wired ([ui_handle], [ui_reachable]); the two [ElasticTextArea]s of a
      group ([ResultGroup.textAreas]).

    ** What is proved

    - Simulation: every handler refines its abstract operation; every run
      of valid events is a run of the abstract editor (C3, the client
      [ed_run_abs] of the contract instantiated with the builder).
    - Invariants of reachable states, by induction on [reachable]: they
      decode and their groups stay sorted, imports included (C2); without
      an import, each question keeps exactly one correct answer (C1).
    - Per handler (C7-C15, C20-C27): no exception, the abstract result,
      both invariants, and the handler's own fact: the new group's score is
      above all others; a score change re-sorts stably; removing the
      correct answer makes the first correct; reordering permutes and
      undoes; the title input writes [quiz.title], which the schema
      ignores (C20); indices out of range throw or corrupt the document
      (C21, C22).
    - Import (C4-C6, C16): all-or-nothing; a valid document replaces the
      quiz with its groups re-sorted; exporting any reachable state and
      importing the text gives that very state back (the state is always
      [{quiz: ...}] and its groups are already in order).
    - The messaging section (C17, C18, C32): its buttons only log and no
      control calls a group handler, so without an import there is never a
      group (C17); inside the builder it shows the groups in stable
      descending order with the error flag exactly when the score exceeds
      the number of questions (C18); its text areas have no change handler
      (C32).
    - Answers (C19): the answers of a question show exactly one correct.
    - Equivalence (C28): [reSortGroups] computes the reference stable sort,
      the only sorted list with the same groups of each score in order.
    - Bounds (C29, the graded client of the contract): after [n] events
      without an import every score lies in [[-n, n]], so the doubles of
      JS compute scores exactly while [n] is below 2^53.
    - Liveness (C30): from any state, deleting question 0 once per
      question is a valid run that empties the questions.
    - Rendering (C31, C33, C34): [ElasticTextArea] always gives the
      textarea its own class and passes no prop the caller did not;
      [render] succeeds on every decoded state and every control of every
      question and answer sends a valid event; the title input shows what
      [onChangeTitle] wrote.
    - Termination (C35, the decreasing client of the contract): the
      removal handlers form a well-founded relation on states ([wf_incl]
      into the inverse image of [lt] by the size), and a run of removals
      is no longer than the size of the quiz.
    - [Bootstrap] holds the mount, which composes the constructor's state
      with [render]; no theorem is stated about it beyond what [View]
      proves of [render] on every decoded state.

    ** Choices and limits

    - JS numbers are integers plus NaN and the infinities; the documents
      hold integer scores, and precision beyond 2^53 is not modelled (C29
      shows the editor stays far below it).
      [to_number] of a string or a collection is NaN (JS would parse
      numeric strings): this only matters for documents the schema
      rejects.
    - Immutable Maps are association lists that keep insertion order and
      replace a key in place, as Immutable's ArrayMap does up to eight keys
      (a quiz the editor builds has at most seven; larger imported objects
      would become hashed maps, whose order is not modelled).
    - [ResultGroups.render] reads [groups.length] of an Immutable List as
      its [size]: Immutable 3 keeps [length] as a deprecated getter that
      warns and returns [size] (the version is not recorded in the
      sources).
    - [nextState !== this.state] only decides whether React re-renders;
      the model assigns the structurally equal state.
    - Parameters instead of effects: [uuid.v4] (the initial id),
      [JSON.parse] and [prompt] (the import's text), lodash [shuffle] (any
      permutation per question).
    - Every definition of the program is structural.  Only the reference
      sort [GroupSort.sort_levels] takes fuel; [length gs] suffices, since
      each round removes the groups of the greatest score, at least one.
    - Not modelled: CSS classes, labels and layout beyond what the views
      above record; the DOM query of bootstrap.js (a parameter);
      ReorderableList, JSONViewer and svgs, which are not among the
      sources (their props are the events they trigger); Question.jsx only
      as far as [answer_props] records.  In [QuizBuilderView.render] a
      questions collection that is not a List is an error; the schema
      admits only a List. *)

From stdpp Require Export base list strings option sets.
From Stdlib Require Export ZArith Lia.

(** ** Exceptions and the result monad *)

(** The exceptions a handler can throw.  [TypeError] is a method call or a
    property read on [undefined], [null] or a primitive; [InvalidKeyPath]
    is the invariant error of Immutable's [updateIn] when the path walks
    through a value that is not a collection; [InvariantViolation] is the
    invariant error of React's [render] on a container that is not a DOM
    element. *)
Inductive exn := TypeError | InvalidKeyPath | InvariantViolation.

Inductive res (A : Type) : Type :=
| Ok (a : A)
| Err (e : exn).
Arguments Ok {A} a.
Arguments Err {A} e.

Definition res_bind {A B} (m : res A) (k : A -> res B) : res B :=
  match m with
  | Ok a => k a
  | Err e => Err e
  end.

Declare Scope res_scope.
Delimit Scope res_scope with res.
Notation "x <- m ;; k" := (res_bind m (fun x => k))
  (at level 60, m at next level, right associativity) : res_scope.
Notation "'throw' e" := (Err e) (at level 10) : res_scope.
Open Scope res_scope.

Fixpoint res_mapM {A B} (f : A -> res B) (xs : list A) : res (list B) :=
  match xs with
  | [] => Ok []
  | x :: xs' => y <- f x ;; ys <- res_mapM f xs' ;; Ok (y :: ys)
  end.

Create HintDb quiz discriminated.
Create Rewrite HintDb quiz_rw.

(** Destructs [res_bind] equations in hypotheses into their parts. *)
Ltac res_inv :=
  repeat match goal with
  | H : res_bind ?m _ = Ok _ |- _ =>
      let Hm := fresh "Hm" in destruct m eqn:Hm; cbn [res_bind] in H
  | H : Ok _ = Ok _ |- _ => injection H as H; subst
  | H : Err _ = Ok _ |- _ => discriminate H
  end.

(** Destructs option binds in hypotheses into their parts. *)
Ltac opt_inv :=
  repeat match goal with
  | H : mbind _ _ = Some _ |- _ =>
      let x := fresh "x" in let Hx := fresh "Hx" in
      apply bind_Some in H as (x & Hx & H)
  | H : Some _ = Some _ |- _ => injection H as H; subst
  | H : None = Some _ |- _ => discriminate H
  end.

(** ** Generic lemmas on the result monad *)

Lemma res_bind_Ok {A B} (m : res A) (k : A -> res B) b :
  res_bind m k = Ok b <-> exists a, m = Ok a /\ k a = Ok b.
Proof.
  destruct m as [a|e]; simpl; split.
  - eauto.
  - by intros (a' & [= ->] & ?).
  - done.
  - by intros (? & ? & ?).
Qed.

Lemma res_bind_Ok_l {A B} (a : A) (k : A -> res B) : res_bind (Ok a) k = k a.
Proof. reflexivity. Qed.

Lemma res_bind_Err_l {A B} e (k : A -> res B) : res_bind (Err e) k = Err e.
Proof. reflexivity. Qed.

#[export] Hint Rewrite @res_bind_Ok_l @res_bind_Err_l : quiz_rw.

Lemma res_mapM_Ok {A B} (f : A -> res B) xs ys :
  res_mapM f xs = Ok ys <-> Forall2 (fun x y => f x = Ok y) xs ys.
Proof.
  revert ys; induction xs as [|x xs IH]; intros ys; simpl.
  - split; [intros [= <-]; constructor | by inversion 1].
  - split.
    + intros H. res_inv. constructor; [done|]. by apply IH.
    + inversion 1 as [|? y ? ys' Hf Hrest]; subst.
      rewrite Hf; simpl. apply IH in Hrest. by rewrite Hrest.
Qed.

Lemma res_mapM_map {A B} (f : A -> B) xs : res_mapM (fun x => Ok (f x)) xs = Ok (map f xs).
Proof. induction xs as [|x xs IH]; simpl; [done|by rewrite IH]. Qed.

Lemma list_alter_lookup {A} (f : A -> A) (l : list A) i x :
  l !! i = Some x -> alter f i l = <[i:=f x]> l.
Proof.
  revert i; induction l as [|y l IH]; intros [|i] Hi; simpl in *; try done.
  - by injection Hi as ->.
  - f_equal. by apply IH.
Qed.

Section MapM.
  Context {A B : Type} (f : A -> option B).

Lemma mapM_insert_Some l k i x y :
    mapM f l = Some k -> f x = Some y -> mapM f (<[i:=x]> l) = Some (<[i:=y]> k).
  Proof.
    rewrite !mapM_Some. intros Hl Hx. by apply Forall2_insert.
  Qed.

Lemma mapM_delete_Some l k i : mapM f l = Some k -> mapM f (delete i l) = Some (delete i k).
  Proof. rewrite !mapM_Some. apply Forall2_delete. Qed.

Lemma mapM_app_Some l1 l2 k1 k2 :
    mapM f l1 = Some k1 -> mapM f l2 = Some k2 -> mapM f (l1 ++ l2) = Some (k1 ++ k2).
  Proof. rewrite !mapM_Some. apply Forall2_app. Qed.

Lemma mapM_lookup_Some l k i x :
    mapM f l = Some k -> l !! i = Some x -> exists y, k !! i = Some y /\ f x = Some y.
  Proof.
    rewrite mapM_Some. intros Hl Hx.
    destruct (Forall2_lookup_l _ _ _ _ _ Hl Hx) as (y & Hy & Hf). eauto.
  Qed.

Lemma mapM_lookup_Some_r l k i y :
    mapM f l = Some k -> k !! i = Some y -> exists x, l !! i = Some x /\ f x = Some y.
  Proof.
    rewrite mapM_Some. intros Hl Hy.
    destruct (Forall2_lookup_r _ _ _ _ _ Hl Hy) as (x & Hx & Hf). eauto.
  Qed.
End MapM.
