(* ===== verification/Json.v ===== *)
(** JavaScript values as the quiz document holds them, and the JS
    coercions the handlers of src/static/js/QuizBuilder.jsx rely on:
    [score + 1], [score - 1], [-group.get('minScore')], [g.minScore] on a
    plain object, the truthiness test of lodash [some]. *)

From S2P Require Import Prelude.
From stdpp Require Import pretty.

(** ** Numbers

    A JS number as the editor can produce it: an integer, NaN (from
    [undefined - 1]) or an infinity (lodash [max] of no numbers is
    [-Infinity]). *)
Inductive number :=
| Int (z : Z)
| NaN
| Infinity
| NegInfinity.

(** JS [a < b] on numbers: false as soon as one side is NaN. *)
Definition num_ltb (a b : number) : bool :=
  match a, b with
  | Int x, Int y => Z.ltb x y
  | NegInfinity, (Int _ | Infinity) => true
  | Int _, Infinity => true
  | _, _ => false
  end.

(** JS unary minus. *)
Definition num_neg (a : number) : number :=
  match a with
  | Int z => Int (- z)
  | NaN => NaN
  | Infinity => NegInfinity
  | NegInfinity => Infinity
  end.

(** JS [a + d] for an integer [d]: the infinities and NaN absorb it. *)
Definition num_add_int (a : number) (d : Z) : number :=
  match a with
  | Int z => Int (z + d)
  | other => other
  end.

(** ** Values

    [VList] is an Immutable List (a JS array after [toJS]); [VMap] is an
    Immutable Map (a JS object after [toJS]) as an association list in
    insertion order.  Keys are strings or numbers, as the key paths of the
    handlers mix both (['questions', n, 'imageUrl']); Immutable keeps [0]
    and ['0'] apart in a Map. *)
Inductive key :=
| KStr (s : string)
| KIdx (i : nat).

#[export] Instance key_eq_dec : EqDecision key.
Proof. solve_decision. Defined.

Inductive value :=
| VUndef
| VNull
| VBool (b : bool)
| VNum (n : number)
| VStr (s : string)
| VList (xs : list value)
| VMap (kvs : list (key * value)).

Abbreviation VInt z := (VNum (Int z)).

(** ** Coercions *)

(** [ToNumber] on the values the editor stores.  Strings and collections
    are taken to NaN (JS would parse a numeric string); only documents the
    schema rejects hold them where a number is expected. *)
Definition to_number (v : value) : number :=
  match v with
  | VNum n => n
  | VBool b => Int (if b then 1 else 0)
  | VNull => Int 0
  | _ => NaN
  end.

(** [score + 1] (increaseGroupMinScore, addGroup): string concatenation
    on a string, numeric addition otherwise. *)
Definition js_add1 (v : value) : value :=
  match v with
  | VStr s => VStr (s +:+ "1")
  | _ => VNum (num_add_int (to_number v) 1)
  end.

(** [score - 1] (decreaseGroupMinScore). *)
Definition js_sub1 (v : value) : value := VNum (num_add_int (to_number v) (-1)).

(** Lookup in an association list: the first binding of the key. *)
Fixpoint kv_lookup (k : key) (kvs : list (key * value)) : option value :=
  match kvs with
  | [] => None
  | (k', v) :: kvs' => if decide (k = k') then Some v else kv_lookup k kvs'
  end.

(** [obj.prop] on a plain JS value (after [toJS]): a TypeError on
    [undefined] and [null], [undefined] for a missing property or a
    primitive. *)
Definition get_prop (v : value) (p : string) : res value :=
  match v with
  | VUndef | VNull => throw TypeError
  | VMap kvs => Ok (default VUndef (kv_lookup (KStr p) kvs))
  | _ => Ok VUndef
  end.

(** JS truthiness. *)
Definition truthy (v : value) : bool :=
  match v with
  | VUndef | VNull => false
  | VBool b => b
  | VNum (Int z) => negb (Z.eqb z 0)
  | VNum NaN => false
  | VNum _ => true
  | VStr s => negb (String.eqb s "")
  | VList _ | VMap _ => true
  end.

(** ** Lemmas *)

(** [String(v)]: the text JavaScript makes of a value in a string
    concatenation.  Integers print in decimal; a [VList] is read here as a
    JS array (elements joined by commas, [undefined] and [null] as empty),
    a [VMap] as a plain object. *)
Fixpoint js_to_string (v : value) : string :=
  match v with
  | VUndef => "undefined"
  | VNull => "null"
  | VBool b => if b then "true" else "false"
  | VNum (Int z) => pretty z
  | VNum NaN => "NaN"
  | VNum Infinity => "Infinity"
  | VNum NegInfinity => "-Infinity"
  | VStr s => s
  | VList xs =>
      String.concat "," (map (fun x => match x with VUndef | VNull => "" | _ => js_to_string x end) xs)
  | VMap _ => "[object Object]"
  end.

Lemma num_ltb_Int x y : num_ltb (Int x) (Int y) = Z.ltb x y.
Proof. reflexivity. Qed.

Lemma num_ltb_irrefl a : num_ltb a a = false.
Proof. destruct a; simpl; auto using Z.ltb_irrefl. Qed.

Lemma num_ltb_asym a b : num_ltb a b = true -> num_ltb b a = false.
Proof.
  destruct a, b; simpl; try done.
  rewrite !Z.ltb_lt, Z.ltb_ge. lia.
Qed.

Lemma js_add1_int z : js_add1 (VInt z) = VInt (z + 1).
Proof. reflexivity. Qed.

Lemma js_sub1_int z : js_sub1 (VInt z) = VInt (z - 1).
Proof. reflexivity. Qed.

Lemma kv_lookup_cons_eq k v kvs : kv_lookup k ((k, v) :: kvs) = Some v.
Proof. simpl. by rewrite decide_True. Qed.

Lemma kv_lookup_cons_ne k k' v kvs :
  k <> k' -> kv_lookup k ((k', v) :: kvs) = kv_lookup k kvs.
Proof. intros Hne. simpl. by rewrite decide_False. Qed.

#[export] Hint Rewrite js_add1_int js_sub1_int num_ltb_Int kv_lookup_cons_eq : quiz_rw.
