(* ===== verification/Sort.v ===== *)
(** The stable sort of Immutable's [sort(comparator)]: Immutable sorts the
    entries with [comparator(a, b) || indexA - indexB], so elements that
    compare equal keep their order.  With a key comparator ([on(f)] in
    src/static/js/QuizBuilder.jsx line 49) this is a stable sort by key,
    written here as an insertion sort over (key, element) pairs.  The file
    proves the facts every client needs: the result is a permutation, it is
    sorted when the key order is asymmetric, sorting a sorted list
    changes nothing, and elements with equal keys keep their relative
    order. *)

From S2P Require Import Prelude.
From Stdlib Require Import Sorted.

(** The sort only looks at keys: two lists related pointwise, with equal
    keys, stay related after sorting.  This is what lets a sort of the
    untyped document be read as a sort of its typed view. *)
Definition same_key {K A B} (R : A -> B -> Prop) (p : K * A) (q : K * B) : Prop :=
  p.1 = q.1 /\ R p.2 q.2.

Section SortBy.
  Context {K A : Type}.
  (** [lt a b]: key [a] sorts strictly before key [b]. *)
  Variable lt : K -> K -> bool.

  (** [kx] goes in front of the first element whose key is not smaller:
      an element inserted from the left stays before its equals. *)
Fixpoint insert_by (kx : K * A) (l : list (K * A)) : list (K * A) :=
    match l with
    | [] => [kx]
    | ky :: l' => if lt ky.1 kx.1 then ky :: insert_by kx l' else kx :: ky :: l'
    end.

Fixpoint sort_by (l : list (K * A)) : list (K * A) :=
    match l with
    | [] => []
    | kx :: l' => insert_by kx (sort_by l')
    end.

  (** Two neighbours are in order when the second does not sort strictly
      before the first. *)
Definition in_order (a b : K * A) : Prop := lt b.1 a.1 = false.

Lemma insert_by_perm kx l : insert_by kx l ≡ₚ kx :: l.
  Proof.
    induction l as [|ky l IH]; simpl; [done|].
    destruct (lt ky.1 kx.1); [|done].
    rewrite IH. apply perm_swap.
  Qed.

Lemma sort_by_perm l : sort_by l ≡ₚ l.
  Proof.
    induction l as [|kx l IH]; simpl; [done|].
    by rewrite insert_by_perm, IH.
  Qed.

Lemma sort_by_length l : length (sort_by l) = length l.
  Proof. apply Permutation_length, sort_by_perm. Qed.

  (** Sorting a list that is already in order returns it unchanged. *)
Lemma insert_by_head kx l :
    (forall ky l', l = ky :: l' -> lt ky.1 kx.1 = false) ->
    insert_by kx l = kx :: l.
  Proof.
    destruct l as [|ky l']; intros H; simpl; [done|].
    by rewrite (H ky l' eq_refl).
  Qed.

Lemma sort_by_sorted_id l : Sorted in_order l -> sort_by l = l.
  Proof.
    induction l as [|kx l IH]; intros Hs; simpl; [done|].
    apply Sorted_inv in Hs as [Hs Hhd].
    rewrite IH by done. apply insert_by_head.
    intros ky l' ->. by inversion Hhd.
  Qed.

  Section Asym.
    Hypothesis lt_asym : forall a b, lt a b = true -> lt b a = false.

Lemma insert_by_HdRel ky kx l :
      HdRel in_order ky l -> in_order ky kx -> HdRel in_order ky (insert_by kx l).
    Proof.
      intros Hhd Hyx. destruct l as [|kz l]; simpl; [by constructor|].
      destruct (lt kz.1 kx.1); constructor; [by inversion Hhd|done].
    Qed.

Lemma insert_by_sorted kx l : Sorted in_order l -> Sorted in_order (insert_by kx l).
    Proof.
      induction 1 as [|ky l Hs IH Hhd]; simpl; [by repeat constructor|].
      destruct (lt ky.1 kx.1) eqn:Hlt.
      - constructor; [done|]. apply insert_by_HdRel; [done|]. by apply lt_asym.
      - constructor; [by constructor|]. by constructor.
    Qed.

Lemma sort_by_sorted l : Sorted in_order (sort_by l).
    Proof.
      induction l as [|kx l IH]; simpl; [constructor|].
      by apply insert_by_sorted.
    Qed.
  End Asym.

  (** Stability: elements with the same key keep their relative order. *)
  Section Stable.
    Context `{EqDecision K}.
    Hypothesis lt_irrefl : forall a, lt a a = false.

Lemma insert_by_filter_key k kx l :
      filter (fun p => p.1 = k) (insert_by kx l) =
      (if decide (kx.1 = k) then [kx] else []) ++ filter (fun p => p.1 = k) l.
    Proof.
      induction l as [|ky l IH]; simpl.
      - rewrite filter_cons, filter_nil. by case_decide.
      - destruct (lt ky.1 kx.1) eqn:Hlt.
        + rewrite !filter_cons, IH. case_decide as Hy; case_decide as Hx; try done.
          rewrite Hy, Hx, lt_irrefl in Hlt. discriminate.
        + rewrite filter_cons. by case_decide.
    Qed.

Lemma sort_by_filter_key k l :
      filter (fun p => p.1 = k) (sort_by l) = filter (fun p => p.1 = k) l.
    Proof.
      induction l as [|kx l IH]; simpl; [done|].
      rewrite insert_by_filter_key, IH, filter_cons. by case_decide.
    Qed.
  End Stable.

End SortBy.

Arguments insert_by {K A} lt kx l.
Arguments sort_by {K A} lt l.
Arguments in_order {K A} lt a b.

Lemma insert_by_Forall2 {K A B} (lt : K -> K -> bool) (R : A -> B -> Prop) p q l1 l2 :
  same_key R p q -> Forall2 (same_key R) l1 l2 ->
  Forall2 (same_key R) (insert_by lt p l1) (insert_by lt q l2).
Proof.
  intros Hpq Hl. induction Hl as [|p' q' l1 l2 Hpq' Hl IH]; simpl.
  - by constructor.
  - pose proof Hpq as [Hk _]. pose proof Hpq' as [Hk' _].
    rewrite Hk, Hk'. destruct (lt q'.1 q.1).
    + constructor; [exact Hpq'|exact IH].
    + constructor; [exact Hpq|]. constructor; [exact Hpq'|exact Hl].
Qed.

Lemma sort_by_Forall2 {K A B} (lt : K -> K -> bool) (R : A -> B -> Prop) l1 l2 :
  Forall2 (same_key R) l1 l2 -> Forall2 (same_key R) (sort_by lt l1) (sort_by lt l2).
Proof.
  induction 1 as [|p q l1 l2 Hpq Hl IH]; simpl; [constructor|].
  by apply insert_by_Forall2.
Qed.

(** Renaming the keys through an order-preserving map commutes with the
    sort: sorting JS numbers [Int z] is sorting the integers [z]. *)
Lemma insert_by_map_key {K K' A} (lt : K -> K -> bool) (lt' : K' -> K' -> bool) (f : K -> K') :
  (forall a b, lt' (f a) (f b) = lt a b) ->
  forall (kx : K * A) l,
  prod_map f id <$> insert_by lt kx l = insert_by lt' (prod_map f id kx) (prod_map f id <$> l).
Proof.
  intros Hf kx l. induction l as [|ky l IH]; simpl; [done|].
  rewrite Hf. destruct (lt ky.1 kx.1); simpl; [f_equal; exact IH|done].
Qed.

Lemma sort_by_map_key {K K' A} (lt : K -> K -> bool) (lt' : K' -> K' -> bool) (f : K -> K') :
  (forall a b, lt' (f a) (f b) = lt a b) ->
  forall (l : list (K * A)), sort_by lt' (prod_map f id <$> l) = prod_map f id <$> sort_by lt l.
Proof.
  intros Hf l. induction l as [|kx l IH]; [done|].
  rewrite fmap_cons. cbn [sort_by]. rewrite IH. symmetry. apply (insert_by_map_key lt lt' f Hf).
Qed.

Lemma Forall2_same_key_snd {K A B} (R : A -> B -> Prop) (l1 : list (K * A)) (l2 : list (K * B)) :
  Forall2 (same_key R) l1 l2 -> Forall2 R l1.*2 l2.*2.
Proof. induction 1 as [|p q l1 l2 [_ HR] _ IH]; simpl; by constructor. Qed.

(** Keys computed from the related element on the right. *)
Lemma Forall2_zip_keys {K A B} (R : A -> B -> Prop) (key : B -> K) xs ys :
  Forall2 R xs ys -> Forall2 (same_key R) (zip (key <$> ys) xs) ((fun y => (key y, y)) <$> ys).
Proof. induction 1 as [|x y xs ys Hxy _ IH]; simpl; by repeat constructor. Qed.

Lemma fmap_prod_map_snd {K K' A} (f : K -> K') (l : list (K * A)) : (prod_map f id <$> l).*2 = l.*2.
Proof. induction l as [|[k a] l IH]; simpl; [done|]. f_equal. exact IH. Qed.

(** Sortedness only depends on the keys. *)
Lemma Sorted_in_order_keys {K K' A B} (lt : K -> K -> bool) (lt' : K' -> K' -> bool) (f : K -> K')
    (l1 : list (K * A)) (l2 : list (K' * B)) :
  (forall a b, lt' (f a) (f b) = lt a b) ->
  Forall2 (fun p q => q.1 = f p.1) l1 l2 -> Sorted (in_order lt) l1 -> Sorted (in_order lt') l2.
Proof.
  intros Hf. induction 1 as [|p q l1 l2 Hpq Hl IH]; intros Hs; [constructor|].
  apply Sorted_inv in Hs as [Hs Hhd]. constructor; [by apply IH|].
  destruct Hl as [|p' q' l1' l2' Hpq' _]; constructor.
  inversion Hhd as [|? ? Hio]; subst. unfold in_order in *. by rewrite Hpq, Hpq', Hf.
Qed.
