(* ===== verification/Immutable.v ===== *)
(** The Immutable.js 3 operations that the handlers of
    src/static/js/QuizBuilder.jsx call, on [value]: keyed get/set/remove on
    Lists and Maps, the deep path update [updateInDeep] (Immutable's
    [updateInDeepMap]) and its clients [updateIn], [setIn], [update], and
    the methods [push], [unshift], [size], [map], [sort].  A method called
    on something that is not a collection throws a [TypeError]; a key path
    that walks through a non-collection throws Immutable's "invalid
    keyPath" error.  Out of range, [List.set] pads the list with
    [undefined] holes and [List.remove] does nothing. *)

From S2P Require Import Prelude Json Sort.

(** ** Lists and Maps by key *)

(** [List.set(i, x)]: in place when [i] is in range, otherwise the list
    grows to [i + 1] elements, the new slots holding [undefined]. *)
Definition list_set (i : nat) (x : value) (xs : list value) : list value :=
  if decide (i < length xs) then <[i:=x]> xs
  else xs ++ replicate (i - length xs) VUndef ++ [x].

(** [List.remove(i)]: [!this.has(i) ? this : ...splice(i, 1)]. *)
Definition list_remove (i : nat) (xs : list value) : list value :=
  if decide (i < length xs) then delete i xs else xs.

(** [Map.set(k, v)] on an array map: replace in place, or append. *)
Fixpoint kv_set (k : key) (v : value) (kvs : list (key * value)) : list (key * value) :=
  match kvs with
  | [] => [(k, v)]
  | (k', v') :: kvs' => if decide (k = k') then (k, v) :: kvs' else (k', v') :: kv_set k v kvs'
  end.

(** [Map.remove(k)] on an array map: the last entry moves into the hole. *)
Fixpoint kv_index (k : key) (kvs : list (key * value)) : option nat :=
  match kvs with
  | [] => None
  | (k', _) :: kvs' => if decide (k = k') then Some 0 else S <$> kv_index k kvs'
  end.

Definition kv_delete (k : key) (kvs : list (key * value)) : list (key * value) :=
  match kv_index k kvs, kvs !! (length kvs - 1) with
  | Some i, Some lastkv =>
      if decide (S i = length kvs) then take i kvs
      else <[i:=lastkv]> (take (length kvs - 1) kvs)
  | _, _ => kvs
  end.

Definition is_collection (v : value) : bool :=
  match v with
  | VList _ | VMap _ => true
  | _ => false
  end.

(** [coll.get(k, NOT_SET)]: [None] is Immutable's NOT_SET.  A List looked
    up with a string key yields NOT_SET, as Immutable's [wrapIndex] turns a
    non-index string into NaN. *)
Definition coll_get (v : value) (k : key) : option value :=
  match v, k with
  | VList xs, KIdx i => xs !! i
  | VMap kvs, _ => kv_lookup k kvs
  | _, _ => None
  end.

(** [coll.set(k, x)]; a List given a string key is returned unchanged. *)
Definition coll_set (v : value) (k : key) (x : value) : value :=
  match v, k with
  | VList xs, KIdx i => VList (list_set i x xs)
  | VMap kvs, _ => VMap (kv_set k x kvs)
  | _, _ => v
  end.

Definition coll_remove (v : value) (k : key) : value :=
  match v, k with
  | VList xs, KIdx i => VList (list_remove i xs)
  | VMap kvs, _ => VMap (kv_delete k kvs)
  | _, _ => v
  end.

(** ** Deep update along a key path *)

(** The [notSetValue] of [updateIn]: [undefined] when the caller gives
    none ([update], [updateIn] with two arguments), the NOT_SET sentinel
    for [setIn]. *)
Inductive not_set := NotSetUndefined | NotSetSentinel.

(** Immutable's [updateInDeepMap(existing, keyPath, notSetValue, updater)],
    with [None] for NOT_SET:
    - at the end of the path the updater gets the existing value, or
      [undefined] when there is none; a result identical to the not-set
      value leaves the slot unset;
    - before descending, [invariant(isNotSet || (existing && existing.set),
      'invalid keyPath')];
    - a missing intermediate becomes an empty Map;
    - an unchanged child leaves the parent as it was, a child that became
      NOT_SET is removed, any other child is set. *)
Fixpoint updateInDeep (existing : option value) (path : list key) (nsv : not_set)
    (f : value -> res value) : res (option value) :=
  match path with
  | [] =>
      match existing with
      | Some ev => nv <- f ev ;; Ok (Some nv)
      | None =>
          nv <- f VUndef ;;
          Ok (match nsv, nv with
              | NotSetUndefined, VUndef => None
              | _, _ => Some nv
              end)
      end
  | k :: ks =>
      match existing with
      | Some ev =>
          if is_collection ev then
            let ne := coll_get ev k in
            nu <- updateInDeep ne ks nsv f ;;
            Ok (match nu, ne with
                | None, None => Some ev
                | None, Some _ => Some (coll_remove ev k)
                | Some u, _ => Some (coll_set ev k u)
                end)
          else throw InvalidKeyPath
      | None =>
          nu <- updateInDeep None ks nsv f ;;
          Ok (match nu with
              | None => None
              | Some u => Some (coll_set (VMap []) k u)
              end)
      end
  end.

(** [v.updateIn(path, updater)]: a method of collections only; a NOT_SET
    result is returned as [undefined]. *)
Definition updateIn (path : list key) (f : value -> res value) (v : value) : res value :=
  if is_collection v then
    r <- updateInDeep (Some v) path NotSetUndefined f ;; Ok (default VUndef r)
  else throw TypeError.

(** [v.update(k, updater)] is [v.updateIn([k], updater)]. *)
Definition update (k : key) (f : value -> res value) (v : value) : res value :=
  updateIn [k] f v.

(** [v.setIn(path, x)] is [v.updateIn(path, NOT_SET, () => x)]. *)
Definition setIn (path : list key) (x : value) (v : value) : res value :=
  if is_collection v then
    r <- updateInDeep (Some v) path NotSetSentinel (fun _ => Ok x) ;; Ok (default VUndef r)
  else throw TypeError.

(** ** Methods *)

Definition jset (k : key) (x : value) (v : value) : res value :=
  if is_collection v then Ok (coll_set v k x) else throw TypeError.

Definition jget (k : key) (v : value) : res value :=
  if is_collection v then Ok (default VUndef (coll_get v k)) else throw TypeError.

Definition jremove (k : key) (v : value) : res value :=
  if is_collection v then Ok (coll_remove v k) else throw TypeError.

(** [List.push] and [List.unshift]; a Map has neither. *)
Definition jpush (x : value) (v : value) : res value :=
  match v with
  | VList xs => Ok (VList (xs ++ [x]))
  | _ => throw TypeError
  end.

Definition junshift (x : value) (v : value) : res value :=
  match v with
  | VList xs => Ok (VList (x :: xs))
  | _ => throw TypeError
  end.

(** [v.size]: the number of entries of a collection, [undefined] ([None])
    on another primitive, a TypeError on [undefined] and [null]. *)
Definition jsize (v : value) : res (option nat) :=
  match v with
  | VList xs => Ok (Some (length xs))
  | VMap kvs => Ok (Some (length kvs))
  | VUndef | VNull => throw TypeError
  | _ => Ok None
  end.

(** [v.map((x, k) => ...)]: the mapper gets each value with its index (a
    List) or key (a Map). *)
Definition jmap (f : value -> key -> res value) (v : value) : res value :=
  match v with
  | VList xs =>
      ys <- res_mapM (fun ix => f ix.2 (KIdx ix.1)) (zip (seq 0 (length xs)) xs) ;;
      Ok (VList ys)
  | VMap kvs =>
      ys <- res_mapM (fun kv => f kv.2 kv.1) kvs ;;
      Ok (VMap (zip (kvs.*1) ys))
  | _ => throw TypeError
  end.

(** [v.sort(on(key))]: a stable sort by the key the comparator reads.  On
    fewer than two entries the comparator is never called; on more, every
    entry is compared, so a key that throws makes the sort throw.  A
    sorted Map is an ordered Map of the same entries. *)
Definition sort_keyed {A} (key : A -> res number) (xs : list A) : res (list A) :=
  if decide (length xs < 2) then Ok xs
  else ks <- res_mapM key xs ;; Ok ((sort_by num_ltb (zip ks xs)).*2).

Definition jsort (key : value -> res number) (v : value) : res value :=
  match v with
  | VList xs => ys <- sort_keyed key xs ;; Ok (VList ys)
  | VMap kvs => ys <- sort_keyed (fun kv => key kv.2) kvs ;; Ok (VMap ys)
  | _ => throw TypeError
  end.

(** ** Paths that exist

    Along a path whose every step exists in a collection, the deep update
    is "read the value at the end, apply the updater, write it back": the
    NOT_SET machinery never fires.  [path_get] reads such a path and
    [path_set] writes it. *)

Fixpoint path_get (v : value) (path : list key) : option value :=
  match path with
  | [] => Some v
  | k :: ks => if is_collection v then c ← coll_get v k; path_get c ks else None
  end.

Fixpoint path_set (v : value) (path : list key) (w : value) : value :=
  match path with
  | [] => w
  | k :: ks => coll_set v k (path_set (default VUndef (coll_get v k)) ks w)
  end.

Lemma updateInDeep_Some_not_None v path nsv f : updateInDeep (Some v) path nsv f <> Ok None.
Proof.
  revert v; induction path as [|k ks IH]; intros v; simpl.
  - by destruct (f v).
  - destruct (is_collection v); [|done].
    destruct (coll_get v k) as [c|] eqn:Hc.
    + specialize (IH c). destruct (updateInDeep (Some c) ks nsv f) as [[u|]|e]; simpl; done.
    + destruct (updateInDeep None ks nsv f) as [[u|]|e]; simpl; done.
Qed.

Lemma updateInDeep_present v path c nsv f :
  path_get v path = Some c ->
  updateInDeep (Some v) path nsv f = (w <- f c ;; Ok (Some (path_set v path w))).
Proof.
  revert v; induction path as [|k ks IH]; intros v Hp; simpl in *.
  - by injection Hp as ->.
  - destruct (is_collection v); [|done].
    destruct (coll_get v k) as [c'|] eqn:Hc; simpl in Hp; [|done].
    pose proof (updateInDeep_Some_not_None c' ks nsv f) as Hnn.
    rewrite (IH c' Hp) in Hnn |- *. by destruct (f c).
Qed.

Lemma updateIn_present path f v c :
  path_get v path = Some c -> is_collection v = true ->
  updateIn path f v = (w <- f c ;; Ok (path_set v path w)).
Proof.
  intros Hp Hv. unfold updateIn. rewrite Hv, (updateInDeep_present _ _ c) by done.
  by destruct (f c).
Qed.

Lemma update_present k f v c :
  coll_get v k = Some c -> is_collection v = true ->
  update k f v = (w <- f c ;; Ok (coll_set v k w)).
Proof.
  intros Hc Hv. unfold update. rewrite (updateIn_present _ _ _ c); [done| |done].
  simpl. by rewrite Hv, Hc.
Qed.

Lemma setIn_present path x v c :
  path_get v path = Some c -> is_collection v = true ->
  setIn path x v = Ok (path_set v path x).
Proof.
  intros Hp Hv. unfold setIn. by rewrite Hv, (updateInDeep_present _ _ c).
Qed.

(** ** Keyed access *)

Lemma kv_lookup_kv_set k k' x kvs :
  kv_lookup k (kv_set k' x kvs) = if decide (k = k') then Some x else kv_lookup k kvs.
Proof.
  induction kvs as [|[k'' v''] kvs IH]; simpl.
  - by repeat case_decide.
  - repeat (case_decide; subst; simpl); try congruence; by rewrite ?decide_True, ?decide_False.
Qed.

Lemma list_set_lt i x xs : i < length xs -> list_set i x xs = <[i:=x]> xs.
Proof. intros H. unfold list_set. by rewrite decide_True. Qed.

Lemma list_remove_lt i xs : i < length xs -> list_remove i xs = delete i xs.
Proof. intros H. unfold list_remove. by rewrite decide_True. Qed.

(** In or out of range, [List.remove] is stdpp's [delete]. *)
Lemma list_remove_delete i xs : list_remove i xs = delete i xs.
Proof.
  unfold list_remove. case_decide; [done|].
  revert i H; induction xs as [|x xs IH]; intros [|i] Hi; simpl in *; try done; [lia|].
  f_equal. apply IH. lia.
Qed.

(** Past the end, [List.set] leaves the old entries in place, fills the
    gap with [undefined] and puts the value last. *)
Lemma list_set_ge i x xs :
  length xs <= i -> list_set i x xs = xs ++ replicate (i - length xs) VUndef ++ [x].
Proof. intros H. unfold list_set. rewrite decide_False; [done|lia]. Qed.

#[export] Hint Rewrite kv_lookup_kv_set : quiz_rw.

(** ** Composing paths *)

Lemma path_get_snoc v p k x :
  path_get v p = Some x -> path_get v (p ++ [k]) = if is_collection x then coll_get x k else None.
Proof.
  revert v; induction p as [|k' p IH]; intros v Hp; simpl in *.
  - injection Hp as ->. by destruct (is_collection x), (coll_get x k).
  - destruct (is_collection v); [|done].
    destruct (coll_get v k') as [c|]; simpl in *; [by apply IH|done].
Qed.

Lemma path_set_snoc v p k w x :
  path_get v p = Some x -> path_set v (p ++ [k]) w = path_set v p (coll_set x k w).
Proof.
  revert v; induction p as [|k' p IH]; intros v Hp; simpl in *.
  - by injection Hp as ->.
  - destruct (is_collection v); [|done].
    destruct (coll_get v k') as [c|] eqn:Hc; simpl in *; [|done].
    by rewrite (IH c).
Qed.

Lemma updateInDeep_snoc_sentinel v p k w x :
  path_get v p = Some x -> is_collection x = true ->
  updateInDeep (Some v) (p ++ [k]) NotSetSentinel (fun _ => Ok w)
  = Ok (Some (path_set v p (coll_set x k w))).
Proof.
  revert v; induction p as [|k' p IH]; intros v Hp Hx; simpl in *.
  - injection Hp as ->. rewrite Hx. by destruct (coll_get x k).
  - destruct (is_collection v); [|done].
    destruct (coll_get v k') as [c|] eqn:Hc; simpl in *; [|done].
    by rewrite (IH c).
Qed.

(** [setIn(p ++ [k], w)] on an existing collection at [p]: the key [k] of
    that collection is set, whether it existed or not. *)
Lemma setIn_snoc p k w v x :
  path_get v p = Some x -> is_collection x = true -> is_collection v = true ->
  setIn (p ++ [k]) w v = Ok (path_set v p (coll_set x k w)).
Proof.
  intros Hp Hx Hv. unfold setIn. by rewrite Hv, (updateInDeep_snoc_sentinel _ _ _ _ x).
Qed.

(** [updateIn(p ++ [k], h)] is [updateIn(p, x => x.update(k, h))] along an
    existing path. *)
Lemma updateIn_snoc p k h v x c :
  path_get v p = Some x -> is_collection x = true -> coll_get x k = Some c ->
  is_collection v = true ->
  updateIn (p ++ [k]) h v = updateIn p (update k h) v.
Proof.
  intros Hp Hx Hc Hv.
  rewrite (updateIn_present _ _ _ c), (updateIn_present _ _ _ x) by
    (try rewrite (path_get_snoc _ _ _ x); rewrite ?Hx; done).
  rewrite (update_present _ _ _ c) by done.
  destruct (h c); simpl; [|done]. by rewrite (path_set_snoc _ _ _ _ x).
Qed.

(** [setIn(p ++ [k], w)] is [updateIn(p, x => x.set(k, w))] when [p]
    leads to a collection. *)
Lemma setIn_updateIn p k w v x :
  path_get v p = Some x -> is_collection x = true -> is_collection v = true ->
  setIn (p ++ [k]) w v = updateIn p (jset k w) v.
Proof.
  intros Hp Hx Hv. rewrite (setIn_snoc _ _ _ _ x), (updateIn_present _ _ _ x) by done.
  unfold jset. by rewrite Hx.
Qed.

(** Updating the element [n] of a List, [n] in range. *)
Lemma update_index_list n g xs x :
  xs !! n = Some x ->
  update (KIdx n) g (VList xs) = (w <- g x ;; Ok (VList (<[n:=w]> xs))).
Proof.
  intros Hx. rewrite (update_present _ _ _ x) by done.
  destruct (g x); simpl; [|done]. rewrite list_set_lt; [done|]. by eapply lookup_lt_Some.
Qed.
