(* ===== verification/Utils.v ===== *)
(** The helpers src/static/js/QuizBuilder.jsx imports from outside src/:
    [move] of ./utils (the reorder of a drag and drop, modelled from the
    spec: it only permutes), and the lodash functions [max] and [some]
    applied to [toJS()] of a collection.  [on] of ./utils is the key
    comparator that [Immutable.jsort] takes as its key function. *)

From S2P Require Import Prelude Json Sort Immutable.

(** [coll.toJS()] seen by lodash: the elements of an array, or the values
    of an object; a TypeError on anything that has no [toJS] method. *)
Definition toJS_values (v : value) : res (list value) :=
  match v with
  | VList xs => Ok xs
  | VMap kvs => Ok (kvs.*2)
  | _ => throw TypeError
  end.

(** [splice(j, 0, x)]: insert at [j], at the end when [j] is past it. *)
Definition insert_at {A} (j : nat) (x : A) (l : list A) : list A :=
  take j l ++ x :: drop j l.

(** The element at [from] taken out and inserted at [to] of what
    remains; a [from] out of range leaves the list as it is (the spec: a
    reorder only permutes). *)
Definition list_move {A} (l : list A) (from to : nat) : list A :=
  match l !! from with
  | Some x => insert_at to x (delete from l)
  | None => l
  end.

(** [move(list, from, to)] on an Immutable List. *)
Definition move (v : value) (from to : nat) : res value :=
  match v with
  | VList xs => Ok (VList (list_move xs from to))
  | _ => throw TypeError
  end.

(** lodash 3 [max(array)], i.e. [arrayExtremum(array, gt, -Infinity)]:
    each element is compared through [+value], and the element itself (not
    its number) is kept. *)
Fixpoint lodash_max_from (computed : number) (result : value) (xs : list value) : value :=
  match xs with
  | [] => result
  | x :: xs' =>
      let current := to_number x in
      if num_ltb computed current then lodash_max_from current x xs'
      else lodash_max_from computed result xs'
  end.

Definition lodash_max (xs : list value) : value :=
  lodash_max_from NegInfinity (VNum NegInfinity) xs.

(** lodash [some(array, predicate)]: stops at the first truthy answer; a
    predicate that throws makes [some] throw. *)
Fixpoint lodash_some (p : value -> res bool) (xs : list value) : res bool :=
  match xs with
  | [] => Ok false
  | x :: xs' => b <- p x ;; if b then Ok true else lodash_some p xs'
  end.

(** ** Lemmas *)

Lemma insert_at_perm {A} j (x : A) l : insert_at j x l ≡ₚ x :: l.
Proof.
  unfold insert_at. rewrite <-Permutation_middle. f_equiv. by rewrite take_drop.
Qed.

Lemma delete_lookup_perm {A} (l : list A) i x : l !! i = Some x -> x :: delete i l ≡ₚ l.
Proof.
  intros Hi. symmetry. apply delete_Permutation, Hi.
Qed.

(** Moving an element permutes the list. *)
Lemma list_move_perm {A} (l : list A) from to : list_move l from to ≡ₚ l.
Proof.
  unfold list_move. destruct (l !! from) as [x|] eqn:Hx; [|done].
  rewrite insert_at_perm. by apply delete_lookup_perm.
Qed.

(** Moving commutes with decoding each element. *)
Lemma mapM_list_move {A B} (f : A -> option B) l k from to :
  mapM f l = Some k -> mapM f (list_move l from to) = Some (list_move k from to).
Proof.
  rewrite !mapM_Some. intros Hl. unfold list_move.
  destruct (l !! from) as [x|] eqn:Hx.
  - destruct (Forall2_lookup_l _ _ _ _ _ Hl Hx) as (y & -> & Hxy).
    unfold insert_at. apply Forall2_delete with (i := from) in Hl.
    apply Forall2_app; [by apply Forall2_take|]. constructor; [done|]. by apply Forall2_drop.
  - destruct (k !! from) as [y|] eqn:Hy; [|done].
    destruct (Forall2_lookup_r _ _ _ _ _ Hl Hy) as (x & Hx' & _). congruence.
Qed.

(** On integers, lodash [max] is the greatest of them. *)
Lemma lodash_max_from_ints c zs :
  lodash_max_from (Int c) (VInt c) ((fun z => VInt z) <$> zs) = VInt (foldl Z.max c zs).
Proof.
  revert c; induction zs as [|z zs IH]; intros c; simpl; [done|].
  destruct (Z.ltb_spec c z); rewrite IH; do 3 f_equal; lia.
Qed.

Lemma lodash_max_ints z zs : lodash_max ((fun z => VInt z) <$> z :: zs) = VInt (foldl Z.max z zs).
Proof. apply lodash_max_from_ints. Qed.

Lemma lookup_insert_at {A} j (x : A) l : j <= length l -> insert_at j x l !! j = Some x.
Proof. intros Hj. unfold insert_at. apply list_lookup_middle. rewrite length_take. lia. Qed.

Lemma delete_insert_at {A} j (x : A) l : j <= length l -> delete j (insert_at j x l) = l.
Proof.
  intros Hj. unfold insert_at.
  rewrite <- (length_take_le l j) at 1 by done. rewrite delete_middle. apply take_drop.
Qed.

Lemma insert_at_delete {A} j (x : A) l : l !! j = Some x -> insert_at j x (delete j l) = l.
Proof.
  intros Hx. pose proof (lookup_lt_Some _ _ _ Hx) as Hj. unfold insert_at.
  rewrite delete_take_drop, take_app_length', drop_app_length' by (rewrite length_take; lia).
  by apply take_drop_middle.
Qed.

(** The element moved lands at [to]. *)
Lemma list_move_lookup {A} (l : list A) from to :
  from < length l -> to < length l -> list_move l from to !! to = l !! from.
Proof.
  intros Hf Ht. unfold list_move. destruct (lookup_lt_is_Some_2 _ _ Hf) as [x Hx]. rewrite Hx.
  apply lookup_insert_at. rewrite length_delete; [lia|done].
Qed.

(** Moving it back from [to] to [from] undoes the move. *)
Lemma list_move_back {A} (l : list A) from to :
  from < length l -> to < length l -> list_move (list_move l from to) to from = l.
Proof.
  intros Hf Ht. pose proof (list_move_lookup l from to Hf Ht) as Hto.
  destruct (lookup_lt_is_Some_2 _ _ Hf) as [x Hx]. rewrite Hx in Hto.
  unfold list_move at 1. rewrite Hto. unfold list_move. rewrite Hx.
  rewrite delete_insert_at by (rewrite length_delete; [lia|done]). by apply insert_at_delete.
Qed.
