(* ===== verification/Schema.v ===== *)
(** The typed view of a quiz document.  The records follow the objects the
    handlers of src/static/js/QuizBuilder.jsx build (the constructor's
    quiz, [addQuestion]'s question, [addAnswer]'s answer, [addGroup]'s
    group); [decode_quiz] reads a [value] through those fields and ignores
    any other key, [encode_quiz] writes the fields in the order the code
    creates them.  The schema validator of ./schema is not under src/:
    [validate] is modelled from the data model of the spec, as "the
    document decodes". *)

From S2P Require Import Prelude Json Immutable.

Record answer := mkAnswer {
  answer_text : string;
  answer_imageUrl : string;
  answer_correct : bool
}.

Record question := mkQuestion {
  question_text : string;
  question_imageUrl : string;
  question_more : string;
  question_answers : list answer
}.

Record group := mkGroup {
  group_title : string;
  group_share : string;
  group_minScore : Z
}.

Record quiz := mkQuiz {
  quiz_id : string;
  quiz_titleText : string;
  quiz_type : string;
  quiz_defaultColumns : Z;
  quiz_questions : list question;
  quiz_groups : list group
}.

#[export] Instance answer_eq_dec : EqDecision answer.
Proof. solve_decision. Defined.
#[export] Instance question_eq_dec : EqDecision question.
Proof. solve_decision. Defined.
#[export] Instance group_eq_dec : EqDecision group.
Proof. solve_decision. Defined.
#[export] Instance quiz_eq_dec : EqDecision quiz.
Proof. solve_decision. Defined.

(** ** Decoding *)

Definition as_str (v : value) : option string :=
  match v with VStr s => Some s | _ => None end.
Definition as_int (v : value) : option Z :=
  match v with VNum (Int z) => Some z | _ => None end.
Definition as_bool (v : value) : option bool :=
  match v with VBool b => Some b | _ => None end.
Definition as_list (v : value) : option (list value) :=
  match v with VList xs => Some xs | _ => None end.
Definition as_map (v : value) : option (list (key * value)) :=
  match v with VMap kvs => Some kvs | _ => None end.

Definition field {A} (conv : value -> option A) (k : string) (kvs : list (key * value)) : option A :=
  v ← kv_lookup (KStr k) kvs; conv v.
Arguments field : simpl never.

Definition decode_answer (v : value) : option answer :=
  kvs ← as_map v;
  t ← field as_str "answer" kvs;
  u ← field as_str "imageUrl" kvs;
  c ← field as_bool "correct" kvs;
  Some (mkAnswer t u c).

Definition decode_question (v : value) : option question :=
  kvs ← as_map v;
  t ← field as_str "question" kvs;
  u ← field as_str "imageUrl" kvs;
  m ← field as_str "more" kvs;
  xs ← field as_list "multiChoiceAnswers" kvs;
  ans ← mapM decode_answer xs;
  Some (mkQuestion t u m ans).

Definition decode_group (v : value) : option group :=
  kvs ← as_map v;
  t ← field as_str "title" kvs;
  s ← field as_str "share" kvs;
  m ← field as_int "minScore" kvs;
  Some (mkGroup t s m).

Definition decode_quiz (v : value) : option quiz :=
  kvs ← as_map v;
  i ← field as_str "id" kvs;
  h ← field as_map "header" kvs;
  tt ← field as_str "titleText" h;
  ty ← field as_str "type" kvs;
  dc ← field as_int "defaultColumns" kvs;
  qs ← field as_list "questions" kvs;
  gs ← field as_list "resultGroups" kvs;
  qs' ← mapM decode_question qs;
  gs' ← mapM decode_group gs;
  Some (mkQuiz i tt ty dc qs' gs').

(** The component state is the Map [{quiz: ...}]. *)
Definition decode_state (s : value) : option quiz :=
  kvs ← as_map s;
  q ← kv_lookup (KStr "quiz") kvs;
  decode_quiz q.

(** The schema check of [loadFromJSON] (modelled from the spec's data
    model). *)
Definition validate (json : value) : bool := bool_decide (is_Some (decode_quiz json)).

(** ** Encoding, in the field order of the code *)

Definition encode_answer (a : answer) : value :=
  VMap [(KStr "answer", VStr (answer_text a));
        (KStr "imageUrl", VStr (answer_imageUrl a));
        (KStr "correct", VBool (answer_correct a))].

Definition encode_question (q : question) : value :=
  VMap [(KStr "question", VStr (question_text q));
        (KStr "imageUrl", VStr (question_imageUrl q));
        (KStr "more", VStr (question_more q));
        (KStr "multiChoiceAnswers", VList (encode_answer <$> question_answers q))].

Definition encode_group (g : group) : value :=
  VMap [(KStr "title", VStr (group_title g));
        (KStr "share", VStr (group_share g));
        (KStr "minScore", VInt (group_minScore g))].

Definition encode_quiz (z : quiz) : value :=
  VMap [(KStr "id", VStr (quiz_id z));
        (KStr "header", VMap [(KStr "titleText", VStr (quiz_titleText z))]);
        (KStr "type", VStr (quiz_type z));
        (KStr "defaultColumns", VInt (quiz_defaultColumns z));
        (KStr "questions", VList (encode_question <$> quiz_questions z));
        (KStr "resultGroups", VList (encode_group <$> quiz_groups z))].

(** ** Decoding after an update of one field *)

Lemma field_kv_set_eq {A} (conv : value -> option A) k x kvs :
  field conv k (kv_set (KStr k) x kvs) = conv x.
Proof. unfold field. by rewrite kv_lookup_kv_set, decide_True. Qed.

Lemma field_kv_set_ne {A} (conv : value -> option A) k k' x kvs :
  k <> k' -> field conv k (kv_set (KStr k') x kvs) = field conv k kvs.
Proof. intros Hne. unfold field. rewrite kv_lookup_kv_set, decide_False; congruence. Qed.

#[export] Hint Rewrite @field_kv_set_eq : quiz_rw.
#[export] Hint Rewrite @field_kv_set_ne using congruence : quiz_rw.

Lemma decode_encode_answer a : decode_answer (encode_answer a) = Some a.
Proof. by destruct a. Qed.

Lemma decode_encode_group g : decode_group (encode_group g) = Some g.
Proof. by destruct g. Qed.

Lemma decode_encode_question q : decode_question (encode_question q) = Some q.
Proof.
  destruct q as [t u m ans]. unfold decode_question. simpl.
  rewrite mapM_fmap_Some; [done|]. apply decode_encode_answer.
Qed.
