(* ===== verification/Samples.v ===== *)
(** Concrete documents the witnesses run the model on: the state after
    importing a one-question quiz with two result groups, documents an
    import may bring in, and a [JSON.parse] that knows these texts. *)

From S2P Require Import Prelude Json Schema.

Definition sample_answer (t : string) (c : bool) : value :=
  VMap [(KStr "answer", VStr t); (KStr "imageUrl", VStr ""); (KStr "correct", VBool c)].

Definition sample_group (t : string) (m : Z) : value :=
  VMap [(KStr "title", VStr t); (KStr "share", VStr ""); (KStr "minScore", VInt m)].

Definition sample_question (answers : list value) : value :=
  VMap [(KStr "question", VStr "France?"); (KStr "imageUrl", VStr ""); (KStr "more", VStr "");
        (KStr "multiChoiceAnswers", VList answers)].

Definition sample_doc_with (answers : list value) (groups : list value) : value :=
  VMap [(KStr "id", VStr "q1");
        (KStr "header", VMap [(KStr "titleText", VStr "Capitals")]);
        (KStr "type", VStr "list");
        (KStr "defaultColumns", VInt 1);
        (KStr "questions", VList [sample_question answers]);
        (KStr "resultGroups", VList groups)].

(** One question with two answers, the first correct; two result groups
    in descending order of score. *)
Definition sample_doc : value :=
  sample_doc_with [sample_answer "Paris" true; sample_answer "Lyon" false]
    [sample_group "All" 1; sample_group "None" 0].

(** The same groups in ascending order. *)
Definition unsorted_doc : value :=
  sample_doc_with [sample_answer "Paris" true; sample_answer "Lyon" false]
    [sample_group "None" 0; sample_group "All" 1].

Definition sample_state : value := VMap [(KStr "quiz", sample_doc)].

Definition sample_quiz : quiz :=
  mkQuiz "q1" "Capitals" "list" 1
    [mkQuestion "France?" "" "" [mkAnswer "Paris" "" true; mkAnswer "Lyon" "" false]]
    [mkGroup "All" "" 1; mkGroup "None" "" 0].

(** [JSON.parse] on the texts of these documents; a SyntaxError on any
    other text. *)
Definition sample_parse (text : string) : option value :=
  if String.eqb text "sample" then Some sample_doc
  else if String.eqb text "unsorted" then Some unsorted_doc
  else None.

Lemma sample_state_decodes : decode_state sample_state = Some sample_quiz.
Proof. reflexivity. Qed.
