(* ===== verification/ElasticTextArea.v ===== *)
(** The auto-growing text area, src/static/js/ElasticTextArea.js.  Its
    [render] merges the caller's props with [{style: this.state,
    className: ' elastic-text-area__textarea'}] through lodash [merge],
    puts the caller's [className] on the container, mirrors the value
    (or [''] when it is falsy) in a hidden [pre] that sets the height, and
    gives the merged props to the [textarea].  The component has no
    constructor, so React sets [this.state] to [null].

    Props are a JS object, modelled as the entries of a [VMap]. *)

From S2P Require Import Prelude Json Immutable.

(** lodash 3 [merge(object, source)] for a source whose values are not
    plain objects (those are merged deeply; the props of this file hold
    none): each key is assigned its source value, except that an
    [undefined] source value leaves the key alone. *)
Definition lodash_merge (object source : list (key * value)) : list (key * value) :=
  foldl (fun acc kv => match kv.2 with VUndef => acc | v => kv_set kv.1 v acc end) object source.

(** What the component puts in the page. *)
Record eta_view := mkEtaView {
  eta_container_class : string;
  eta_grow_text : value;
  eta_textarea : list (key * value)
}.

Definition prop (k : string) (props : list (key * value)) : value :=
  default VUndef (kv_lookup (KStr k) props).

Module ElasticTextArea.

Definition render (props : list (key * value)) (state : value) : eta_view :=
    let merged := lodash_merge (lodash_merge [] props)
                    [(KStr "style", state); (KStr "className", VStr " elastic-text-area__textarea")] in
    mkEtaView
      ("elastic-text-area__container " ++ js_to_string (prop "className" props))
      (let v := prop "value" merged in if truthy v then v else VStr "")
      merged.

End ElasticTextArea.

(** ** Lemmas *)

(** The value a key ends with in a merge: the last source value for it
    that is not [undefined], or the object's own. *)
Definition merged_value (k : key) (r : option value) (source : list (key * value)) : option value :=
  foldl (fun r kv => if decide (kv.1 = k) then match kv.2 with VUndef => r | v => Some v end else r) r source.

Lemma kv_lookup_lodash_merge k object source :
  kv_lookup k (lodash_merge object source) = merged_value k (kv_lookup k object) source.
Proof.
  unfold lodash_merge, merged_value. revert object.
  induction source as [|[k' v'] source IH]; intros object; [done|]. simpl. rewrite IH. f_equal.
  destruct v'; simpl; rewrite ?kv_lookup_kv_set; repeat case_decide; subst; congruence.
Qed.

Lemma merged_value_absent k r source :
  Forall (fun kv => kv.1 <> k) source -> merged_value k r source = r.
Proof.
  unfold merged_value. intros Hs. revert r. induction Hs as [|[k' v'] source Hk _ IH]; intros r; [done|].
  simpl. rewrite decide_False by done. apply IH.
Qed.

Lemma merged_value_absent_lookup k r source :
  kv_lookup k source = None -> merged_value k r source = r.
Proof.
  intros Hn. apply merged_value_absent. induction source as [|[k' v'] source IH]; constructor.
  - simpl. intros ->. by rewrite kv_lookup_cons_eq in Hn.
  - apply IH. simpl in Hn. by case_decide.
Qed.

(** C31 Whatever props the caller passes, the [textarea] gets the class
    [' elastic-text-area__textarea'] (the caller's [className] goes to
    the container only), its [style] is the component state, and it gets
    no prop the caller did not pass besides these two: in particular no
    change handler appears that the caller did not give. *)
Theorem ElasticTextArea_render_props (props : list (key * value)) (state : value) :
  kv_lookup (KStr "className") (eta_textarea (ElasticTextArea.render props state)) =
    Some (VStr " elastic-text-area__textarea") /\
  (state <> VUndef -> kv_lookup (KStr "style") (eta_textarea (ElasticTextArea.render props state)) = Some state) /\
  eta_container_class (ElasticTextArea.render props state) =
    ("elastic-text-area__container " ++ js_to_string (prop "className" props))%string /\
  (forall k, k <> "style" -> k <> "className" -> kv_lookup (KStr k) props = None ->
     kv_lookup (KStr k) (eta_textarea (ElasticTextArea.render props state)) = None).
Proof.
  unfold ElasticTextArea.render; cbn [eta_textarea eta_container_class].
  split_and!; rewrite ?kv_lookup_lodash_merge; try done.
  - intros Hs. by destruct state.
  - intros k Hk1 Hk2 Hn. rewrite kv_lookup_lodash_merge, merged_value_absent.
    + rewrite kv_lookup_lodash_merge. by apply merged_value_absent_lookup.
    + repeat constructor; simpl; congruence.
Qed.

Lemma ElasticTextArea_render_props_witness :
  kv_lookup (KStr "className")
    (eta_textarea (ElasticTextArea.render [(KStr "className", VStr "quiz-builder__answer-text");
                                           (KStr "value", VStr "Well done")] VNull)) =
    Some (VStr " elastic-text-area__textarea").
Proof.
  exact (proj1 (ElasticTextArea_render_props
    [(KStr "className", VStr "quiz-builder__answer-text"); (KStr "value", VStr "Well done")] VNull)).
Defined.
