(* ===== verification/QuizBuilder.v ===== *)
(** The handlers of the React component [QuizBuilder]
    (src/static/js/QuizBuilder.jsx), one definition each, on the component
    state [this.state] (the Immutable Map [{quiz: ...}]).

    A handler call is a [run]: the state after the call and the exception
    it threw, if any.  [updateState(f)] computes [f(this.state)] before
    assigning, so a throwing [f] leaves the state as it was; the handlers
    that call [updateQuiz] twice ([decreaseGroupMinScore],
    [increaseGroupMinScore]) keep the first update when the second throws.
    Index arguments are the indices [render] binds ([this.setQuestionText(i)]
    and so on); the handlers themselves do not check them. *)

From S2P Require Import Prelude Json Sort Immutable Utils Schema.

Record run := mkRun { after : value; thrown : option exn }.

Definition ok_run (s : value) : run := mkRun s None.

(** [updateState(f)]: the state becomes [f(state)], or stays if [f]
    throws. *)
Definition updateState (f : value -> res value) (s : value) : run :=
  match f s with
  | Ok s' => ok_run s'
  | Err e => mkRun s (Some e)
  end.

(** Two statements in sequence: the second runs on the state the first
    left, unless the first threw. *)
Definition seq_run (r : run) (k : value -> run) : run :=
  match thrown r with
  | None => k (after r)
  | Some _ => r
  end.

(** [updateQuiz(f)] is [updateState(state => state.update('quiz', f))]. *)
Definition updateQuiz (f : value -> res value) (s : value) : run :=
  updateState (fun state => update (KStr "quiz") f state) s.

(** [constructor(props)]: the initial state; [uuid.v4()] is the
    parameter [id]. *)
Definition initial_state (id : string) : value :=
  VMap [(KStr "quiz",
    VMap [(KStr "id", VStr id);
          (KStr "header", VMap [(KStr "titleText", VStr "")]);
          (KStr "type", VStr "list");
          (KStr "defaultColumns", VInt 1);
          (KStr "questions", VList []);
          (KStr "resultGroups", VList [])])].

(** [on(group => -group.get('minScore'))]: the sort key of a group. *)
Definition minScoreKey (group : value) : res number :=
  m <- jget (KStr "minScore") group ;; Ok (num_neg (to_number m)).

Definition reSortGroups (s : value) : run :=
  updateQuiz (fun quiz =>
    update (KStr "resultGroups") (fun groups => jsort minScoreKey groups) quiz) s.

(** [groups.size > 0 ? max(map(groups.toJS(), g => g.minScore)) + 1 : 0] *)
Definition newGroupScore (groups : value) : res value :=
  sz <- jsize groups ;;
  match sz with
  | Some (S _) =>
      js <- toJS_values groups ;;
      scores <- res_mapM (fun g => get_prop g "minScore") js ;;
      Ok (js_add1 (lodash_max scores))
  | _ => Ok (VInt 0)
  end.

Definition new_group (minScore : value) : value :=
  VMap [(KStr "title", VStr ""); (KStr "share", VStr ""); (KStr "minScore", minScore)].

Definition addGroup (s : value) : run :=
  updateQuiz (fun state =>
    update (KStr "resultGroups") (fun groups =>
      ms <- newGroupScore groups ;; junshift (new_group ms) groups) state) s.

Definition deleteQuestion (n : nat) (s : value) : run :=
  updateQuiz (fun state =>
    update (KStr "questions") (fun questions => jremove (KIdx n) questions) state) s.

Definition setQuestionText (n : nat) (text : string) (s : value) : run :=
  updateQuiz (fun state =>
    updateIn [KStr "questions"; KIdx n]
      (fun question => jset (KStr "question") (VStr text) question) state) s.

Definition new_answer (correct : bool) : value :=
  VMap [(KStr "answer", VStr ""); (KStr "imageUrl", VStr ""); (KStr "correct", VBool correct)].

(** [correct: answers.size === 0] *)
Definition addAnswer (questionNumber : nat) (s : value) : run :=
  updateQuiz (fun state =>
    updateIn [KStr "questions"; KIdx questionNumber] (fun question =>
      update (KStr "multiChoiceAnswers") (fun answers =>
        sz <- jsize answers ;;
        jpush (new_answer (bool_decide (sz = Some 0))) answers) question) state) s.

(** [ensureCorrectExists]: if the answers are not empty and none is
    correct, the first one becomes correct. *)
Definition ensureCorrectExists (answers : value) : res value :=
  sz <- jsize answers ;;
  if bool_decide (sz = Some 0) then Ok answers
  else
    js <- toJS_values answers ;;
    b <- lodash_some (fun answer => c <- get_prop answer "correct" ;; Ok (truthy c)) js ;;
    if b then Ok answers
    else update (KIdx 0) (fun a => jset (KStr "correct") (VBool true) a) answers.

Definition answers_path (questionNumber : nat) : list key :=
  [KStr "questions"; KIdx questionNumber; KStr "multiChoiceAnswers"].

Definition removeAnswer (questionNumber answerNumber : nat) (s : value) : run :=
  updateQuiz (fun state =>
    updateIn (answers_path questionNumber) (fun answers =>
      r <- jremove (KIdx answerNumber) answers ;; ensureCorrectExists r) state) s.

Definition setAnswerText (questionNumber answerNumber : nat) (text : string) (s : value) : run :=
  updateQuiz (fun state =>
    setIn (answers_path questionNumber ++ [KIdx answerNumber; KStr "answer"]) (VStr text) state) s.

(** [answers.map((answer, i) => answer.set('correct', i === answerNumber))] *)
Definition setAnswerCorrect (questionNumber answerNumber : nat) (s : value) : run :=
  updateQuiz (fun state =>
    updateIn (answers_path questionNumber) (fun answers =>
      jmap (fun answer i => jset (KStr "correct") (VBool (bool_decide (i = KIdx answerNumber))) answer)
        answers) state) s.

Definition setRevealText (questionNumber : nat) (text : string) (s : value) : run :=
  updateQuiz (fun state =>
    setIn [KStr "questions"; KIdx questionNumber; KStr "more"] (VStr text) state) s.

Definition new_question : value :=
  VMap [(KStr "question", VStr ""); (KStr "imageUrl", VStr ""); (KStr "more", VStr "");
        (KStr "multiChoiceAnswers", VList [])].

Definition addQuestion (s : value) : run :=
  updateQuiz (fun state =>
    update (KStr "questions") (fun questions => jpush new_question questions) state) s.

Definition reorder (dragIndex dropIndex : nat) (s : value) : run :=
  updateQuiz (fun quiz =>
    update (KStr "questions") (fun questions => move questions dragIndex dropIndex) quiz) s.

Definition reorderAnswers (questionNumber dragIndex dropIndex : nat) (s : value) : run :=
  updateQuiz (fun quiz =>
    updateIn (answers_path questionNumber) (fun answers => move answers dragIndex dropIndex) quiz) s.

Definition setQuestionImageUrl (questionNumber : nat) (imageUrl : string) (s : value) : run :=
  updateQuiz (fun quiz =>
    setIn [KStr "questions"; KIdx questionNumber; KStr "imageUrl"] (VStr imageUrl) quiz) s.

Definition setAnswerImageUrl (questionNumber answerNumber : nat) (imageUrl : string) (s : value) : run :=
  updateQuiz (fun quiz =>
    setIn (answers_path questionNumber ++ [KIdx answerNumber; KStr "imageUrl"]) (VStr imageUrl) quiz) s.

Definition removeGroup (index : nat) (s : value) : run :=
  updateQuiz (fun quiz => update (KStr "resultGroups") (fun groups => jremove (KIdx index) groups) quiz) s.

Definition setGroupText (index : nat) (text : string) (s : value) : run :=
  updateQuiz (fun quiz => setIn [KStr "resultGroups"; KIdx index; KStr "title"] (VStr text) quiz) s.

Definition setGroupShare (index : nat) (shareText : string) (s : value) : run :=
  updateQuiz (fun quiz => setIn [KStr "resultGroups"; KIdx index; KStr "share"] (VStr shareText) quiz) s.

Definition score_path (index : nat) : list key := [KStr "resultGroups"; KIdx index; KStr "minScore"].

(** Two statements: the score update, then [this.reSortGroups()]. *)
Definition decreaseGroupMinScore (index : nat) (s : value) : run :=
  seq_run (updateQuiz (fun quiz => updateIn (score_path index) (fun score => Ok (js_sub1 score)) quiz) s)
    reSortGroups.

Definition increaseGroupMinScore (index : nat) (s : value) : run :=
  seq_run (updateQuiz (fun quiz => updateIn (score_path index) (fun score => Ok (js_add1 score)) quiz) s)
    reSortGroups.

(** [shuffle(answers.toJS())] is random: [rand i] is what lodash returns
    for the answers of question [i]. *)
Definition shuffleAnswers (rand : key -> list value -> list value) (s : value) : run :=
  updateQuiz (fun quiz =>
    update (KStr "questions") (fun questions =>
      jmap (fun question i =>
        update (KStr "multiChoiceAnswers") (fun answers =>
          js <- toJS_values answers ;; Ok (VList (rand i js))) question) questions) quiz) s.

(** [quiz.set('title', event.target.value)] *)
Definition onChangeTitle (text : string) (s : value) : run :=
  updateQuiz (fun quiz => jset (KStr "title") (VStr text) quiz) s.

(** [loadFromJSON()]: [json_parse] is [JSON.parse] ([None] when it throws
    a SyntaxError) and [userJson] what [prompt] returned ([None] when the
    user cancelled).  The result is the new state and whether the alert
    "Bad JSON format, could not load." was shown.  Inside the [try],
    [this.state] is assigned before [this.reSortGroups()] runs: if the
    re-sort threw, the new document would stay in place and the alert
    would still be shown. *)
Definition loadFromJSON (json_parse : string -> option value) (userJson : option string) (s : value)
    : value * bool :=
  match userJson with
  | None => (s, false)
  | Some text =>
      if String.eqb text "" then (s, false)
      else
        match json_parse text with
        | None => (s, true)
        | Some json =>
            if validate json then
              let loaded := VMap [(KStr "quiz", json)] in
              let r := reSortGroups loaded in
              (after r, bool_decide (thrown r <> None))
            else (s, true)
        end
  end.
