(* ===== verification/Spec.v ===== *)
(** The abstract editor: what each handler of
    src/static/js/QuizBuilder.jsx does to the typed quiz of [Schema], as a
    pure operation on records and lists.  [Refinement] proves that the
    handlers, run on any document that decodes, implement these. *)

From S2P Require Import Prelude Sort Utils Schema.

Local Open Scope Z_scope.

(** ** Record updates *)

Definition with_questions (z : quiz) (qs : list question) : quiz :=
  mkQuiz (quiz_id z) (quiz_titleText z) (quiz_type z) (quiz_defaultColumns z) qs (quiz_groups z).

Definition with_groups (z : quiz) (gs : list group) : quiz :=
  mkQuiz (quiz_id z) (quiz_titleText z) (quiz_type z) (quiz_defaultColumns z) (quiz_questions z) gs.

Definition map_question (n : nat) (f : question -> question) (z : quiz) : quiz :=
  with_questions z (alter f n (quiz_questions z)).

Definition map_answers (f : list answer -> list answer) (q : question) : question :=
  mkQuestion (question_text q) (question_imageUrl q) (question_more q) (f (question_answers q)).

Definition map_group (n : nat) (f : group -> group) (z : quiz) : quiz :=
  with_groups z (alter f n (quiz_groups z)).

Definition set_answer_correct (c : bool) (a : answer) : answer :=
  mkAnswer (answer_text a) (answer_imageUrl a) c.

(** ** Questions *)

Definition empty_question : question := mkQuestion "" "" "" [].

Definition a_addQuestion (z : quiz) : quiz :=
  with_questions z (quiz_questions z ++ [empty_question]).

Definition a_deleteQuestion (n : nat) (z : quiz) : quiz :=
  with_questions z (delete n (quiz_questions z)).

Definition a_setQuestionText (n : nat) (t : string) : quiz -> quiz :=
  map_question n (fun q => mkQuestion t (question_imageUrl q) (question_more q) (question_answers q)).

Definition a_setQuestionImageUrl (n : nat) (u : string) : quiz -> quiz :=
  map_question n (fun q => mkQuestion (question_text q) u (question_more q) (question_answers q)).

Definition a_setRevealText (n : nat) (t : string) : quiz -> quiz :=
  map_question n (fun q => mkQuestion (question_text q) (question_imageUrl q) t (question_answers q)).

Definition a_reorder (from to : nat) (z : quiz) : quiz :=
  with_questions z (list_move (quiz_questions z) from to).

(** ** Answers *)

(** A new answer is correct exactly when it is the first. *)
Definition a_addAnswer (n : nat) : quiz -> quiz :=
  map_question n (map_answers (fun ans => ans ++ [mkAnswer "" "" (bool_decide (ans = []))])).

(** If answers remain and none is correct, the first becomes correct. *)
Definition ensure_correct (ans : list answer) : list answer :=
  if bool_decide (ans = []) || existsb answer_correct ans then ans
  else alter (set_answer_correct true) 0%nat ans.

Definition a_removeAnswer (n i : nat) : quiz -> quiz :=
  map_question n (map_answers (fun ans => ensure_correct (delete i ans))).

Definition a_setAnswerText (n i : nat) (t : string) : quiz -> quiz :=
  map_question n (map_answers (alter (fun a => mkAnswer t (answer_imageUrl a) (answer_correct a)) i)).

Definition a_setAnswerImageUrl (n i : nat) (u : string) : quiz -> quiz :=
  map_question n (map_answers (alter (fun a => mkAnswer (answer_text a) u (answer_correct a)) i)).

Definition a_setAnswerCorrect (n i : nat) : quiz -> quiz :=
  map_question n (map_answers (imap (fun j a => set_answer_correct (bool_decide (j = i)) a))).

Definition a_reorderAnswers (n from to : nat) : quiz -> quiz :=
  map_question n (map_answers (fun ans => list_move ans from to)).

(** ** Result groups *)

(** The stable sort by descending [minScore]. *)
Definition sort_groups (gs : list group) : list group :=
  (sort_by Z.ltb ((fun g => (- group_minScore g, g)) <$> gs)).*2.

(** One more than the greatest score, 0 for no group. *)
Definition new_score (gs : list group) : Z :=
  match gs with
  | [] => 0
  | g :: gs' => foldl Z.max (group_minScore g) (group_minScore <$> gs') + 1
  end.

Definition a_addGroup (z : quiz) : quiz :=
  with_groups z (mkGroup "" "" (new_score (quiz_groups z)) :: quiz_groups z).

Definition a_removeGroup (i : nat) (z : quiz) : quiz :=
  with_groups z (delete i (quiz_groups z)).

Definition a_setGroupText (i : nat) (t : string) : quiz -> quiz :=
  map_group i (fun g => mkGroup t (group_share g) (group_minScore g)).

Definition a_setGroupShare (i : nat) (t : string) : quiz -> quiz :=
  map_group i (fun g => mkGroup (group_title g) t (group_minScore g)).

Definition a_reSortGroups (z : quiz) : quiz := with_groups z (sort_groups (quiz_groups z)).

(** [decreaseGroupMinScore] ([d = -1]) and [increaseGroupMinScore]
    ([d = 1]): change one score, then re-sort. *)
Definition a_changeGroupMinScore (i : nat) (d : Z) (z : quiz) : quiz :=
  a_reSortGroups (map_group i (fun g => mkGroup (group_title g) (group_share g) (group_minScore g + d)) z).

(** ** Sortedness of the groups *)

(** Descending by [minScore], neighbour by neighbour. *)
Fixpoint groups_sorted (gs : list group) : bool :=
  match gs with
  | g1 :: ((g2 :: _) as gs') => bool_decide (group_minScore g2 <= group_minScore g1) && groups_sorted gs'
  | _ => true
  end.

(** Exactly one answer is correct, or there are no answers. *)
Definition one_correct (ans : list answer) : bool :=
  bool_decide (ans = []) || bool_decide (length (filter answer_correct ans) = 1%nat).

(** [shuffleAnswers] is random: each question's answers are replaced by
    some permutation of them. *)
Definition shuffled_question (q q' : question) : Prop :=
  exists ans, ans ≡ₚ question_answers q /\ q' = map_answers (fun _ => ans) q.

Definition a_shuffled (z z' : quiz) : Prop :=
  exists qs', Forall2 shuffled_question (quiz_questions z) qs' /\ z' = with_questions z qs'.

(** Every question has exactly one correct answer, or no answer. *)
Definition answers_ok (z : quiz) : Prop :=
  Forall (fun q => one_correct (question_answers q) = true) (quiz_questions z).

#[export] Instance answers_ok_dec z : Decision (answers_ok z).
Proof. unfold answers_ok. apply _. Defined.
