(* ===== verification/Refinement.v ===== *)
(** Refinement: every handler of src/static/js/QuizBuilder.jsx, run on a
    component state whose quiz decodes, does not throw and leaves a state
    whose quiz decodes to the abstract operation of [Spec] applied to the
    old one.  Indices must point at existing questions, answers or groups,
    as the ones [render] binds do.

    The proofs go level by level: the state Map and its [quiz] key
    ([updateQuiz_implements]), the quiz Map and its [questions] or
    [resultGroups] list, one question or group of the list, the
    [multiChoiceAnswers] of a question, one answer.  Each level has a "get"
    lemma (what the decoder found there) and a "put" lemma (decoding after
    the key is replaced). *)

From S2P Require Import Prelude Json Sort Immutable Utils Schema QuizBuilder Spec.

(** [h] implements [a] on the documents that decode to a quiz satisfying
    [pre]: it does not throw, and the new state decodes to [a z]. *)
Definition implements (pre : quiz -> Prop) (h : value -> run) (a : quiz -> quiz) : Prop :=
  forall s z, decode_state s = Some z -> pre z ->
    thrown (h s) = None /\ decode_state (after (h s)) = Some (a z).

(** How a quiz-level function [f] refines [a]. *)
Definition quiz_refines (pre : quiz -> Prop) (f : value -> res value) (a : quiz -> quiz) : Prop :=
  forall qv z, decode_quiz qv = Some z -> pre z ->
    exists qv', f qv = Ok qv' /\ decode_quiz qv' = Some (a z).

Definition answer_exists (n i : nat) (z : quiz) : Prop :=
  exists q, quiz_questions z !! n = Some q /\ i < length (question_answers q).

Definition shuffle_one (rand : key -> list value -> list value) (question : value) (i : key) : res value :=
  update (KStr "multiChoiceAnswers") (fun answers =>
    js <- toJS_values answers ;; Ok (VList (rand i js))) question.

(** Every decoder reads a Map. *)
Ltac decoded_map H :=
  match type of H with
  | ?dec ?v = Some _ =>
      let kvs := fresh "kvs" in
      destruct v as [| | | | | |kvs]; try discriminate H
  end.

(** Unfold the decoder on both sides, split the hypothesis into its
    fields, rewrite the replaced key away and the others with the
    hypotheses. *)
Ltac put_tac :=
  intros;
  repeat match goal with
  | H : decode_quiz (VMap _) = Some _ |- _ => unfold decode_quiz in H; simpl in H; opt_inv
  | H : decode_question (VMap _) = Some _ |- _ => unfold decode_question in H; simpl in H; opt_inv
  | H : decode_answer (VMap _) = Some _ |- _ => unfold decode_answer in H; simpl in H; opt_inv
  | H : decode_group (VMap _) = Some _ |- _ => unfold decode_group in H; simpl in H; opt_inv
  end;
  lazymatch goal with
  | |- decode_quiz _ = _ => unfold decode_quiz
  | |- decode_question _ = _ => unfold decode_question
  | |- decode_answer _ = _ => unfold decode_answer
  | |- decode_group _ = _ => unfold decode_group
  end; simpl;
  autorewrite with quiz_rw;
  repeat match goal with
  | H : ?a = Some _ |- context [?a] => rewrite H; simpl
  end;
  try reflexivity.

(** The put step of a handler that writes one field: [jset] on a Map,
    then the field's put lemma. *)
Ltac put_field lem := intros ?kvs ?q ?Hq; eexists; split; [done|]; by apply lem.

(** ** What the decoders find *)

Lemma field_Some {A} (conv : value -> option A) k kvs a :
  field conv k kvs = Some a <-> exists v, kv_lookup (KStr k) kvs = Some v /\ conv v = Some a.
Proof. unfold field. by rewrite bind_Some. Qed.

Lemma as_list_Some v xs : as_list v = Some xs <-> v = VList xs.
Proof. destruct v; simpl; split; congruence. Qed.

Lemma field_list_Some k kvs xs :
  field as_list k kvs = Some xs <-> kv_lookup (KStr k) kvs = Some (VList xs).
Proof.
  rewrite field_Some. split; [intros (v & Hv & ->%as_list_Some) | intros Hv; eexists]; done.
Qed.

Lemma decode_quiz_questions kvs z :
  decode_quiz (VMap kvs) = Some z ->
  exists qs, kv_lookup (KStr "questions") kvs = Some (VList qs) /\
             mapM decode_question qs = Some (quiz_questions z).
Proof.
  unfold decode_quiz; simpl. intros H. opt_inv.
  eexists; split; [by apply field_list_Some|done].
Qed.

Lemma decode_quiz_groups kvs z :
  decode_quiz (VMap kvs) = Some z ->
  exists gs, kv_lookup (KStr "resultGroups") kvs = Some (VList gs) /\
             mapM decode_group gs = Some (quiz_groups z).
Proof.
  unfold decode_quiz; simpl. intros H. opt_inv.
  eexists; split; [by apply field_list_Some|done].
Qed.

Lemma decode_question_answers kvs q :
  decode_question (VMap kvs) = Some q ->
  exists xs, kv_lookup (KStr "multiChoiceAnswers") kvs = Some (VList xs) /\
             mapM decode_answer xs = Some (question_answers q).
Proof.
  unfold decode_question; simpl. intros H. opt_inv.
  eexists; split; [by apply field_list_Some|done].
Qed.

Lemma decode_state_quiz s z :
  decode_state s = Some z ->
  exists kvs qv, s = VMap kvs /\ kv_lookup (KStr "quiz") kvs = Some qv /\ decode_quiz qv = Some z.
Proof. intros H. decoded_map H. unfold decode_state in H; simpl in H. opt_inv. eauto. Qed.

(** ** Decoding after one key is replaced *)

Lemma decode_quiz_put_questions kvs z qs zqs :
  decode_quiz (VMap kvs) = Some z -> mapM decode_question qs = Some zqs ->
  decode_quiz (VMap (kv_set (KStr "questions") (VList qs) kvs)) = Some (with_questions z zqs).
Proof. put_tac. Qed.

Lemma decode_quiz_put_groups kvs z gs zgs :
  decode_quiz (VMap kvs) = Some z -> mapM decode_group gs = Some zgs ->
  decode_quiz (VMap (kv_set (KStr "resultGroups") (VList gs) kvs)) = Some (with_groups z zgs).
Proof. put_tac. Qed.

(** A key the schema does not know, such as [title], is ignored. *)
Lemma decode_quiz_put_other kvs z k v :
  decode_quiz (VMap kvs) = Some z ->
  k <> "id" -> k <> "header" -> k <> "type" -> k <> "defaultColumns" ->
  k <> "questions" -> k <> "resultGroups" ->
  decode_quiz (VMap (kv_set (KStr k) v kvs)) = Some z.
Proof. put_tac. Qed.

Lemma decode_question_put_answers kvs q xs ans :
  decode_question (VMap kvs) = Some q -> mapM decode_answer xs = Some ans ->
  decode_question (VMap (kv_set (KStr "multiChoiceAnswers") (VList xs) kvs))
  = Some (map_answers (fun _ => ans) q).
Proof. put_tac. Qed.

Lemma decode_question_put_text kvs q t :
  decode_question (VMap kvs) = Some q ->
  decode_question (VMap (kv_set (KStr "question") (VStr t) kvs))
  = Some (mkQuestion t (question_imageUrl q) (question_more q) (question_answers q)).
Proof. put_tac. Qed.

Lemma decode_question_put_imageUrl kvs q u :
  decode_question (VMap kvs) = Some q ->
  decode_question (VMap (kv_set (KStr "imageUrl") (VStr u) kvs))
  = Some (mkQuestion (question_text q) u (question_more q) (question_answers q)).
Proof. put_tac. Qed.

Lemma decode_question_put_more kvs q m :
  decode_question (VMap kvs) = Some q ->
  decode_question (VMap (kv_set (KStr "more") (VStr m) kvs))
  = Some (mkQuestion (question_text q) (question_imageUrl q) m (question_answers q)).
Proof. put_tac. Qed.

Lemma decode_answer_put_text kvs a t :
  decode_answer (VMap kvs) = Some a ->
  decode_answer (VMap (kv_set (KStr "answer") (VStr t) kvs))
  = Some (mkAnswer t (answer_imageUrl a) (answer_correct a)).
Proof. put_tac. Qed.

Lemma decode_answer_put_imageUrl kvs a u :
  decode_answer (VMap kvs) = Some a ->
  decode_answer (VMap (kv_set (KStr "imageUrl") (VStr u) kvs))
  = Some (mkAnswer (answer_text a) u (answer_correct a)).
Proof. put_tac. Qed.

Lemma decode_answer_put_correct kvs a c :
  decode_answer (VMap kvs) = Some a ->
  decode_answer (VMap (kv_set (KStr "correct") (VBool c) kvs)) = Some (set_answer_correct c a).
Proof. put_tac. Qed.

Lemma decode_group_put_title kvs g t :
  decode_group (VMap kvs) = Some g ->
  decode_group (VMap (kv_set (KStr "title") (VStr t) kvs))
  = Some (mkGroup t (group_share g) (group_minScore g)).
Proof. put_tac. Qed.

Lemma decode_group_put_share kvs g t :
  decode_group (VMap kvs) = Some g ->
  decode_group (VMap (kv_set (KStr "share") (VStr t) kvs))
  = Some (mkGroup (group_title g) t (group_minScore g)).
Proof. put_tac. Qed.

Lemma decode_group_put_minScore kvs g m :
  decode_group (VMap kvs) = Some g ->
  decode_group (VMap (kv_set (KStr "minScore") (VInt m) kvs))
  = Some (mkGroup (group_title g) (group_share g) m).
Proof. put_tac. Qed.

Lemma decode_group_minScore kvs g :
  decode_group (VMap kvs) = Some g -> kv_lookup (KStr "minScore") kvs = Some (VInt (group_minScore g)).
Proof.
  unfold decode_group; simpl. intros H. opt_inv.
  match goal with Hm : field as_int "minScore" _ = Some _ |- _ => apply field_Some in Hm as (v & Hv & Hc) end.
  destruct v as [| | |[]| | |]; simpl in *; congruence.
Qed.

(** ** Refinement, level by level *)

Lemma updateQuiz_implements pre f a :
  quiz_refines pre f a -> implements pre (updateQuiz f) a.
Proof.
  intros Hf s z Hs Hpre. destruct (decode_state_quiz _ _ Hs) as (kvs & qv & -> & Hq & Hz).
  destruct (Hf qv z Hz Hpre) as (qv' & Hfq & Hz').
  unfold updateQuiz, updateState. rewrite (update_present _ _ _ qv), Hfq by done. simpl.
  split; [done|]. unfold decode_state; simpl. by rewrite kv_lookup_kv_set, decide_True.
Qed.

(** The [questions] list of the quiz, changed by [h]. *)
Lemma questions_step qv z h zqs' :
  decode_quiz qv = Some z ->
  (forall qs, mapM decode_question qs = Some (quiz_questions z) ->
     exists qs', h (VList qs) = Ok (VList qs') /\ mapM decode_question qs' = Some zqs') ->
  exists qv', update (KStr "questions") h qv = Ok qv' /\ decode_quiz qv' = Some (with_questions z zqs').
Proof.
  intros Hz Hh. decoded_map Hz.
  destruct (decode_quiz_questions _ _ Hz) as (qs & Hl & Hm).
  destruct (Hh qs Hm) as (qs' & Hh' & Hm').
  rewrite (update_present _ _ _ (VList qs)), Hh' by done. simpl.
  eexists; split; [done|]. by apply decode_quiz_put_questions.
Qed.

Lemma groups_step qv z h zgs' :
  decode_quiz qv = Some z ->
  (forall gs, mapM decode_group gs = Some (quiz_groups z) ->
     exists gs', h (VList gs) = Ok (VList gs') /\ mapM decode_group gs' = Some zgs') ->
  exists qv', update (KStr "resultGroups") h qv = Ok qv' /\ decode_quiz qv' = Some (with_groups z zgs').
Proof.
  intros Hz Hh. decoded_map Hz.
  destruct (decode_quiz_groups _ _ Hz) as (gs & Hl & Hm).
  destruct (Hh gs Hm) as (gs' & Hh' & Hm').
  rewrite (update_present _ _ _ (VList gs)), Hh' by done. simpl.
  eexists; split; [done|]. by apply decode_quiz_put_groups.
Qed.

(** The element [n] of a decoded list, changed by [g]. *)
Lemma update_index_refines {B} (dec : value -> option B) xs ys n y y' g :
  mapM dec xs = Some ys -> ys !! n = Some y ->
  (forall x, dec x = Some y -> exists x', g x = Ok x' /\ dec x' = Some y') ->
  exists xs', update (KIdx n) g (VList xs) = Ok (VList xs') /\ mapM dec xs' = Some (<[n:=y']> ys).
Proof.
  intros Hm Hy Hg. destruct (mapM_lookup_Some_r _ _ _ _ _ Hm Hy) as (x & Hx & Hdx).
  destruct (Hg x Hdx) as (x' & Hgx & Hdx').
  rewrite (update_index_list _ _ _ x), Hgx by done. simpl.
  eexists; split; [done|]. by apply mapM_insert_Some.
Qed.

(** A path [[questions, n]] or [[resultGroups, n]] through an existing
    element is the nested [update] of the list, then of the element. *)
Lemma updateIn_field_index k n g kvs xs x :
  kv_lookup (KStr k) kvs = Some (VList xs) -> xs !! n = Some x ->
  updateIn [KStr k; KIdx n] g (VMap kvs) = update (KStr k) (update (KIdx n) g) (VMap kvs).
Proof.
  intros Hl Hx. apply (updateIn_snoc [KStr k] (KIdx n) g (VMap kvs) (VList xs) x); try done.
  simpl. by rewrite Hl.
Qed.

(** The question [n] of the quiz, changed by [g]. *)
Lemma question_at_step qv z n q g q' :
  decode_quiz qv = Some z -> quiz_questions z !! n = Some q ->
  (forall x, decode_question x = Some q -> exists x', g x = Ok x' /\ decode_question x' = Some q') ->
  exists qv', updateIn [KStr "questions"; KIdx n] g qv = Ok qv' /\
              decode_quiz qv' = Some (with_questions z (<[n:=q']> (quiz_questions z))).
Proof.
  intros Hz Hq Hg. pose proof Hz as Hz0. decoded_map Hz.
  destruct (decode_quiz_questions _ _ Hz) as (qs & Hl & Hm).
  destruct (mapM_lookup_Some_r _ _ _ _ _ Hm Hq) as (x & Hx & _).
  rewrite (updateIn_field_index _ _ _ _ qs x) by done.
  apply questions_step; [done|]. intros qs' Hm'. by eapply update_index_refines.
Qed.

Lemma group_at_step qv z n gr g gr' :
  decode_quiz qv = Some z -> quiz_groups z !! n = Some gr ->
  (forall x, decode_group x = Some gr -> exists x', g x = Ok x' /\ decode_group x' = Some gr') ->
  exists qv', updateIn [KStr "resultGroups"; KIdx n] g qv = Ok qv' /\
              decode_quiz qv' = Some (with_groups z (<[n:=gr']> (quiz_groups z))).
Proof.
  intros Hz Hq Hg. pose proof Hz as Hz0. decoded_map Hz.
  destruct (decode_quiz_groups _ _ Hz) as (gs & Hl & Hm).
  destruct (mapM_lookup_Some_r _ _ _ _ _ Hm Hq) as (x & Hx & _).
  rewrite (updateIn_field_index _ _ _ _ gs x) by done.
  apply groups_step; [done|]. intros gs' Hm'. by eapply update_index_refines.
Qed.

(** The answers of a question, changed by [h]. *)
Lemma answers_step x q h ans' :
  decode_question x = Some q ->
  (forall xs, mapM decode_answer xs = Some (question_answers q) ->
     exists xs', h (VList xs) = Ok (VList xs') /\ mapM decode_answer xs' = Some ans') ->
  exists x', update (KStr "multiChoiceAnswers") h x = Ok x' /\
             decode_question x' = Some (map_answers (fun _ => ans') q).
Proof.
  intros Hq Hh. decoded_map Hq.
  destruct (decode_question_answers _ _ Hq) as (xs & Hl & Hm).
  destruct (Hh xs Hm) as (xs' & Hh' & Hm').
  rewrite (update_present _ _ _ (VList xs)), Hh' by done. simpl.
  eexists; split; [done|]. by apply decode_question_put_answers.
Qed.

(** A [setIn] that ends in a field of question [n] is an [updateIn] of the
    question. *)
Lemma question_setIn qv z n q k w :
  decode_quiz qv = Some z -> quiz_questions z !! n = Some q ->
  setIn [KStr "questions"; KIdx n; KStr k] w qv
  = updateIn [KStr "questions"; KIdx n] (jset (KStr k) w) qv.
Proof.
  intros Hz Hq. pose proof Hz as Hz0. decoded_map Hz.
  destruct (decode_quiz_questions _ _ Hz) as (qs & Hl & Hm).
  destruct (mapM_lookup_Some_r _ _ _ _ _ Hm Hq) as (x & Hx & Hdx). decoded_map Hdx.
  change [KStr "questions"; KIdx n; KStr k] with ([KStr "questions"; KIdx n] ++ [KStr k]).
  apply (setIn_updateIn [KStr "questions"; KIdx n] (KStr k) w _ (VMap kvs0)); try done.
  simpl. by rewrite Hl; simpl; rewrite Hx.
Qed.

Lemma group_setIn qv z n gr k w :
  decode_quiz qv = Some z -> quiz_groups z !! n = Some gr ->
  setIn [KStr "resultGroups"; KIdx n; KStr k] w qv
  = updateIn [KStr "resultGroups"; KIdx n] (jset (KStr k) w) qv.
Proof.
  intros Hz Hq. pose proof Hz as Hz0. decoded_map Hz.
  destruct (decode_quiz_groups _ _ Hz) as (gs & Hl & Hm).
  destruct (mapM_lookup_Some_r _ _ _ _ _ Hm Hq) as (x & Hx & Hdx). decoded_map Hdx.
  change [KStr "resultGroups"; KIdx n; KStr k] with ([KStr "resultGroups"; KIdx n] ++ [KStr k]).
  apply (setIn_updateIn [KStr "resultGroups"; KIdx n] (KStr k) w _ (VMap kvs0)); try done.
  simpl. by rewrite Hl; simpl; rewrite Hx.
Qed.

(** The answers of question [n], changed by [h]. *)
Lemma answers_at_step qv z n q h ans' :
  decode_quiz qv = Some z -> quiz_questions z !! n = Some q ->
  (forall xs, mapM decode_answer xs = Some (question_answers q) ->
     exists xs', h (VList xs) = Ok (VList xs') /\ mapM decode_answer xs' = Some ans') ->
  exists qv', updateIn (answers_path n) h qv = Ok qv' /\
              decode_quiz qv' = Some (map_question n (map_answers (fun _ => ans')) z).
Proof.
  intros Hz Hq Hh. pose proof Hz as Hz0. decoded_map Hz.
  destruct (decode_quiz_questions _ _ Hz) as (qs & Hl & Hm).
  destruct (mapM_lookup_Some_r _ _ _ _ _ Hm Hq) as (x & Hx & Hdx).
  pose proof Hdx as Hdx0. decoded_map Hdx.
  destruct (decode_question_answers _ _ Hdx) as (xs & Hxs & _).
  unfold answers_path.
  change [KStr "questions"; KIdx n; KStr "multiChoiceAnswers"]
    with ([KStr "questions"; KIdx n] ++ [KStr "multiChoiceAnswers"]).
  rewrite (updateIn_snoc [KStr "questions"; KIdx n] _ _ _ (VMap kvs0) (VList xs));
    [|by simpl; rewrite Hl; simpl; rewrite Hx|done|done|done].
  unfold map_question. rewrite (list_alter_lookup _ _ _ q) by done.
  apply (question_at_step _ _ _ q); [done|done|]. intros x' Hx'. by apply answers_step.
Qed.

(** ** Questions *)

Theorem addQuestion_implements : implements (fun _ => True) addQuestion a_addQuestion.
Proof.
  apply updateQuiz_implements. intros qv z Hz _. apply questions_step; [done|].
  intros qs Hm. eexists; split; [done|]. by apply mapM_app_Some.
Qed.

Theorem deleteQuestion_implements n : implements (fun _ => True) (deleteQuestion n) (a_deleteQuestion n).
Proof.
  apply updateQuiz_implements. intros qv z Hz _. apply questions_step; [done|].
  intros qs Hm. exists (list_remove n qs). split; [done|].
  rewrite list_remove_delete. by apply mapM_delete_Some.
Qed.

(** Every handler that sets one field of question [n]. *)
Lemma question_field_refines n (g : value -> res value) (f : question -> question) :
  (forall kvs q, decode_question (VMap kvs) = Some q ->
     exists x', g (VMap kvs) = Ok x' /\ decode_question x' = Some (f q)) ->
  quiz_refines (fun z => n < length (quiz_questions z)) (updateIn [KStr "questions"; KIdx n] g)
    (map_question n f).
Proof.
  intros Hg qv z Hz Hn. destruct (lookup_lt_is_Some_2 _ _ Hn) as [q Hq].
  unfold map_question. rewrite (list_alter_lookup _ _ _ q) by done.
  apply (question_at_step _ _ _ q); [done|done|]. intros x Hx. decoded_map Hx. by apply Hg.
Qed.

Theorem setQuestionText_implements n t :
  implements (fun z => n < length (quiz_questions z)) (setQuestionText n t) (a_setQuestionText n t).
Proof.
  apply updateQuiz_implements, question_field_refines.
  intros kvs q Hq. eexists; split; [done|]. by apply decode_question_put_text.
Qed.

Theorem setQuestionImageUrl_implements n u :
  implements (fun z => n < length (quiz_questions z)) (setQuestionImageUrl n u)
    (a_setQuestionImageUrl n u).
Proof.
  apply updateQuiz_implements. intros qv z Hz Hn. destruct (lookup_lt_is_Some_2 _ _ Hn) as [q Hq].
  rewrite (question_setIn _ _ _ q) by done.
  apply (question_field_refines n (jset (KStr "imageUrl") (VStr u))); [|done|done].
  put_field decode_question_put_imageUrl.
Qed.

Theorem setRevealText_implements n t :
  implements (fun z => n < length (quiz_questions z)) (setRevealText n t) (a_setRevealText n t).
Proof.
  apply updateQuiz_implements. intros qv z Hz Hn. destruct (lookup_lt_is_Some_2 _ _ Hn) as [q Hq].
  rewrite (question_setIn _ _ _ q) by done.
  apply (question_field_refines n (jset (KStr "more") (VStr t))); [|done|done].
  put_field decode_question_put_more.
Qed.

Theorem reorder_implements from to :
  implements (fun _ => True) (reorder from to) (a_reorder from to).
Proof.
  apply updateQuiz_implements. intros qv z Hz _. apply questions_step; [done|].
  intros qs Hm. eexists; split; [done|]. by apply mapM_list_move.
Qed.

(** [onChangeTitle] writes the key [title], which the schema does not
    have: the decoded quiz, its [header.titleText] included, is unchanged. *)
Theorem onChangeTitle_implements t : implements (fun _ => True) (onChangeTitle t) (fun z => z).
Proof.
  apply updateQuiz_implements. intros qv z Hz _. pose proof Hz as Hz0. decoded_map Hz.
  eexists; split; [done|]. by apply decode_quiz_put_other.
Qed.

(** ** Answers *)

(** Every handler that rewrites the answers of question [n]. *)
Lemma answers_refines n h (f : list answer -> list answer) :
  (forall xs ans, mapM decode_answer xs = Some ans ->
     exists xs', h (VList xs) = Ok (VList xs') /\ mapM decode_answer xs' = Some (f ans)) ->
  quiz_refines (fun z => n < length (quiz_questions z)) (updateIn (answers_path n) h)
    (map_question n (map_answers f)).
Proof.
  intros Hh qv z Hz Hn. destruct (lookup_lt_is_Some_2 _ _ Hn) as [q Hq].
  pose proof (answers_at_step qv z n q h (f (question_answers q)) Hz Hq
    (fun xs Hxs => Hh xs _ Hxs)) as (qv' & H1 & H2).
  exists qv'. split; [done|]. rewrite H2. unfold map_question.
  rewrite !(list_alter_lookup _ _ _ q) by done. done.
Qed.


Lemma answers_refines_when n (P : list answer -> Prop) (pre : quiz -> Prop) h (f : list answer -> list answer) :
  (forall z, pre z -> exists q, quiz_questions z !! n = Some q /\ P (question_answers q)) ->
  (forall xs ans, P ans -> mapM decode_answer xs = Some ans ->
     exists xs', h (VList xs) = Ok (VList xs') /\ mapM decode_answer xs' = Some (f ans)) ->
  quiz_refines pre (updateIn (answers_path n) h) (map_question n (map_answers f)).
Proof.
  intros Hpre Hh qv z Hz Hp. destruct (Hpre z Hp) as (q & Hq & HP).
  pose proof (answers_at_step qv z n q h (f (question_answers q)) Hz Hq
    (fun xs Hxs => Hh xs _ HP Hxs)) as (qv' & H1 & H2).
  exists qv'. split; [done|]. rewrite H2. unfold map_question.
  rewrite !(list_alter_lookup _ _ _ q) by done. done.
Qed.

(** A [setIn] that ends in a field of answer [i] of question [n] is an
    [update] of that answer inside the answers. *)
Lemma answer_setIn qv z n q i a k w :
  decode_quiz qv = Some z -> quiz_questions z !! n = Some q -> question_answers q !! i = Some a ->
  setIn (answers_path n ++ [KIdx i; KStr k]) w qv
  = updateIn (answers_path n) (update (KIdx i) (jset (KStr k) w)) qv.
Proof.
  intros Hz Hq Ha. pose proof Hz as Hz0. decoded_map Hz.
  destruct (decode_quiz_questions _ _ Hz) as (qs & Hl & Hm).
  destruct (mapM_lookup_Some_r _ _ _ _ _ Hm Hq) as (x & Hx & Hdx). decoded_map Hdx.
  destruct (decode_question_answers _ _ Hdx) as (xs & Hxs & Hma).
  destruct (mapM_lookup_Some_r _ _ _ _ _ Hma Ha) as (y & Hy & Hdy). decoded_map Hdy.
  change (answers_path n ++ [KIdx i; KStr k]) with ((answers_path n ++ [KIdx i]) ++ [KStr k]).
  rewrite (setIn_updateIn _ _ _ _ (VMap kvs1)); [|by simpl; rewrite Hl; simpl; rewrite Hx; simpl;
    rewrite Hxs; simpl; rewrite Hy|done|done].
  apply (updateIn_snoc _ _ _ _ (VList xs) (VMap kvs1)); [|done|done|done].
  by simpl; rewrite Hl; simpl; rewrite Hx; simpl; rewrite Hxs.
Qed.

Lemma decode_answer_correct kvs a :
  decode_answer (VMap kvs) = Some a -> kv_lookup (KStr "correct") kvs = Some (VBool (answer_correct a)).
Proof.
  unfold decode_answer; simpl. intros H. opt_inv.
  match goal with Hm : field as_bool "correct" _ = Some _ |- _ => apply field_Some in Hm as (v & Hv & Hc) end.
  destruct v; simpl in *; congruence.
Qed.

(** [some(answers.toJS(), answer => answer.correct)] on decoded answers. *)
Lemma lodash_some_correct xs ans :
  mapM decode_answer xs = Some ans ->
  lodash_some (fun answer => c <- get_prop answer "correct" ;; Ok (truthy c)) xs
  = Ok (existsb answer_correct ans).
Proof.
  rewrite mapM_Some. induction 1 as [|x a xs ans Hxa _ IH]; [done|]. simpl.
  decoded_map Hxa. simpl. rewrite (decode_answer_correct _ _ Hxa). simpl.
  by destruct (answer_correct a).
Qed.

Lemma ensureCorrectExists_refines xs ans :
  mapM decode_answer xs = Some ans ->
  exists xs', ensureCorrectExists (VList xs) = Ok (VList xs') /\
              mapM decode_answer xs' = Some (ensure_correct ans).
Proof.
  intros Hm. pose proof Hm as Hm'. rewrite mapM_Some in Hm'.
  destruct Hm' as [|x a xs' ans' Hxa Hrest]; [by exists []|].
  unfold ensureCorrectExists. cbn [jsize res_bind toJS_values length].
  rewrite bool_decide_eq_false_2 by done. cbn [res_bind].
  rewrite (lodash_some_correct _ _ Hm). cbn [res_bind].
  unfold ensure_correct. rewrite bool_decide_eq_false_2 by done. cbn [existsb orb].
  destruct (answer_correct a || existsb answer_correct ans') eqn:Hc; [by eexists|].
  decoded_map Hxa. rewrite (update_index_list _ _ _ (VMap kvs)) by done. simpl.
  eexists; split; [done|]. simpl. rewrite (decode_answer_put_correct _ a) by done.
  apply mapM_Some in Hrest. by rewrite Hrest.
Qed.

Theorem addAnswer_implements n :
  implements (fun z => n < length (quiz_questions z)) (addAnswer n) (a_addAnswer n).
Proof.
  apply updateQuiz_implements, question_field_refines. intros kvs q Hq.
  apply answers_step; [done|]. intros xs Hm. eexists; split; [done|].
  apply mapM_app_Some; [done|]. simpl. do 2 f_equal.
  apply length_mapM in Hm. destruct xs, (question_answers q); simpl in *; done.
Qed.

Theorem removeAnswer_implements n i :
  implements (fun z => n < length (quiz_questions z)) (removeAnswer n i) (a_removeAnswer n i).
Proof.
  apply updateQuiz_implements, (answers_refines_when n (fun _ => True)).
  { intros z Hn. destruct (lookup_lt_is_Some_2 _ _ Hn) as [q Hq]. by exists q. }
  intros xs ans _ Hm. simpl. rewrite list_remove_delete. simpl.
  apply ensureCorrectExists_refines. by apply mapM_delete_Some.
Qed.

(** Every handler that writes one field of answer [i] of question [n]. *)
Lemma answer_field_refines n i k w (f : answer -> answer) :
  (forall kvs a, decode_answer (VMap kvs) = Some a -> decode_answer (coll_set (VMap kvs) (KStr k) w) = Some (f a)) ->
  quiz_refines (answer_exists n i) (fun quiz => setIn (answers_path n ++ [KIdx i; KStr k]) w quiz)
    (map_question n (map_answers (alter f i))).
Proof.
  intros Hf qv z Hz Hpre. destruct Hpre as (q & Hq & Hi).
  destruct (lookup_lt_is_Some_2 _ _ Hi) as [a Ha].
  rewrite (answer_setIn _ _ _ q _ a) by done.
  apply (answers_refines_when n (fun ans => i < length ans) (answer_exists n i)); [| |done|by exists q].
  { intros z' (q' & Hq' & Hi'). eauto. }
  intros xs ans Hlen Hm. destruct (lookup_lt_is_Some_2 _ _ Hlen) as [a' Ha'].
  rewrite (list_alter_lookup _ _ _ a') by done.
  eapply update_index_refines; [done|done|]. intros x Hx. decoded_map Hx.
  eexists; split; [done|]. by apply Hf.
Qed.

Theorem setAnswerText_implements n i t :
  implements (answer_exists n i) (setAnswerText n i t) (a_setAnswerText n i t).
Proof.
  apply updateQuiz_implements, answer_field_refines. intros kvs a Ha. by apply decode_answer_put_text.
Qed.

Theorem setAnswerImageUrl_implements n i u :
  implements (answer_exists n i) (setAnswerImageUrl n i u) (a_setAnswerImageUrl n i u).
Proof.
  apply updateQuiz_implements, answer_field_refines. intros kvs a Ha. by apply decode_answer_put_imageUrl.
Qed.

Theorem reorderAnswers_implements n from to :
  implements (fun z => n < length (quiz_questions z)) (reorderAnswers n from to) (a_reorderAnswers n from to).
Proof.
  apply updateQuiz_implements, (answers_refines_when n (fun _ => True)).
  { intros z Hn. destruct (lookup_lt_is_Some_2 _ _ Hn) as [q Hq]. by exists q. }
  intros xs ans _ Hm. eexists; split; [done|]. by apply mapM_list_move.
Qed.

(** [answers.map((answer, i) => answer.set('correct', i === answerNumber))]
    on decoded answers, from index [k] on. *)
Lemma jmap_correct_from k an xs ans :
  mapM decode_answer xs = Some ans ->
  exists ys,
    res_mapM (fun ix => jset (KStr "correct") (VBool (bool_decide (KIdx ix.1 = KIdx an))) ix.2)
      (zip (seq k (length xs)) xs) = Ok ys /\
    mapM decode_answer ys = Some (imap (fun j a => set_answer_correct (bool_decide (k + j = an)) a) ans).
Proof.
  rewrite mapM_Some. intros Hm. revert k.
  induction Hm as [|x a xs ans Hxa _ IH]; intros k; [by exists []|].
  destruct (IH (S k)) as (ys & Hys & Hdys). decoded_map Hxa.
  cbn [length seq zip res_mapM fst snd jset is_collection res_bind]. rewrite Hys.
  eexists; split; [done|]. simpl.
  rewrite (decode_answer_put_correct _ a) by done. simpl. rewrite Hdys. simpl.
  f_equal. f_equal.
  - f_equal. apply bool_decide_ext. split; [intros [= ->]; lia|intros <-; f_equal; lia].
  - apply imap_ext. intros j b _. simpl. do 2 f_equal. apply bool_decide_ext. lia.
Qed.

Theorem setAnswerCorrect_implements n i :
  implements (fun z => n < length (quiz_questions z)) (setAnswerCorrect n i) (a_setAnswerCorrect n i).
Proof.
  apply updateQuiz_implements, (answers_refines_when n (fun _ => True)).
  { intros z Hn. destruct (lookup_lt_is_Some_2 _ _ Hn) as [q Hq]. by exists q. }
  intros xs ans _ Hm. destruct (jmap_correct_from 0 i xs ans Hm) as (ys & Hys & Hdys).
  exists ys. unfold jmap. rewrite Hys. split; [done|]. by rewrite Hdys.
Qed.

(** ** Result groups *)

Lemma minScores_of_groups gs zgs :
  mapM decode_group gs = Some zgs ->
  res_mapM (fun g => get_prop g "minScore") gs = Ok ((fun g => VInt (group_minScore g)) <$> zgs) /\
  res_mapM minScoreKey gs = Ok ((fun g => Int (- group_minScore g)%Z) <$> zgs).
Proof.
  rewrite mapM_Some. induction 1 as [|x g xs gs Hxg _ [IH1 IH2]]; [done|].
  decoded_map Hxg. pose proof (decode_group_minScore _ _ Hxg) as Hm.
  cbn [res_mapM]. rewrite IH1, IH2. unfold minScoreKey, jget. simpl. by rewrite Hm.
Qed.

Lemma newGroupScore_groups gs zgs :
  mapM decode_group gs = Some zgs -> newGroupScore (VList gs) = Ok (VInt (new_score zgs)).
Proof.
  intros Hm. destruct (minScores_of_groups _ _ Hm) as [Hs _].
  pose proof Hm as Hm'. rewrite mapM_Some in Hm'.
  destruct Hm' as [|x g xs zgs' Hxg Hrest]; [done|].
  unfold newGroupScore. cbn [jsize res_bind toJS_values length]. rewrite Hs. cbn [res_bind].
  replace ((fun g => VInt (group_minScore g)) <$> g :: zgs')
    with ((fun z => VInt z) <$> group_minScore g :: (group_minScore <$> zgs'))
    by (simpl; f_equal; by rewrite <-list_fmap_compose).
  by rewrite lodash_max_ints.
Qed.

Theorem addGroup_implements : implements (fun _ => True) addGroup a_addGroup.
Proof.
  apply updateQuiz_implements. intros qv z Hz _. apply groups_step; [done|].
  intros gs Hm. rewrite (newGroupScore_groups _ _ Hm). eexists; split; [done|].
  simpl. by rewrite Hm.
Qed.

Theorem removeGroup_implements i : implements (fun _ => True) (removeGroup i) (a_removeGroup i).
Proof.
  apply updateQuiz_implements. intros qv z Hz _. apply groups_step; [done|].
  intros gs Hm. exists (list_remove i gs). split; [done|].
  rewrite list_remove_delete. by apply mapM_delete_Some.
Qed.

(** Every handler that writes one field of group [i]. *)
Lemma group_field_refines i k w (f : group -> group) :
  (forall kvs g, decode_group (VMap kvs) = Some g -> decode_group (coll_set (VMap kvs) (KStr k) w) = Some (f g)) ->
  quiz_refines (fun z => i < length (quiz_groups z))
    (fun quiz => setIn [KStr "resultGroups"; KIdx i; KStr k] w quiz) (map_group i f).
Proof.
  intros Hf qv z Hz Hi. destruct (lookup_lt_is_Some_2 _ _ Hi) as [g Hg].
  rewrite (group_setIn _ _ _ g) by done.
  unfold map_group. rewrite (list_alter_lookup _ _ _ g) by done.
  apply (group_at_step _ _ _ g); [done|done|]. intros x Hx. decoded_map Hx.
  eexists; split; [done|]. by apply Hf.
Qed.

Theorem setGroupText_implements i t :
  implements (fun z => i < length (quiz_groups z)) (setGroupText i t) (a_setGroupText i t).
Proof.
  apply updateQuiz_implements, group_field_refines. intros kvs g Hg. by apply decode_group_put_title.
Qed.

Theorem setGroupShare_implements i t :
  implements (fun z => i < length (quiz_groups z)) (setGroupShare i t) (a_setGroupShare i t).
Proof.
  apply updateQuiz_implements, group_field_refines. intros kvs g Hg. by apply decode_group_put_share.
Qed.

(** [groups.sort(on(group => -group.get('minScore')))] on decoded groups
    is the stable sort by descending score of the typed groups. *)
Lemma jsort_groups gs zgs :
  mapM decode_group gs = Some zgs ->
  exists gs', jsort minScoreKey (VList gs) = Ok (VList gs') /\
              mapM decode_group gs' = Some (sort_groups zgs).
Proof.
  intros Hm. destruct (minScores_of_groups _ _ Hm) as [_ Hk].
  unfold jsort, sort_keyed. case_decide as Hlen.
  - exists gs. split; [done|]. rewrite Hm. f_equal.
    apply length_mapM in Hm. destruct zgs as [|g1 [|g2 zgs]]; simpl in *; [done|done|lia].
  - rewrite Hk. simpl. eexists; split; [done|].
    apply mapM_Some in Hm.
    pose proof (Forall2_zip_keys _ (fun g => Int (- group_minScore g)%Z) _ _ Hm) as Hz.
    apply (sort_by_Forall2 num_ltb) in Hz. apply Forall2_same_key_snd in Hz.
    apply mapM_Some. refine (eq_rect _ (Forall2 _ _) Hz _ _).
    unfold sort_groups.
    replace ((fun y => (Int (- group_minScore y)%Z, y)) <$> zgs)
      with (prod_map Int id <$> ((fun g => (- group_minScore g, g)%Z) <$> zgs))
      by (rewrite <-list_fmap_compose; done).
    by rewrite (sort_by_map_key Z.ltb num_ltb Int num_ltb_Int), fmap_prod_map_snd.
Qed.

Theorem reSortGroups_implements : implements (fun _ => True) reSortGroups a_reSortGroups.
Proof.
  apply updateQuiz_implements. intros qv z Hz _. apply groups_step; [done|].
  intros gs Hm. by apply jsort_groups.
Qed.

(** Two handler statements in sequence. *)
Lemma implements_seq (pre : quiz -> Prop) h1 h2 a1 a2 :
  implements pre h1 a1 -> implements (fun _ => True) h2 a2 ->
  implements pre (fun s => seq_run (h1 s) h2) (fun z => a2 (a1 z)).
Proof.
  intros H1 H2 s z Hs Hpre. destruct (H1 s z Hs Hpre) as [Ht Hd].
  unfold seq_run. rewrite Ht. by apply H2.
Qed.

(** The score update of group [i] by [op], before the re-sort. *)
Lemma score_update_refines i (op : value -> value) (d : Z) :
  (forall m, op (VInt m) = VInt (m + d)%Z) ->
  implements (fun z => i < length (quiz_groups z))
    (updateQuiz (fun quiz => updateIn (score_path i) (fun score => Ok (op score)) quiz))
    (map_group i (fun g => mkGroup (group_title g) (group_share g) (group_minScore g + d)%Z)).
Proof.
  intros Hop. apply updateQuiz_implements. intros qv z Hz Hi.
  destruct (lookup_lt_is_Some_2 _ _ Hi) as [g Hg].
  pose proof Hz as Hz0. decoded_map Hz.
  destruct (decode_quiz_groups _ _ Hz) as (gs & Hl & Hm).
  destruct (mapM_lookup_Some_r _ _ _ _ _ Hm Hg) as (x & Hx & Hdx). decoded_map Hdx.
  pose proof (decode_group_minScore _ _ Hdx) as Hms.
  unfold score_path.
  change [KStr "resultGroups"; KIdx i; KStr "minScore"] with ([KStr "resultGroups"; KIdx i] ++ [KStr "minScore"]).
  rewrite (updateIn_snoc _ _ _ _ (VMap kvs0) (VInt (group_minScore g)));
    [|by simpl; rewrite Hl; simpl; rewrite Hx|done|done|done].
  unfold map_group. rewrite (list_alter_lookup _ _ _ g) by done.
  apply (group_at_step _ _ _ g); [done|done|]. intros x' Hx'. decoded_map Hx'.
  rewrite (update_present _ _ _ (VInt (group_minScore g))); [|by apply decode_group_minScore|done].
  rewrite Hop. eexists; split; [done|]. by apply decode_group_put_minScore.
Qed.

Theorem increaseGroupMinScore_implements i :
  implements (fun z => i < length (quiz_groups z)) (increaseGroupMinScore i) (a_changeGroupMinScore i 1).
Proof.
  apply (implements_seq _ _ reSortGroups _ a_reSortGroups).
  - apply score_update_refines. intros m. apply js_add1_int.
  - apply reSortGroups_implements.
Qed.

Theorem decreaseGroupMinScore_implements i :
  implements (fun z => i < length (quiz_groups z)) (decreaseGroupMinScore i) (a_changeGroupMinScore i (-1)%Z).
Proof.
  apply (implements_seq _ _ reSortGroups _ a_reSortGroups).
  - apply score_update_refines. intros m. by rewrite js_sub1_int.
  - apply reSortGroups_implements.
Qed.

(** ** Shuffling the answers *)

Lemma updateQuiz_rel f s z (R : quiz -> Prop) :
  decode_state s = Some z ->
  (forall qv, decode_quiz qv = Some z -> exists qv' z', f qv = Ok qv' /\ decode_quiz qv' = Some z' /\ R z') ->
  thrown (updateQuiz f s) = None /\ exists z', decode_state (after (updateQuiz f s)) = Some z' /\ R z'.
Proof.
  intros Hs Hf. destruct (decode_state_quiz _ _ Hs) as (kvs & qv & -> & Hq & Hz).
  destruct (Hf qv Hz) as (qv' & z' & Hfq & Hz' & HR).
  unfold updateQuiz, updateState. rewrite (update_present _ _ _ qv), Hfq by done. simpl.
  split; [done|]. exists z'. unfold decode_state; simpl. by rewrite kv_lookup_kv_set, decide_True.
Qed.

Section Shuffle.
  (** What lodash [shuffle] returned for each question: a permutation. *)
  Variable rand : key -> list value -> list value.
  Hypothesis rand_perm : forall k xs, rand k xs ≡ₚ xs.

Lemma shuffle_one_step x q i :
    decode_question x = Some q ->
    exists x' q', shuffle_one rand x i = Ok x' /\ decode_question x' = Some q' /\ shuffled_question q q'.
  Proof.
    intros Hq. decoded_map Hq. destruct (decode_question_answers _ _ Hq) as (xs & Hl & Hm).
    apply mapM_Some in Hm as Hm'.
    destruct (Permutation_Forall2 (symmetry (rand_perm i xs)) Hm') as (ans' & Hp & Hm'').
    unfold shuffle_one. rewrite (update_present _ _ _ (VList xs)) by done. simpl.
    do 2 eexists; split; [done|]. split.
    - apply decode_question_put_answers; [done|]. by apply mapM_Some.
    - exists ans'. split; [by symmetry|done].
  Qed.

Lemma jmap_shuffle_from k qs zqs :
    mapM decode_question qs = Some zqs ->
    exists ys zqs', res_mapM (fun ix => shuffle_one rand ix.2 (KIdx ix.1)) (zip (seq k (length qs)) qs) = Ok ys /\
      mapM decode_question ys = Some zqs' /\ Forall2 shuffled_question zqs zqs'.
  Proof.
    rewrite mapM_Some. intros Hm. revert k.
    induction Hm as [|x q xs zqs Hxq _ IH]; intros k; [by exists [], []|].
    destruct (IH (S k)) as (ys & zqs' & Hys & Hdys & Hsh).
    destruct (shuffle_one_step x q (KIdx k) Hxq) as (x' & q' & Hx' & Hdx' & Hq').
    exists (x' :: ys), (q' :: zqs'). cbn [length seq zip res_mapM fst snd].
    rewrite Hx'. cbn [res_bind]. rewrite Hys. split; [done|].
    split; [simpl; by rewrite Hdx', Hdys|by constructor].
  Qed.

  (** [shuffleAnswers] does not throw, keeps everything but the order of
      each question's answers, and permutes those. *)
Theorem shuffleAnswers_refines s z :
    decode_state s = Some z ->
    thrown (shuffleAnswers rand s) = None /\
    exists z', decode_state (after (shuffleAnswers rand s)) = Some z' /\ a_shuffled z z'.
  Proof.
    intros Hs. apply (updateQuiz_rel _ _ z); [done|]. intros qv Hz. pose proof Hz as Hz0. decoded_map Hz.
    destruct (decode_quiz_questions _ _ Hz) as (qs & Hl & Hm).
    destruct (jmap_shuffle_from 0 qs _ Hm) as (ys & zqs' & Hys & Hdys & Hsh).
    rewrite (update_present _ _ _ (VList qs)) by done.
    match goal with |- context [jmap ?g (VList qs)] =>
      assert (jmap g (VList qs) = Ok (VList ys)) as ->;
      [change (res_bind (res_mapM (fun ix => shuffle_one rand ix.2 (KIdx ix.1)) (zip (seq 0 (length qs)) qs))
                 (fun ys => Ok (VList ys)) = Ok (VList ys)); by rewrite Hys|] end.
    simpl.
    do 2 eexists; split; [done|]. split; [by apply decode_quiz_put_questions|].
    by exists zqs'.
  Qed.
End Shuffle.

