(* ===== verification/Invariants.v ===== *)
(** Properties of the abstract editor of [Spec]: the result groups are
    kept sorted by descending [minScore], the re-sort is a stable
    permutation, and the new group's score is one more than the greatest; the answers of a question keep exactly one
    correct answer under every answer operation.  With [Refinement], these
    are properties of the handlers of src/static/js/QuizBuilder.jsx. *)

From S2P Require Import Prelude Sort Utils Schema Spec.
From Stdlib Require Import Sorted.

(** ** Sorting the groups *)

Definition group_keyed (g : group) : Z * group := ((- group_minScore g)%Z, g).

Definition count_correct (ans : list answer) : nat := length (filter answer_correct ans).

Lemma Zltb_asym a b : Z.ltb a b = true -> Z.ltb b a = false.
Proof. rewrite Z.ltb_lt, Z.ltb_ge. lia. Qed.

(** A keyed list in order, whose keys are the negated scores, has its
    groups in descending order. *)
Lemma keyed_sorted_groups (l : list (Z * group)) :
  Forall (fun p => p.1 = (- group_minScore p.2)%Z) l -> Sorted (in_order Z.ltb) l ->
  groups_sorted l.*2 = true.
Proof.
  induction l as [|p l IH]; intros Hk Hs; [done|].
  apply Sorted_inv in Hs as [Hs Hhd]. inversion Hk as [|? ? Hp Hk']; subst.
  destruct l as [|p' l]; [done|]. simpl in *.
  inversion Hhd as [|? ? Hio]; subst. unfold in_order in Hio.
  inversion Hk' as [|? ? Hp' _]; subst.
  apply andb_true_intro; split; [|by apply IH].
  apply bool_decide_eq_true_2. rewrite Hp, Hp', Z.ltb_ge in Hio. lia.
Qed.

Lemma groups_sorted_keyed gs : groups_sorted gs = true -> Sorted (in_order Z.ltb) (group_keyed <$> gs).
Proof.
  induction gs as [|g gs IH]; intros Hs; simpl; [constructor|].
  destruct gs as [|g' gs]; [by repeat constructor|].
  simpl in Hs. apply andb_prop in Hs as [Hle Hs]. apply bool_decide_eq_true_1 in Hle.
  constructor; [by apply IH|]. constructor. unfold in_order; simpl. apply Z.ltb_ge. lia.
Qed.

(** After a re-sort, the groups are in descending order of [minScore]. *)
Theorem sort_groups_sorted gs : groups_sorted (sort_groups gs) = true.
Proof.
  unfold sort_groups. apply keyed_sorted_groups; [|apply sort_by_sorted, Zltb_asym].
  rewrite (sort_by_perm Z.ltb). apply Forall_fmap, Forall_true. done.
Qed.

(** A re-sort only reorders the groups. *)
Lemma keyed_snd gs : (group_keyed <$> gs).*2 = gs.
Proof. induction gs as [|g gs IH]; simpl; [done|]. f_equal. exact IH. Qed.

Theorem sort_groups_perm gs : sort_groups gs ≡ₚ gs.
Proof.
  unfold sort_groups. rewrite (sort_by_perm Z.ltb). change ((group_keyed <$> gs).*2 ≡ₚ gs). by rewrite keyed_snd.
Qed.

(** Re-sorting groups that are in order changes nothing. *)
Lemma sort_groups_id gs : groups_sorted gs = true -> sort_groups gs = gs.
Proof.
  intros Hs. unfold sort_groups.
  change ((fun g => ((- group_minScore g)%Z, g)) <$> gs) with (group_keyed <$> gs).
  rewrite sort_by_sorted_id; [apply keyed_snd|by apply groups_sorted_keyed].
Qed.

Lemma filter_keyed_snd m (l : list (Z * group)) :
  Forall (fun p => p.1 = (- group_minScore p.2)%Z) l ->
  filter (fun g => group_minScore g = m) l.*2 = (filter (fun p => p.1 = (- m)%Z) l).*2.
Proof.
  induction 1 as [|p l Hp _ IH]; [done|]. simpl. rewrite !filter_cons.
  do 2 case_decide; simpl; try (f_equal; exact IH); lia.
Qed.

Lemma group_keyed_keys (gs : list group) :
  Forall (fun p => p.1 = (- group_minScore p.2)%Z) (group_keyed <$> gs).
Proof. apply Forall_fmap, Forall_true. done. Qed.

(** The re-sort is stable: the groups of one score keep their relative
    order. *)
Theorem sort_groups_stable m gs :
  filter (fun g => group_minScore g = m) (sort_groups gs) = filter (fun g => group_minScore g = m) gs.
Proof.
  unfold sort_groups. change ((fun g => ((- group_minScore g)%Z, g)) <$> gs) with (group_keyed <$> gs).
  rewrite filter_keyed_snd.
  - rewrite sort_by_filter_key by apply Z.ltb_irrefl.
    rewrite <- filter_keyed_snd by apply group_keyed_keys. by rewrite keyed_snd.
  - rewrite (sort_by_perm Z.ltb). apply group_keyed_keys.
Qed.

(** ** The score of a new group *)

Lemma foldl_max_bound (m : Z) ms : (m <= foldl Z.max m ms)%Z /\ Forall (fun x => x <= foldl Z.max m ms)%Z ms.
Proof.
  revert m; induction ms as [|x ms IH]; intros m; simpl; [split; [lia|done]|].
  destruct (IH (Z.max m x)) as [H1 H2]. split; [lia|]. constructor; [lia|done].
Qed.

Lemma foldl_max_elem (m : Z) ms : foldl Z.max m ms ∈ m :: ms.
Proof.
  revert m; induction ms as [|x ms IH]; intros m; simpl; [set_solver|].
  pose proof (IH (Z.max m x)) as Hm. apply elem_of_cons in Hm as [Hm|Hm]; [|set_solver].
  rewrite Hm. destruct (Z.max_spec m x) as [[_ ->]|[_ ->]]; set_solver.
Qed.

(** [addGroup] gives the new group a score one more than the greatest
    score, and 0 when there is no group. *)
Theorem new_score_spec gs :
  (gs = [] -> new_score gs = 0%Z) /\
  (Forall (fun g => group_minScore g < new_score gs)%Z gs) /\
  (gs <> [] -> exists g, g ∈ gs /\ new_score gs = (group_minScore g + 1)%Z).
Proof.
  destruct gs as [|g gs]; [split; [done|split; [constructor|by intros ?]]|].
  simpl. destruct (foldl_max_bound (group_minScore g) (group_minScore <$> gs)) as [H1 H2].
  split; [done|split].
  - constructor; [lia|]. apply Forall_forall. intros g' Hg'.
    assert (group_minScore g' ∈ group_minScore <$> gs) as Hin by (by apply list_elem_of_fmap_2).
    rewrite Forall_forall in H2. specialize (H2 _ Hin). simpl in *. lia.
  - intros _. pose proof (foldl_max_elem (group_minScore g) (group_minScore <$> gs)) as Hm.
    apply elem_of_cons in Hm as [Hm|Hm].
    + exists g. split; [set_solver|]. by rewrite Hm.
    + apply list_elem_of_fmap in Hm as (g' & -> & Hg'). exists g'. split; [set_solver|]. done.
Qed.

(** Putting the new group first keeps the groups in order. *)
Theorem addGroup_sorted gs : groups_sorted gs = true ->
  groups_sorted (mkGroup "" "" (new_score gs) :: gs) = true.
Proof.
  intros Hs. destruct gs as [|g gs]; [done|]. cbn [groups_sorted].
  apply andb_true_intro; split; [|done]. apply bool_decide_eq_true_2.
  destruct (new_score_spec (g :: gs)) as (_ & Hlt & _). inversion Hlt; subst. simpl in *. lia.
Qed.

(** ** Exactly one correct answer *)

Lemma one_correct_spec ans : one_correct ans = true <-> ans = [] \/ count_correct ans = 1.
Proof. unfold one_correct, count_correct. rewrite orb_true_iff, !bool_decide_eq_true. done. Qed.

Lemma count_correct_cons a ans :
  count_correct (a :: ans) = (if answer_correct a then 1 else 0) + count_correct ans.
Proof. unfold count_correct. rewrite filter_cons. by destruct (answer_correct a). Qed.

Lemma count_correct_app l1 l2 : count_correct (l1 ++ l2) = count_correct l1 + count_correct l2.
Proof. unfold count_correct. by rewrite filter_app, length_app. Qed.

(** Reordering answers keeps the count of correct ones: [count_correct]
    respects permutation, so [rewrite] works under it. *)
#[export] Instance count_correct_perm : Proper ((≡ₚ) ==> (=)) count_correct.
Proof. intros l1 l2 Hp. unfold count_correct. by rewrite Hp. Qed.

Lemma existsb_count ans : existsb answer_correct ans = true <-> 1 <= count_correct ans.
Proof.
  induction ans as [|a ans IH]; simpl; [unfold count_correct; simpl; split; [done|lia]|].
  rewrite count_correct_cons, orb_true_iff, IH. destruct (answer_correct a); split; (intros [?|?] || intros ?); try lia; auto.
Qed.

Lemma count_correct_delete ans i : count_correct (delete i ans) <= count_correct ans.
Proof.
  revert i; induction ans as [|a ans IH]; intros [|i]; simpl; [lia|lia| |].
  - rewrite count_correct_cons. lia.
  - rewrite !count_correct_cons. specialize (IH i). lia.
Qed.

#[export] Hint Rewrite count_correct_cons count_correct_app : quiz_rw.

(** ... and so whether exactly one is correct. *)
#[export] Instance one_correct_perm : Proper ((≡ₚ) ==> (=)) one_correct.
Proof.
  intros l1 l2 Hp. apply Bool.eq_iff_eq_true. rewrite !one_correct_spec, (count_correct_perm l1 l2 Hp).
  split; intros [->|?]; auto; left; [by apply Permutation_nil_r|by apply Permutation_nil].
Qed.

(** [addAnswer]: the first answer is correct, later ones are not. *)
Theorem addAnswer_one_correct ans :
  one_correct ans = true -> one_correct (ans ++ [mkAnswer "" "" (bool_decide (ans = []))]) = true.
Proof.
  rewrite !one_correct_spec. intros [->|Hc]; right; [done|].
  rewrite count_correct_app, count_correct_cons. simpl.
  destruct ans; [done|]. rewrite bool_decide_eq_false_2 by done. unfold count_correct in *. simpl in *. lia.
Qed.

Lemma count_correct_imap k i ans :
  count_correct (imap (fun j a => set_answer_correct (bool_decide (k + j = i)) a) ans)
  = if bool_decide (k <= i < k + length ans) then 1 else 0.
Proof.
  revert k; induction ans as [|a ans IH]; intros k; simpl.
  - unfold count_correct; simpl. case_bool_decide; [lia|done].
  - rewrite count_correct_cons. simpl.
    rewrite (imap_ext _ (fun j a => set_answer_correct (bool_decide (S k + j = i)) a)), IH
      by (intros; simpl; do 2 f_equal; apply bool_decide_ext; lia).
    repeat case_bool_decide; lia.
Qed.

(** [setAnswerCorrect] with an existing answer leaves exactly that one
    correct. *)
Theorem setAnswerCorrect_one_correct i ans :
  i < length ans ->
  one_correct (imap (fun j a => set_answer_correct (bool_decide (j = i)) a) ans) = true.
Proof.
  intros Hi. apply one_correct_spec. right.
  pose proof (count_correct_imap 0 i ans) as H. simpl in H.
  rewrite bool_decide_eq_true_2 in H by lia. exact H.
Qed.

Lemma length_ensure_correct ans : length (ensure_correct ans) = length ans.
Proof. unfold ensure_correct. case_match; [done|]. apply length_alter. Qed.

Lemma ensure_correct_one ans : ans <> [] -> count_correct ans <= 1 -> one_correct (ensure_correct ans) = true.
Proof.
  intros Hne Hle. unfold ensure_correct. rewrite bool_decide_eq_false_2 by done. simpl.
  destruct (existsb answer_correct ans) eqn:He.
  - apply one_correct_spec. right. apply existsb_count in He. lia.
  - destruct ans as [|a ans]; [done|]. apply one_correct_spec. right.
    assert (count_correct (a :: ans) = 0) as H0.
    { destruct (count_correct (a :: ans)) eqn:Hc; [done|]. exfalso.
      assert (existsb answer_correct (a :: ans) = true) as Ht by (apply existsb_count; lia). congruence. }
    simpl. rewrite count_correct_cons. rewrite count_correct_cons in H0. simpl. lia.
Qed.

(** [removeAnswer]: when one answer was correct, one still is; when the
    correct one was removed and answers remain, the first becomes correct. *)
Theorem removeAnswer_one_correct ans i :
  one_correct ans = true -> one_correct (ensure_correct (delete i ans)) = true.
Proof.
  intros Hok. destruct (decide (delete i ans = [])) as [He|Hne].
  - rewrite He. done.
  - apply ensure_correct_one; [done|]. pose proof (count_correct_delete ans i).
    apply one_correct_spec in Hok as [->|?]; [done|lia].
Qed.

(** ** Operations that keep the invariants *)

Lemma groups_sorted_cons g gs :
  groups_sorted (g :: gs) = true <->
  (forall g' gs', gs = g' :: gs' -> (group_minScore g' <= group_minScore g)%Z) /\ groups_sorted gs = true.
Proof.
  destruct gs as [|g' gs]; simpl; [split; [intros _; split; [by intros ? ? [=]|done]|done]|].
  rewrite andb_true_iff, bool_decide_eq_true. split.
  - intros [Hle Hs]. split; [by intros ? ? [= -> ->]|done].
  - intros [Hle Hs]. split; [by apply (Hle g' gs)|done].
Qed.

Lemma groups_sorted_delete gs i : groups_sorted gs = true -> groups_sorted (delete i gs) = true.
Proof.
  revert i; induction gs as [|g gs IH]; intros i Hs; [done|].
  apply groups_sorted_cons in Hs as [Hhd Hs]. destruct i as [|i]; [done|].
  change (delete (S i) (g :: gs)) with (g :: delete i gs).
  apply groups_sorted_cons. split; [|by apply IH].
  intros g' gs' Hdel. destruct gs as [|g1 gs]; [destruct i; discriminate|].
  specialize (Hhd g1 gs eq_refl). destruct i as [|i]; simpl in Hdel.
  - subst gs. apply groups_sorted_cons in Hs as [Hhd1 _]. specialize (Hhd1 g' gs' eq_refl). lia.
  - injection Hdel as Hg _. subst. lia.
Qed.

(** Sortedness only depends on the scores. *)
Lemma groups_sorted_scores gs1 gs2 :
  group_minScore <$> gs1 = group_minScore <$> gs2 -> groups_sorted gs1 = groups_sorted gs2.
Proof.
  revert gs2; induction gs1 as [|g1 gs1 IH]; intros [|g2 gs2] H; try discriminate H; [done|].
  rewrite !fmap_cons in H. injection H as Hm Hrest. pose proof (IH gs2 Hrest) as IH'.
  destruct gs1 as [|g1' gs1], gs2 as [|g2' gs2]; try discriminate Hrest; [done|].
  rewrite !fmap_cons in Hrest. injection Hrest as Hm' _.
  change (groups_sorted (g1 :: g1' :: gs1))
    with (bool_decide (group_minScore g1' <= group_minScore g1)%Z && groups_sorted (g1' :: gs1)).
  change (groups_sorted (g2 :: g2' :: gs2))
    with (bool_decide (group_minScore g2' <= group_minScore g2)%Z && groups_sorted (g2' :: gs2)).
  by rewrite Hm, Hm', IH'.
Qed.

Lemma fmap_alter_keep {A B} (h : A -> B) f (l : list A) i :
  (forall x, h (f x) = h x) -> h <$> alter f i l = h <$> l.
Proof.
  intros Hf. revert i; induction l as [|x l IH]; intros [|i]; [done|done| |].
  - change (alter f 0 (x :: l)) with (f x :: l). simpl. by rewrite Hf.
  - change (alter f (S i) (x :: l)) with (x :: alter f i l). simpl. by rewrite IH.
Qed.

Lemma groups_sorted_alter f gs i :
  (forall g, group_minScore (f g) = group_minScore g) ->
  groups_sorted (alter f i gs) = groups_sorted gs.
Proof. intros Hf. apply groups_sorted_scores, fmap_alter_keep, Hf. Qed.

Lemma one_correct_alter f ans i :
  (forall a, answer_correct (f a) = answer_correct a) -> one_correct (alter f i ans) = one_correct ans.
Proof.
  intros Hf. apply Bool.eq_iff_eq_true. rewrite !one_correct_spec.
  assert (count_correct (alter f i ans) = count_correct ans) as ->.
  { revert i; induction ans as [|a ans IH]; intros [|i]; [done|done| |].
    - change (alter f 0 (a :: ans)) with (f a :: ans). by rewrite !count_correct_cons, Hf.
    - change (alter f (S i) (a :: ans)) with (a :: alter f i ans). by rewrite !count_correct_cons, IH. }
  assert (alter f i ans = [] <-> ans = []) as ->; [|done].
  split; intros H; [|by subst]. by destruct ans, i.
Qed.


