(* ===== verification/GroupSort.v ===== *)
(** What the re-sort of the result groups is, independently of how
    Immutable computes it.  [reSortGroups] (src/static/js/QuizBuilder.jsx
    lines 46-51) sorts with [on(group => -group.get('minScore'))], and
    Immutable breaks ties by position; [Spec.sort_groups] is that sort on
    typed groups, an insertion sort over keyed pairs.

    This file gives the re-sort two independent descriptions:
    - the characterisation: the only list whose scores descend and whose
      groups of each score are those of the input, in input order
      ([stable_desc_unique]);
    - a reference implementation written the way a person would specify
      it, [stable_sort_ref]: take the groups of the greatest remaining
      score, in their order, then go on with the others.  It recurses on a
      fuel argument; [length gs] is always enough fuel, since each round
      removes at least the group that has the greatest score. *)

From S2P Require Import Prelude Json Immutable Schema Samples QuizBuilder Spec Refinement Invariants.
From stdpp Require Import sorting.

(** [g2] may follow [g1] in a list sorted by descending score. *)
Definition score_desc (g1 g2 : group) : Prop := (group_minScore g2 <= group_minScore g1)%Z.

(** The greatest score of a non-empty list of groups. *)
Definition max_score (g : group) (gs : list group) : Z :=
  foldl Z.max (group_minScore g) (group_minScore <$> gs).

(** One round per distinct score, greatest first; with no fuel left the
    remaining groups are returned as they are. *)
Fixpoint sort_levels (fuel : nat) (gs : list group) : list group :=
  match fuel, gs with
  | _, [] => []
  | O, _ => gs
  | S fuel', g :: gs' =>
      let m := max_score g gs' in
      filter (fun g => group_minScore g = m) gs ++
      sort_levels fuel' (filter (fun g => group_minScore g <> m) gs)
  end.

Definition stable_sort_ref (gs : list group) : list group := sort_levels (length gs) gs.

#[export] Instance score_desc_trans : Transitive score_desc.
Proof. intros a b c. unfold score_desc. lia. Qed.

(** ** Sortedness, two ways *)

Lemma groups_sorted_Sorted l : groups_sorted l = true <-> Sorted score_desc l.
Proof.
  induction l as [|x l IH]; [split; [constructor|done]|].
  rewrite groups_sorted_cons. split.
  - intros [Hh Hs]. constructor; [by apply IH|].
    destruct l as [|y l]; constructor. by apply (Hh y l).
  - intros Hs. apply Sorted_inv in Hs as [Hs Hhd]. split; [|by apply IH].
    intros g' gs' ->. by inversion Hhd.
Qed.

Lemma groups_sorted_StronglySorted l : groups_sorted l = true <-> StronglySorted score_desc l.
Proof.
  rewrite groups_sorted_Sorted. split; [apply Sorted_StronglySorted; apply _|].
  apply StronglySorted_Sorted.
Qed.

(** ** Filters by score *)

Lemma filter_score_elem k (l : list group) g :
  g ∈ l -> group_minScore g = k -> g ∈ filter (fun g => group_minScore g = k) l.
Proof. intros Hg Hk. by apply list_elem_of_filter. Qed.

Lemma filter_none {A} (P : A -> Prop) `{!forall x, Decision (P x)} l :
  (forall x, x ∈ l -> ~ P x) -> filter P l = [].
Proof.
  induction l as [|x l IH]; intros Hn; [done|].
  rewrite filter_cons_False by (apply Hn; left). apply IH. intros y Hy. apply Hn. by right.
Qed.

(** ** The characterisation *)

(** Two lists sorted by descending score that have the same groups of
    each score, in the same order, are equal. *)
Lemma stable_desc_unique l1 l2 :
  StronglySorted score_desc l1 -> StronglySorted score_desc l2 ->
  (forall m, filter (fun g => group_minScore g = m) l1 = filter (fun g => group_minScore g = m) l2) ->
  l1 = l2.
Proof.
  intros H1. revert l2. induction H1 as [|x l1 _ IH Hx]; intros l2 H2 Hf.
  - destruct l2 as [|y l2]; [done|]. specialize (Hf (group_minScore y)).
    rewrite filter_nil, filter_cons_True in Hf by done. discriminate.
  - destruct H2 as [|y l2 Hs2 Hy].
    + specialize (Hf (group_minScore x)). rewrite filter_nil, filter_cons_True in Hf by done. discriminate.
    + assert (forall a b la lb, Forall (score_desc a) la ->
                filter (fun g => group_minScore g = group_minScore b) (a :: la) =
                filter (fun g => group_minScore g = group_minScore b) (b :: lb) ->
                (group_minScore b <= group_minScore a)%Z) as Hle.
      { intros a b la lb Ha F. rewrite (filter_cons_True _ b) in F by done.
        assert (b ∈ filter (fun g => group_minScore g = group_minScore b) (a :: la)) as Hin
          by (rewrite F; left).
        apply list_elem_of_filter in Hin as [_ [->|Hin]%elem_of_cons]; [lia|].
        rewrite Forall_forall in Ha. by apply Ha. }
      pose proof (Hle x y l1 l2 Hx (Hf _)). pose proof (Hle y x l2 l1 Hy (eq_sym (Hf _))).
      pose proof (Hf (group_minScore x)) as F.
      rewrite !filter_cons_True in F by (done || lia). injection F as <- _.
      f_equal. apply IH; [done|]. intros m. specialize (Hf m). rewrite !filter_cons in Hf.
      case_decide; [by injection Hf|done].
Qed.

(** ** The reference sort *)

Lemma max_score_spec g gs :
  Forall (fun h => group_minScore h <= max_score g gs)%Z (g :: gs) /\
  exists h, h ∈ g :: gs /\ group_minScore h = max_score g gs.
Proof.
  unfold max_score. destruct (foldl_max_bound (group_minScore g) (group_minScore <$> gs)) as [H1 H2].
  split.
  - constructor; [done|]. rewrite Forall_fmap in H2. exact H2.
  - pose proof (foldl_max_elem (group_minScore g) (group_minScore <$> gs)) as Hm.
    rewrite <- fmap_cons in Hm. apply list_elem_of_fmap in Hm as (h & Hh & Hin). by exists h.
Qed.

Lemma StronglySorted_same_score m l :
  Forall (fun g => group_minScore g = m) l -> StronglySorted score_desc l.
Proof.
  induction 1 as [|g l Hg Hl IH]; [constructor|]. constructor; [exact IH|].
  eapply Forall_impl; [exact Hl|]. intros h Hh. unfold score_desc. simpl in *. lia.
Qed.

Section SortLevels.
  Variable k : Z.

Lemma sort_levels_filter fuel gs :
    length gs <= fuel ->
    filter (fun g => group_minScore g = k) (sort_levels fuel gs) = filter (fun g => group_minScore g = k) gs.
  Proof.
    revert gs. induction fuel as [|fuel IH]; intros [|g gs'] Hlen; try done.
    cbn [sort_levels]. set (gs := g :: gs'). set (m := max_score g gs').
    destruct (max_score_spec g gs') as [_ (h & Hh & Hhm)].
    rewrite filter_app, IH.
    2:{ assert (length (filter (fun g => group_minScore g <> m) gs) < length gs); [|unfold gs in *; simpl in *; lia].
        apply (length_filter_lt _ _ h); [done|]. intros Hn. by apply Hn. }
    rewrite !list_filter_filter. destruct (decide (k = m)) as [->|Hne].
    - rewrite (filter_none (fun g => _ /\ _ <> _)) by naive_solver. rewrite app_nil_r.
      apply list_filter_iff. naive_solver.
    - rewrite (filter_none (fun g => _ = k /\ _ = m)) by naive_solver. simpl.
      apply list_filter_iff. naive_solver.
  Qed.
End SortLevels.

Lemma sort_levels_elem fuel gs x : x ∈ sort_levels fuel gs -> x ∈ gs.
Proof.
  revert gs. induction fuel as [|fuel IH]; intros [|g gs'] Hx; try done.
  cbn [sort_levels] in Hx. apply elem_of_app in Hx as [Hx|Hx].
  - by apply list_elem_of_filter in Hx as [_ ?].
  - apply IH in Hx. by apply list_elem_of_filter in Hx as [_ ?].
Qed.

Lemma sort_levels_sorted fuel gs :
  length gs <= fuel -> StronglySorted score_desc (sort_levels fuel gs).
Proof.
  revert gs. induction fuel as [|fuel IH]; intros [|g gs'] Hlen; try (by constructor).
  { simpl in Hlen. lia. }
  cbn [sort_levels]. set (gs := g :: gs'). set (m := max_score g gs').
  destruct (max_score_spec g gs') as [Hall (h & Hh & Hhm)].
  apply StronglySorted_app_2.
  - intros x1 x2 Hx1 Hx2. apply list_elem_of_filter in Hx1 as [Hx1 _].
    apply sort_levels_elem, list_elem_of_filter in Hx2 as [_ Hx2].
    rewrite Forall_forall in Hall. unfold score_desc. rewrite Hx1. by apply Hall.
  - apply (StronglySorted_same_score m), Forall_forall. intros x Hx. by apply list_elem_of_filter in Hx as [? _].
  - apply IH. assert (length (filter (fun g => group_minScore g <> m) gs) < length gs); [|unfold gs in *; simpl in *; lia].
    apply (length_filter_lt _ _ h); [done|]. intros Hn. by apply Hn.
Qed.

Lemma stable_sort_ref_sorted gs : StronglySorted score_desc (stable_sort_ref gs).
Proof. by apply sort_levels_sorted. Qed.

Lemma stable_sort_ref_filter k gs :
  filter (fun g => group_minScore g = k) (stable_sort_ref gs) = filter (fun g => group_minScore g = k) gs.
Proof. by apply sort_levels_filter. Qed.

(** The insertion sort of [Spec] and the reference sort agree. *)
Lemma sort_groups_ref gs : sort_groups gs = stable_sort_ref gs.
Proof.
  apply stable_desc_unique.
  - apply groups_sorted_StronglySorted, sort_groups_sorted.
  - apply stable_sort_ref_sorted.
  - intros m. by rewrite sort_groups_stable, stable_sort_ref_filter.
Qed.

(** C28 [reSortGroups] computes the reference stable sort: on a state
    that decodes, it does not throw and leaves the quiz with its groups
    replaced by [stable_sort_ref] of them, and that list is the only one
    whose scores descend and whose groups of each score are the old ones
    in their old order. *)
Theorem reSortGroups_equiv s z :
  decode_state s = Some z ->
  thrown (reSortGroups s) = None /\
  decode_state (after (reSortGroups s)) = Some (with_groups z (stable_sort_ref (quiz_groups z))) /\
  forall l, groups_sorted l = true ->
    (forall m, filter (fun g => group_minScore g = m) l = filter (fun g => group_minScore g = m) (quiz_groups z)) ->
    l = stable_sort_ref (quiz_groups z).
Proof.
  intros Hs. destruct (reSortGroups_implements s z Hs I) as [Ht Hd].
  split_and!; [done|by rewrite Hd, <- sort_groups_ref|].
  intros l Hl Hf. apply stable_desc_unique; [by apply groups_sorted_StronglySorted|apply stable_sort_ref_sorted|].
  intros m. by rewrite Hf, stable_sort_ref_filter.
Qed.

Lemma reSortGroups_equiv_witness :
  decode_state (after (reSortGroups (VMap [(KStr "quiz", unsorted_doc)]))) =
  Some (mkQuiz "q1" "Capitals" "list" 1
          [mkQuestion "France?" "" "" [mkAnswer "Paris" "" true; mkAnswer "Lyon" "" false]]
          [mkGroup "All" "" 1; mkGroup "None" "" 0]).
Proof.
  exact (proj1 (proj2 (reSortGroups_equiv (VMap [(KStr "quiz", unsorted_doc)])
    (mkQuiz "q1" "Capitals" "list" 1
       [mkQuestion "France?" "" "" [mkAnswer "Paris" "" true; mkAnswer "Lyon" "" false]]
       [mkGroup "None" "" 0; mkGroup "All" "" 1]) eq_refl))).
Defined.
