(* ===== verification/Answer.v ===== *)
(** One answer of a question as src/static/js/builder/Answer.jsx renders
    it: the list item's classes, the "Set Correct" button (disabled on the
    correct answer), the reveal-text field (shown on the correct answer
    only), the image field and thumbnail (when [showImages]) and the text
    input.  The text, image and reveal inputs call the [setText],
    [setImageUrl] and [setReveal] props, which the question component
    (not under src/) binds to [setAnswerText], [setAnswerImageUrl] and
    [setRevealText] of [QuizBuilder]. *)

From S2P Require Import Prelude Json Immutable Schema Spec Invariants.

Record answer_view := mkAnswerView {
  av_classes : list string;
  av_setCorrect_disabled : bool;
  av_reveal_shown : bool;
  av_imageUrl_field : bool;
  av_thumbnail : option value;
  av_text : value
}.

(** [classnames({k1: b1, ...})]: the keys whose value is truthy, in
    order. *)
Definition classnames (kbs : list (string * bool)) : list string :=
  (filter (fun kb => kb.2 = true) kbs).*1.

Module Answer.

(** The three change handlers forward the text typed to a prop; [E] is
    whatever calling the prop does. *)
Definition handleChange {E} (setText : string -> E) (value : string) : E := setText value.
Definition handleImageUrlChange {E} (setImageUrl : string -> E) (value : string) : E := setImageUrl value.
Definition handleRevealChange {E} (setReveal : string -> E) (value : string) : E := setReveal value.

Definition render (answer : value) (showImages : bool) : res answer_view :=
    answerText <- jget (KStr "answer") answer ;;
    imageUrl <- jget (KStr "imageUrl") answer ;;
    isCorrect <- jget (KStr "correct") answer ;;
    Ok (mkAnswerView
          (classnames [("list-group-item", true);
                       ("list-group-item-success", truthy isCorrect);
                       ("list-group-item--danger", negb (truthy isCorrect))])
          (* [disabled={isCorrect ? "disabled" : ""}] *)
          (truthy isCorrect)
          (* [revealText = isCorrect && (...)] *)
          (truthy isCorrect)
          showImages
          (if showImages
           then Some (if truthy imageUrl then imageUrl else VStr "/assets/images/no-image.png")
           else None)
          answerText).

End Answer.

(** The view of a typed answer. *)
Definition view_of_answer (showImages : bool) (a : answer) : answer_view :=
  mkAnswerView
    ("list-group-item" :: (if answer_correct a then ["list-group-item-success"] else ["list-group-item--danger"]))
    (answer_correct a) (answer_correct a) showImages
    (if showImages
     then Some (if String.eqb (answer_imageUrl a) "" then VStr "/assets/images/no-image.png"
                else VStr (answer_imageUrl a))
     else None)
    (VStr (answer_text a)).

Lemma decode_answer_fields kvs a :
  decode_answer (VMap kvs) = Some a ->
  kv_lookup (KStr "answer") kvs = Some (VStr (answer_text a)) /\
  kv_lookup (KStr "imageUrl") kvs = Some (VStr (answer_imageUrl a)) /\
  kv_lookup (KStr "correct") kvs = Some (VBool (answer_correct a)).
Proof.
  unfold decode_answer, field. simpl. intros H. opt_inv.
  repeat match goal with
         | H : as_str ?v = Some _ |- _ => destruct v; try discriminate H; injection H as <-
         | H : as_bool ?v = Some _ |- _ => destruct v; try discriminate H; injection H as <-
         end.
  simpl. by split_and!.
Qed.

Lemma render_answer_view x a showImages :
  decode_answer x = Some a -> Answer.render x showImages = Ok (view_of_answer showImages a).
Proof.
  intros Ha. destruct x as [| | | | | |kvs]; try discriminate Ha.
  destruct (decode_answer_fields _ _ Ha) as (Ht & Hu & Hc).
  unfold Answer.render, jget. simpl. rewrite Ht, Hu, Hc. simpl.
  unfold view_of_answer. destruct (answer_correct a), showImages; try done;
    simpl; by destruct (String.eqb (answer_imageUrl a) "").
Qed.

Lemma filter_disabled_views showImages ans :
  length (filter (fun v => av_setCorrect_disabled v = true) (view_of_answer showImages <$> ans)) =
  count_correct ans.
Proof.
  unfold count_correct. induction ans as [|a ans IH]; [done|].
  rewrite fmap_cons, !filter_cons. simpl. by destruct (answer_correct a); simpl; rewrite IH.
Qed.

Lemma view_of_answer_marks showImages a :
  av_reveal_shown (view_of_answer showImages a) = av_setCorrect_disabled (view_of_answer showImages a) /\
  ("list-group-item-success" ∈ av_classes (view_of_answer showImages a) <->
   av_setCorrect_disabled (view_of_answer showImages a) = true).
Proof.
  split; [done|]. simpl. destruct (answer_correct a); split; intros H; try done.
  - set_solver.
  - revert H. rewrite !elem_of_cons, elem_of_nil. intros [H|[H|[]]]; discriminate H.
Qed.

(** C19 Rendering the answers of a question that has exactly one correct
    answer marks exactly one of them as correct: one list item has the
    success class, its "Set Correct" button is the only disabled one and
    it alone shows the reveal-text field; every other item has the
    danger class. *)
Theorem answers_render_one_correct xs ans showImages :
  mapM decode_answer xs = Some ans -> one_correct ans = true -> ans <> [] ->
  exists views, res_mapM (fun x => Answer.render x showImages) xs = Ok views /\
    length views = length ans /\
    length (filter (fun v => av_setCorrect_disabled v = true) views) = 1 /\
    Forall (fun v => av_reveal_shown v = av_setCorrect_disabled v /\
                     ("list-group-item-success" ∈ av_classes v <-> av_setCorrect_disabled v = true)) views.
Proof.
  intros Hm Hok Hne. exists (view_of_answer showImages <$> ans). split_and!.
  - apply res_mapM_Ok, Forall2_fmap_r. apply mapM_Some in Hm.
    eapply Forall2_impl; [exact Hm|]. intros x a Ha. by apply render_answer_view.
  - apply length_fmap.
  - rewrite filter_disabled_views. by apply one_correct_spec in Hok as [?|?].
  - apply Forall_fmap, Forall_forall. intros a _. apply view_of_answer_marks.
Qed.

Lemma answers_render_one_correct_witness :
  exists views, res_mapM (fun x => Answer.render x true)
                  [VMap [(KStr "answer", VStr "Paris"); (KStr "imageUrl", VStr ""); (KStr "correct", VBool true)];
                   VMap [(KStr "answer", VStr "Lyon"); (KStr "imageUrl", VStr ""); (KStr "correct", VBool false)]] =
                Ok views /\
    length views = 2 /\
    length (filter (fun v => av_setCorrect_disabled v = true) views) = 1 /\
    Forall (fun v => av_reveal_shown v = av_setCorrect_disabled v /\
                     ("list-group-item-success" ∈ av_classes v <-> av_setCorrect_disabled v = true)) views.
Proof.
  exact (answers_render_one_correct
           [VMap [(KStr "answer", VStr "Paris"); (KStr "imageUrl", VStr ""); (KStr "correct", VBool true)];
            VMap [(KStr "answer", VStr "Lyon"); (KStr "imageUrl", VStr ""); (KStr "correct", VBool false)]]
           [mkAnswer "Paris" "" true; mkAnswer "Lyon" "" false] true
           eq_refl eq_refl ltac:(discriminate)).
Defined.
