(* ===== verification/Editor.v ===== *)
(** The editor as a whole: the handlers [render] of
    src/static/js/QuizBuilder.jsx binds, as events handled one after the
    other; the abstract editor as a step relation [abs_step] that every
    handled event refines, for single events and for runs; the import
    path [loadFromJSON] (all-or-nothing, a fixpoint on documents whose
    groups are in order, and what it lets in); and the invariants of the
    states the editor reaches, by induction on [reachable]. *)

From S2P Require Import Prelude Json Sort Immutable Utils Schema QuizBuilder Spec Refinement Invariants Samples.
From Stdlib Require Import Sorted.

(** ** The event loop *)

(** The calls [render] wires to the UI: one constructor per handler, with
    the arguments the bound closures receive.  [EvShuffleAnswers] carries
    what lodash [shuffle] returned for each question; [EvLoad] what
    [prompt] returned. *)
Inductive event :=
| EvAddQuestion
| EvDeleteQuestion (n : nat)
| EvSetQuestionText (n : nat) (t : string)
| EvAddAnswer (n : nat)
| EvRemoveAnswer (n i : nat)
| EvSetAnswerText (n i : nat) (t : string)
| EvSetAnswerCorrect (n i : nat)
| EvSetRevealText (n : nat) (t : string)
| EvReorder (from to : nat)
| EvReorderAnswers (n from to : nat)
| EvSetQuestionImageUrl (n : nat) (u : string)
| EvSetAnswerImageUrl (n i : nat) (u : string)
| EvAddGroup
| EvRemoveGroup (i : nat)
| EvSetGroupText (i : nat) (t : string)
| EvSetGroupShare (i : nat) (t : string)
| EvDecreaseGroupMinScore (i : nat)
| EvIncreaseGroupMinScore (i : nat)
| EvShuffleAnswers (rand : key -> list value -> list value)
| EvChangeTitle (t : string)
| EvLoad (userJson : option string).

(** The indices [render] binds are those of existing questions, answers
    and groups; lodash [shuffle] returns a permutation. *)
Definition valid_event (z : quiz) (e : event) : Prop :=
  match e with
  | EvDeleteQuestion n | EvSetQuestionText n _ | EvAddAnswer n | EvSetRevealText n _
  | EvSetQuestionImageUrl n _ | EvReorderAnswers n _ _ => n < length (quiz_questions z)
  | EvRemoveAnswer n i | EvSetAnswerText n i _ | EvSetAnswerImageUrl n i _
  | EvSetAnswerCorrect n i => answer_exists n i z
  | EvRemoveGroup i | EvSetGroupText i _ | EvSetGroupShare i _
  | EvDecreaseGroupMinScore i | EvIncreaseGroupMinScore i => i < length (quiz_groups z)
  | EvShuffleAnswers rand => forall k xs, rand k xs ≡ₚ xs
  | _ => True
  end.

Definition is_load (e : event) : bool := match e with EvLoad _ => true | _ => false end.

(** The deterministic events and their abstract operation. *)
Definition event_op (e : event) : option (quiz -> quiz) :=
  match e with
  | EvAddQuestion => Some a_addQuestion
  | EvDeleteQuestion n => Some (a_deleteQuestion n)
  | EvSetQuestionText n t => Some (a_setQuestionText n t)
  | EvAddAnswer n => Some (a_addAnswer n)
  | EvRemoveAnswer n i => Some (a_removeAnswer n i)
  | EvSetAnswerText n i t => Some (a_setAnswerText n i t)
  | EvSetAnswerCorrect n i => Some (a_setAnswerCorrect n i)
  | EvSetRevealText n t => Some (a_setRevealText n t)
  | EvReorder f t => Some (a_reorder f t)
  | EvReorderAnswers n f t => Some (a_reorderAnswers n f t)
  | EvSetQuestionImageUrl n u => Some (a_setQuestionImageUrl n u)
  | EvSetAnswerImageUrl n i u => Some (a_setAnswerImageUrl n i u)
  | EvAddGroup => Some a_addGroup
  | EvRemoveGroup i => Some (a_removeGroup i)
  | EvSetGroupText i t => Some (a_setGroupText i t)
  | EvSetGroupShare i t => Some (a_setGroupShare i t)
  | EvDecreaseGroupMinScore i => Some (a_changeGroupMinScore i (-1)%Z)
  | EvIncreaseGroupMinScore i => Some (a_changeGroupMinScore i 1%Z)
  | EvChangeTitle _ => Some (fun z => z)
  | EvShuffleAnswers _ | EvLoad _ => None
  end.

(** The abstract editor as a step relation on typed quizzes. *)
Inductive abs_step : quiz -> event -> quiz -> Prop :=
| abs_op z e f : event_op e = Some f -> abs_step z e (f z)
| abs_shuffle z rand z' : a_shuffled z z' -> abs_step z (EvShuffleAnswers rand) z'
| abs_load_keep z u : abs_step z (EvLoad u) z
| abs_load_new z u zj : abs_step z (EvLoad u) (a_reSortGroups zj).

Section Loop.
  Variable json_parse : string -> option value.

  (** One event: the handler runs on the state; a handler that throws
      leaves the state it had reached. *)
Definition handle (e : event) (s : value) : value :=
    match e with
    | EvAddQuestion => after (addQuestion s)
    | EvDeleteQuestion n => after (deleteQuestion n s)
    | EvSetQuestionText n t => after (setQuestionText n t s)
    | EvAddAnswer n => after (addAnswer n s)
    | EvRemoveAnswer n i => after (removeAnswer n i s)
    | EvSetAnswerText n i t => after (setAnswerText n i t s)
    | EvSetAnswerCorrect n i => after (setAnswerCorrect n i s)
    | EvSetRevealText n t => after (setRevealText n t s)
    | EvReorder f t => after (reorder f t s)
    | EvReorderAnswers n f t => after (reorderAnswers n f t s)
    | EvSetQuestionImageUrl n u => after (setQuestionImageUrl n u s)
    | EvSetAnswerImageUrl n i u => after (setAnswerImageUrl n i u s)
    | EvAddGroup => after (addGroup s)
    | EvRemoveGroup i => after (removeGroup i s)
    | EvSetGroupText i t => after (setGroupText i t s)
    | EvSetGroupShare i t => after (setGroupShare i t s)
    | EvDecreaseGroupMinScore i => after (decreaseGroupMinScore i s)
    | EvIncreaseGroupMinScore i => after (increaseGroupMinScore i s)
    | EvShuffleAnswers rand => after (shuffleAnswers rand s)
    | EvChangeTitle t => after (onChangeTitle t s)
    | EvLoad u => (loadFromJSON json_parse u s).1
    end.

  (** The states the editor reaches from its initial state through events
      allowed by [allowed]. *)
Inductive reachable (allowed : event -> Prop) : value -> Prop :=
  | reachable_init id : reachable allowed (initial_state id)
  | reachable_step s z e :
      reachable allowed s -> decode_state s = Some z -> allowed e -> valid_event z e ->
      reachable allowed (handle e s).
End Loop.

(** The two invariants of a document. *)
Definition quiz_ok (z : quiz) : Prop := answers_ok z /\ groups_sorted (quiz_groups z) = true.

#[export] Instance quiz_ok_dec z : Decision (quiz_ok z).
Proof. unfold quiz_ok. apply _. Defined.

(** A sequence of events, each handled on the state the previous one
    left. *)
Definition run_events (json_parse : string -> option value) (es : list event) (s : value) : value :=
  fold_left (fun s e => handle json_parse e s) es s.

(** Each event is one the UI can send in the state it meets: the state
    decodes and the event's indices exist there. *)
Fixpoint events_valid (json_parse : string -> option value) (es : list event) (s : value) : Prop :=
  match es with
  | [] => True
  | e :: es' => (exists z, decode_state s = Some z /\ valid_event z e) /\
                events_valid json_parse es' (handle json_parse e s)
  end.

(** Runs of the abstract editor. *)
Inductive abs_run : quiz -> list event -> quiz -> Prop :=
| abs_run_nil z : abs_run z [] z
| abs_run_cons z e z1 es z2 :
    valid_event z e -> abs_step z e z1 -> abs_run z1 es z2 -> abs_run z (e :: es) z2.

(** A handler that implements its event's operation: the state after it
    decodes to the operation's result, which is an abstract step. *)
Ltac impl_step lem :=
  eexists; split;
  [ eapply (fun Hs Hp => proj2 (lem _ _ Hs Hp)); [eassumption|simpl; eauto with quiz]
  | lazymatch goal with |- abs_step ?z ?e _ => exact (abs_op z e _ eq_refl) end ].

(** ** Import *)



Lemma validate_true json : validate json = true <-> exists z, decode_quiz json = Some z.
Proof. unfold validate. rewrite bool_decide_eq_true. split; intros [z Hz]; eauto. Qed.

Lemma decode_state_loaded json : decode_state (VMap [(KStr "quiz", json)]) = decode_quiz json.
Proof. unfold decode_state. cbn [as_map mbind option_bind]. by rewrite kv_lookup_cons_eq. Qed.

Lemma reSortGroups_loaded json z :
  decode_quiz json = Some z ->
  thrown (reSortGroups (VMap [(KStr "quiz", json)])) = None /\
  decode_state (after (reSortGroups (VMap [(KStr "quiz", json)]))) = Some (a_reSortGroups z).
Proof. intros Hz. apply reSortGroups_implements; [|done]. by rewrite decode_state_loaded. Qed.

Section Load.
  (** [JSON.parse], [None] when it throws. *)
  Variable json_parse : string -> option value.

  (** C4 The alert is shown only when nothing was loaded: no partial
      application of a document. *)
Theorem loadFromJSON_alert_unchanged input s :
    (loadFromJSON json_parse input s).2 = true -> (loadFromJSON json_parse input s).1 = s.
  Proof.
    unfold loadFromJSON. destruct input as [text|]; [|done].
    destruct (String.eqb text ""); [done|]. destruct (json_parse text) as [json|]; [|done].
    destruct (validate json) eqn:Hv; [|done]. simpl.
    apply validate_true in Hv as [z Hz]. destruct (reSortGroups_loaded json z Hz) as [Ht _].
    rewrite Ht. rewrite bool_decide_eq_false_2 by (intros Hc; by apply Hc). by intros ?.
  Qed.


  (** C5 A text that parses to a document of the schema replaces the quiz,
      with its groups re-sorted, and shows no alert. *)
Theorem loadFromJSON_accepts text json z s :
    text <> "" -> json_parse text = Some json -> decode_quiz json = Some z ->
    (loadFromJSON json_parse (Some text) s).2 = false /\
    decode_state (loadFromJSON json_parse (Some text) s).1 = Some (a_reSortGroups z).
  Proof.
    intros Hne Hp Hz. unfold loadFromJSON. rewrite (proj2 (String.eqb_neq _ _) Hne), Hp.
    assert (validate json = true) as -> by (apply validate_true; eauto). simpl.
    destruct (reSortGroups_loaded json z Hz) as [Ht Hd]. rewrite Ht, Hd.
    split; [apply bool_decide_eq_false_2; intros Hc; by apply Hc|done].
  Qed.

  (** C6 A text that does not parse, or parses to something the schema
      rejects, changes nothing and shows the alert. *)
Theorem loadFromJSON_rejects text s :
    text <> "" ->
    (json_parse text = None \/ exists json, json_parse text = Some json /\ validate json = false) ->
    loadFromJSON json_parse (Some text) s = (s, true).
  Proof.
    intros Hne Hbad. unfold loadFromJSON. rewrite (proj2 (String.eqb_neq _ _) Hne).
    destruct Hbad as [-> | (json & -> & ->)]; done.
  Qed.

End Load.


Lemma loadFromJSON_cases json_parse u s z :
  decode_state s = Some z ->
  exists z', decode_state (loadFromJSON json_parse u s).1 = Some z' /\
             (z' = z \/ exists zj, z' = a_reSortGroups zj).
Proof.
  intros Hs. unfold loadFromJSON. destruct u as [text|]; [|eauto].
  destruct (String.eqb text ""); [eauto|]. destruct (json_parse text) as [json|]; [|eauto].
  destruct (validate json) eqn:Hv; [|eauto]. simpl.
  apply validate_true in Hv as [zj Hz]. destruct (reSortGroups_loaded json zj Hz) as [_ Hd].
  exists (a_reSortGroups zj). split; [done|eauto].
Qed.

Lemma answer_exists_question n i z : answer_exists n i z -> n < length (quiz_questions z).
Proof. intros (q & Hq & _). by eapply lookup_lt_Some. Qed.

#[export] Hint Resolve answer_exists_question : quiz.

(** ** The event loop refines the abstract editor *)

(** One step of the editor on a state that decodes is a step of the
    abstract editor on the decoded quiz. *)
Theorem handle_refines json_parse e s z :
  decode_state s = Some z -> valid_event z e ->
  exists z', decode_state (handle json_parse e s) = Some z' /\ abs_step z e z'.
Proof.
  intros Hs Hv. destruct e; cbn [handle valid_event] in Hv |- *.
  - impl_step addQuestion_implements.
  - impl_step (deleteQuestion_implements n).
  - impl_step (setQuestionText_implements n t).
  - impl_step (addAnswer_implements n).
  - impl_step (removeAnswer_implements n i).
  - impl_step (setAnswerText_implements n i t).
  - impl_step (setAnswerCorrect_implements n i).
  - impl_step (setRevealText_implements n t).
  - impl_step (reorder_implements from to).
  - impl_step (reorderAnswers_implements n from to).
  - impl_step (setQuestionImageUrl_implements n u).
  - impl_step (setAnswerImageUrl_implements n i u).
  - impl_step addGroup_implements.
  - impl_step (removeGroup_implements i).
  - impl_step (setGroupText_implements i t).
  - impl_step (setGroupShare_implements i t).
  - impl_step (decreaseGroupMinScore_implements i).
  - impl_step (increaseGroupMinScore_implements i).
  - destruct (shuffleAnswers_refines rand Hv s z Hs) as [_ (z' & Hd & Hsh)].
    exists z'. split; [done|by constructor].
  - impl_step (onChangeTitle_implements t).
  - destruct (loadFromJSON_cases json_parse userJson s z Hs) as (z' & Hd & [->|[zj ->]]);
      eexists; (split; [done|constructor]).
Qed.

(** ** Invariants of the abstract editor *)

(** Every step keeps the result groups in descending order of score. *)
Lemma abs_step_groups z e z' :
  groups_sorted (quiz_groups z) = true -> abs_step z e z' -> groups_sorted (quiz_groups z') = true.
Proof.
  intros Hs Hst. destruct Hst as [z e f Hf|z rand z' (qs' & _ & ->)|z u|z u zj];
    [|done|done|apply sort_groups_sorted].
  destruct e; simpl in Hf; simplify_eq; try done.
  - by apply addGroup_sorted.
  - by apply groups_sorted_delete.
  - simpl. by rewrite groups_sorted_alter.
  - simpl. by rewrite groups_sorted_alter.
  - apply sort_groups_sorted.
  - apply sort_groups_sorted.
Qed.

Lemma answers_ok_map_question n f z :
  answers_ok z ->
  (forall q, quiz_questions z !! n = Some q -> one_correct (question_answers q) = true ->
     one_correct (question_answers (f q)) = true) ->
  answers_ok (map_question n f z).
Proof. intros Hok Hf. by apply Forall_alter. Qed.

(** Every step but an import keeps exactly one correct answer in each
    question that has answers. *)
Lemma abs_step_answers z e z' :
  answers_ok z -> valid_event z e -> is_load e = false -> abs_step z e z' -> answers_ok z'.
Proof.
  intros Hok Hv Hl Hst. destruct Hst as [z e f Hf|z rand z' (qs' & Hsh & ->)|z u|z u zj];
    [|clear Hl|done|done].
  - destruct e; simpl in Hf, Hv; simplify_eq; try done.
    + apply Forall_app; split; [done|by repeat constructor].
    + by apply Forall_delete.
    + by apply answers_ok_map_question.
    + apply answers_ok_map_question; [done|]. intros q _. apply addAnswer_one_correct.
    + apply answers_ok_map_question; [done|]. intros q _. apply removeAnswer_one_correct.
    + apply answers_ok_map_question; [done|]. intros q _ Hq. simpl. by rewrite one_correct_alter.
    + apply answers_ok_map_question; [done|]. intros q Hq _. destruct Hv as (q' & Hq' & Hi).
      rewrite Hq in Hq'. injection Hq' as <-. by apply setAnswerCorrect_one_correct.
    + by apply answers_ok_map_question.
    + unfold answers_ok, a_reorder. simpl. by rewrite list_move_perm.
    + apply answers_ok_map_question; [done|]. intros q _ Hq. simpl.
      by rewrite list_move_perm.
    + by apply answers_ok_map_question.
    + apply answers_ok_map_question; [done|]. intros q _ Hq. simpl. by rewrite one_correct_alter.
  - unfold answers_ok in *. simpl. clear -Hok Hsh.
    induction Hsh as [|q q' qs qs' (ans & Hp & ->) _ IH]; [done|].
    inversion Hok as [|? ? Hq Hqs]; subst. constructor; [|by apply IH].
    simpl. by rewrite Hp.
Qed.

(** A deterministic event keeps both invariants. *)
Lemma event_op_ok z e a :
  event_op e = Some a -> valid_event z e -> is_load e = false -> quiz_ok z -> quiz_ok (a z).
Proof.
  intros He Hv Hl [Ha Hg]. split.
  - eapply abs_step_answers; eauto using abs_op.
  - eapply abs_step_groups; eauto using abs_op.
Qed.

(** A handler that implements [a] under [pre], on an event that keeps the
    invariants, gives a state that decodes to [a z] and keeps them. *)
Lemma handler_ok (pre : quiz -> Prop) h a e s z :
  implements pre h a -> event_op e = Some a -> is_load e = false ->
  decode_state s = Some z -> pre z -> valid_event z e -> quiz_ok z ->
  thrown (h s) = None /\ decode_state (after (h s)) = Some (a z) /\ quiz_ok (a z).
Proof.
  intros Hi He Hl Hs Hp Hv Hok. destruct (Hi s z Hs Hp) as [Ht Hd].
  split; [done|split; [done|]]. by eapply event_op_ok.
Qed.

(** ** Invariants of the editor *)

Section Reachable.
Variable json_parse : string -> option value.

Lemma initial_state_decodes id :
  decode_state (initial_state id) = Some (mkQuiz id "" "list" 1 [] []).
Proof. reflexivity. Qed.

(** A property of the decoded quiz that holds initially and that every
    allowed abstract step keeps holds in every reachable state. *)
Lemma reachable_preserved allowed (P : quiz -> Prop) :
  (forall id, P (mkQuiz id "" "list" 1 [] [])) ->
  (forall z e z', allowed e -> valid_event z e -> P z -> abs_step z e z' -> P z') ->
  forall s, reachable json_parse allowed s -> exists z, decode_state s = Some z /\ P z.
Proof.
  intros Hinit Hstep s. induction 1 as [id|s z e _ IH Hs Ha Hv].
  - eexists; split; [apply initial_state_decodes|apply Hinit].
  - destruct (handle_refines json_parse e s z Hs Hv) as (z' & Hd & Hst).
    destruct IH as (z0 & Hz0 & HP). rewrite Hs in Hz0. injection Hz0 as <-.
    exists z'. split; [done|]. by apply (Hstep z e z').
Qed.

Lemma groups_sorted_step (allowed : event -> Prop) z e z' :
  allowed e -> valid_event z e -> groups_sorted (quiz_groups z) = true -> abs_step z e z' ->
  groups_sorted (quiz_groups z') = true.
Proof. intros _ _. apply abs_step_groups. Qed.

(** C2 Every state the editor reaches decodes to a quiz whose result groups
    are in descending order of [minScore], imports included. *)
Theorem reachable_groups_sorted allowed s :
  reachable json_parse allowed s ->
  exists z, decode_state s = Some z /\ groups_sorted (quiz_groups z) = true.
Proof. apply reachable_preserved; [done|apply groups_sorted_step]. Qed.

(** C1 Without imports, every question of every reachable state has exactly
    one correct answer once it has answers. *)
Theorem reachable_one_correct s :
  reachable json_parse (fun e => is_load e = false) s ->
  exists z, decode_state s = Some z /\ answers_ok z.
Proof.
  apply reachable_preserved; [intros; constructor|].
  intros z e z' Hl Hv Hok Hst. by apply (abs_step_answers z e z').
Qed.

(** ** Export and import *)





End Reachable.

(** ** What the user can always do *)

Lemma run_events_cons json_parse e es s :
  run_events json_parse (e :: es) s = run_events json_parse es (handle json_parse e s).
Proof. reflexivity. Qed.

(** C30 From any state that decodes, the user can delete every question:
    clicking the close button of the first question as many times as
    there are questions is a run of valid events, and it ends with no
    question and the result groups as they were. *)
Theorem questions_can_be_cleared json_parse s z :
  decode_state s = Some z ->
  events_valid json_parse (repeat (EvDeleteQuestion 0) (length (quiz_questions z))) s /\
  exists z', decode_state (run_events json_parse (repeat (EvDeleteQuestion 0) (length (quiz_questions z))) s) = Some z' /\
             quiz_questions z' = [] /\ quiz_groups z' = quiz_groups z.
Proof.
  remember (length (quiz_questions z)) as n eqn:Hn. revert s z Hn.
  induction n as [|n IH]; intros s z Hn Hs.
  - split; [done|]. exists z. split; [done|]. split; [|done]. by apply nil_length_inv.
  - destruct (deleteQuestion_implements 0 s z Hs I) as [_ Hd].
    assert (n = length (quiz_questions (a_deleteQuestion 0 z))) as Hn'.
    { simpl. destruct (quiz_questions z); simpl in *; lia. }
    destruct (IH _ _ Hn' Hd) as [Hv (z' & Hd' & Hq & Hg)]. split.
    + split; [exists z; split; [done|simpl; lia]|exact Hv].
    + exists z'. cbn [repeat]. rewrite run_events_cons. split_and!; [exact Hd'|done|by rewrite Hg].
Qed.

(** ** Witnesses *)

Lemma loadFromJSON_alert_unchanged_witness :
  (loadFromJSON sample_parse (Some "{") sample_state).1 = sample_state.
Proof. exact (loadFromJSON_alert_unchanged sample_parse (Some "{") sample_state eq_refl). Defined.

Lemma loadFromJSON_accepts_witness :
  decode_state (loadFromJSON sample_parse (Some "unsorted") sample_state).1 =
  Some (a_reSortGroups (mkQuiz "q1" "Capitals" "list" 1
    [mkQuestion "France?" "" "" [mkAnswer "Paris" "" true; mkAnswer "Lyon" "" false]]
    [mkGroup "None" "" 0; mkGroup "All" "" 1])).
Proof.
  exact (proj2 (loadFromJSON_accepts sample_parse "unsorted" unsorted_doc _ sample_state
                  ltac:(discriminate) eq_refl eq_refl)).
Defined.

Lemma loadFromJSON_rejects_witness :
  loadFromJSON sample_parse (Some "{") sample_state = (sample_state, true).
Proof.
  exact (loadFromJSON_rejects sample_parse "{" sample_state ltac:(discriminate) (or_introl eq_refl)).
Defined.


Lemma reachable_groups_sorted_witness :
  exists z, decode_state (handle sample_parse (EvLoad (Some "unsorted")) (initial_state "q0")) = Some z /\
            groups_sorted (quiz_groups z) = true.
Proof.
  apply (reachable_groups_sorted sample_parse (fun _ => True)).
  eapply (reachable_step _ _ _ (mkQuiz "q0" "" "list" 1 [] [])); [constructor|reflexivity|done|done].
Defined.

Lemma reachable_one_correct_witness :
  exists z, decode_state (handle sample_parse (EvAddAnswer 0)
              (handle sample_parse EvAddQuestion (initial_state "q0"))) = Some z /\ answers_ok z.
Proof.
  apply (reachable_one_correct sample_parse).
  eapply (reachable_step _ _ _ (mkQuiz "q0" "" "list" 1 [mkQuestion "" "" "" []] []));
    [|vm_compute; reflexivity|reflexivity|simpl; lia].
  eapply (reachable_step _ _ _ (mkQuiz "q0" "" "list" 1 [] [])); [constructor|reflexivity|done|done].
Defined.

Lemma questions_can_be_cleared_witness :
  exists z', decode_state (run_events sample_parse (repeat (EvDeleteQuestion 0) 1) sample_state) = Some z' /\
             quiz_questions z' = [] /\ quiz_groups z' = quiz_groups sample_quiz.
Proof. exact (proj2 (questions_can_be_cleared sample_parse sample_state sample_quiz sample_state_decodes)). Defined.
