(* ===== verification/Contract.v ===== *)
(** The contract between the event loop of the builder and the theorems
    that reason about whole sessions.  An [editor] is a state type with a
    typed view of the quiz it holds ([ed_decode]), a handler for each user
    event ([ed_handle]), and the simulation law: on a state that decodes,
    a valid event leads to a state that decodes and whose quiz is one
    abstract step ([abs_step] of [Editor]) away.

    The clients in [Section Client] are proved against the contract only,
    in the manner of a generic simulation diagram: runs of events are
    abstract runs ([ed_run_abs]); a graded invariant that each step of a
    class of events advances by one holds after a run with its grade
    advanced by the run's length ([ed_run_graded]); a class of events
    whose abstract steps decrease a measure gives a well-founded step
    relation on states, and runs no longer than the measure
    ([ed_class_step_wf], [ed_class_run_length]).

    [Builder.quiz_builder] is the implementation: the handlers of
    src/static/js/QuizBuilder.jsx on Immutable values ([Editor.handle]),
    whose law is [Editor.handle_refines]. *)

From S2P Require Import Prelude Json Immutable Utils Schema QuizBuilder Spec Refinement Invariants Editor.
From Stdlib Require Import Wellfounded.

Record editor (St : Type) := mkEditor {
  ed_decode : St -> option quiz;
  ed_handle : event -> St -> St;
  ed_refines : forall e s z, ed_decode s = Some z -> valid_event z e ->
    exists z', ed_decode (ed_handle e s) = Some z' /\ abs_step z e z'
}.
Arguments mkEditor {St} _ _ _.
Arguments ed_decode {St} _ _.
Arguments ed_handle {St} _ _ _.
Arguments ed_refines {St} _ _ _ _ _ _.

Section Client.
  Context {St : Type} (E : editor St).

  (** Each event of a run is valid in the quiz of the state it is
      handled in. *)
Fixpoint ed_valid (es : list event) (s : St) : Prop :=
    match es with
    | [] => True
    | e :: es' => (exists z, ed_decode E s = Some z /\ valid_event z e) /\ ed_valid es' (ed_handle E e s)
    end.

Definition ed_run (es : list event) (s : St) : St := fold_left (fun s e => ed_handle E e s) es s.

  (** One step of a class [P] of events, with a valid event, on a state
      that decodes. *)
Definition ed_class_step (P : event -> bool) (s' s : St) : Prop :=
    exists z e, ed_decode E s = Some z /\ P e = true /\ valid_event z e /\ s' = ed_handle E e s.

  (** A measure of quizzes read on states (0 where nothing decodes). *)
Definition ed_measure (m : quiz -> nat) (s : St) : nat :=
    match ed_decode E s with Some z => m z | None => 0 end.

Lemma ed_run_abs es s z :
    ed_decode E s = Some z -> ed_valid es s ->
    exists z', ed_decode E (ed_run es s) = Some z' /\ abs_run z es z'.
  Proof.
    revert s z. induction es as [|e es IH]; intros s z Hs Hv; simpl in Hv |- *.
    - exists z. split; [done|constructor].
    - destruct Hv as [(z0 & Hz0 & He) Hv]. rewrite Hs in Hz0. injection Hz0 as <-.
      destruct (ed_refines E e s z Hs He) as (z1 & Hd1 & Hst).
      destruct (IH _ _ Hd1 Hv) as (z2 & Hd2 & Hrun).
      exists z2. split; [done|]. by apply (abs_run_cons _ _ z1).
  Qed.

Section Graded.
    Variable P : event -> Prop.
    Variable I : nat -> quiz -> Prop.
    Hypothesis I_step : forall k z e z', P e -> valid_event z e -> I k z -> abs_step z e z' -> I (S k) z'.

Lemma abs_run_graded z es z' k :
      abs_run z es z' -> Forall P es -> I k z -> I (k + length es) z'.
    Proof.
      intros Hrun. revert k. induction Hrun as [z|z e z1 es z2 Hv Hst _ IH]; intros k Hp Hi.
      - by rewrite Nat.add_0_r.
      - apply Forall_cons in Hp as [He Hp]. simpl. rewrite <- Nat.add_succ_comm.
        apply IH; [done|]. by eapply I_step.
    Qed.

Lemma ed_run_graded es s z k :
      ed_decode E s = Some z -> I k z -> Forall P es -> ed_valid es s ->
      exists z', ed_decode E (ed_run es s) = Some z' /\ I (k + length es) z'.
    Proof.
      intros Hs Hi Hp Hv. destruct (ed_run_abs es s z Hs Hv) as (z' & Hd & Hrun).
      exists z'. split; [done|]. by eapply abs_run_graded.
    Qed.
  End Graded.

Section Decreasing.
    Variable P : event -> bool.
    Variable m : quiz -> nat.
    Hypothesis m_step : forall z e z', P e = true -> valid_event z e -> abs_step z e z' -> m z' < m z.

Lemma ed_class_step_measure s' s : ed_class_step P s' s -> ed_measure m s' < ed_measure m s.
    Proof.
      intros (z & e & Hs & Hp & Hv & ->).
      destruct (ed_refines E e s z Hs Hv) as (z' & Hd & Hst).
      unfold ed_measure. rewrite Hs, Hd. by eapply m_step.
    Qed.

Lemma ed_class_step_wf : well_founded (ed_class_step P).
    Proof.
      apply (wf_incl _ _ (fun s' s => ed_measure m s' < ed_measure m s)).
      - intros s' s. apply ed_class_step_measure.
      - apply (wf_inverse_image _ nat lt (ed_measure m) lt_wf).
    Qed.

Lemma ed_class_run_length es s :
      Forall (fun e => P e = true) es -> ed_valid es s -> length es <= ed_measure m s.
    Proof.
      revert s. induction es as [|e es IH]; intros s Hp Hv; simpl; [lia|].
      apply Forall_cons in Hp as [He Hp]. destruct Hv as [(z & Hs & Hve) Hv].
      pose proof (ed_class_step_measure (ed_handle E e s) s ltac:(exists z, e; done)).
      specialize (IH _ Hp Hv). lia.
    Qed.
  End Decreasing.
End Client.
