(* ===== verification/Builder.v ===== *)
(** The builder as an [editor] of [Contract]: its states are the
    Immutable values [QuizBuilder] holds, its handler the one [render]
    binds ([Editor.handle]), and its law [Editor.handle_refines].  The
    lemmas translate the runs of [Editor] into those of the contract, so
    that the session theorems of [Bounds] and [Termination] are read off
    the contract's clients. *)

From S2P Require Import Prelude Json Immutable Utils Schema QuizBuilder Spec Samples Refinement Invariants Editor Contract.

(** The builder: Immutable states, the handlers of QuizBuilder.jsx. *)
Definition quiz_builder (json_parse : string -> option value) : editor value :=
  mkEditor decode_state (handle json_parse) (handle_refines json_parse).

Lemma events_valid_ed json_parse es s :
  events_valid json_parse es s <-> ed_valid (quiz_builder json_parse) es s.
Proof.
  revert s. induction es as [|e es IH]; intros s; simpl; [done|]. by rewrite IH.
Qed.

Lemma run_events_ed json_parse es s : run_events json_parse es s = ed_run (quiz_builder json_parse) es s.
Proof. reflexivity. Qed.

(** C3 Every run of the editor is a run of the abstract editor: from a
    state that decodes, a sequence of events each valid where it is
    handled leads to a state that decodes, and the decoded states follow
    a run of [abs_step]. *)
Theorem run_events_refines json_parse es s z :
  decode_state s = Some z -> events_valid json_parse es s ->
  exists z', decode_state (run_events json_parse es s) = Some z' /\ abs_run z es z'.
Proof.
  intros Hs Hv. apply events_valid_ed in Hv. rewrite run_events_ed.
  exact (ed_run_abs (quiz_builder json_parse) es s z Hs Hv).
Qed.

Lemma run_events_refines_witness :
  exists z', decode_state (run_events sample_parse
               [EvAddQuestion; EvAddAnswer 0; EvAddAnswer 0; EvSetAnswerCorrect 0 1] (initial_state "q0")) = Some z' /\
             abs_run (mkQuiz "q0" "" "list" 1 [] [])
               [EvAddQuestion; EvAddAnswer 0; EvAddAnswer 0; EvSetAnswerCorrect 0 1] z'.
Proof.
  apply run_events_refines; [reflexivity|]. cbn [events_valid].
  split_and!; try exact I; eexists; (split; [reflexivity|]); cbn [valid_event].
  - exact I.
  - simpl; lia.
  - simpl; lia.
  - eexists; split; [reflexivity|simpl; lia].
Defined.
