(* ===== verification/Bounds.v ===== *)
(** How large the scores of the result groups can grow.  The handlers
    compute scores with JavaScript numbers ([score + 1] and [score - 1] in
    [increaseGroupMinScore] and [decreaseGroupMinScore], [max(...) + 1] in
    [addGroup], src/static/js/QuizBuilder.jsx lines 53-62 and 188-202),
    which are IEEE doubles: exact on integers only up to [2^53].  The model
    keeps scores in [Z].  This file shows that the two agree on every
    session the editor can have: an event moves every score by at most one,
    so after [n] events without an import every score lies in [[-n, n]],
    far inside the safe integers. *)

From S2P Require Import Prelude Json Immutable Utils Schema Samples QuizBuilder Spec Refinement Invariants Editor Contract Builder.

(** Every score lies in [[-b, b]]. *)
Definition scores_within (b : Z) (gs : list group) : Prop :=
  Forall (fun g => Z.abs (group_minScore g) <= b)%Z gs.

(** The largest integer a double represents together with all smaller
    ones: [Number.MAX_SAFE_INTEGER]. *)
Definition max_safe_integer : Z := (2 ^ 53 - 1)%Z.

Lemma scores_within_weaken b b' gs : (b <= b')%Z -> scores_within b gs -> scores_within b' gs.
Proof. intros Hb Hgs. eapply Forall_impl; [exact Hgs|]. intros g. simpl. lia. Qed.

(** A new group's score is within one of the bound. *)
Lemma new_score_within b gs : (0 <= b)%Z -> scores_within b gs -> (Z.abs (new_score gs) <= b + 1)%Z.
Proof.
  intros Hb Hgs. destruct (new_score_spec gs) as (H0 & _ & Hmax).
  destruct gs as [|g gs']; [rewrite H0 by done; lia|].
  destruct Hmax as (g' & Hg' & ->); [done|].
  unfold scores_within in Hgs. rewrite Forall_forall in Hgs. specialize (Hgs g' Hg'). lia.
Qed.

Lemma change_score_within b i d gs :
  (Z.abs d <= 1)%Z -> scores_within b gs ->
  scores_within (b + 1)
    (sort_groups (alter (fun g => mkGroup (group_title g) (group_share g) (group_minScore g + d)) i gs)).
Proof.
  intros Hd Hgs. unfold scores_within. rewrite sort_groups_perm.
  apply Forall_alter; [apply (scores_within_weaken b); [lia|done]|]. intros g Hgi _. pose proof (Forall_lookup_1 _ _ _ _ Hgs Hgi). simpl in *. lia.
Qed.

(** One abstract step other than an import moves the bound by one. *)
Lemma abs_step_scores b z e z' :
  (0 <= b)%Z -> is_load e = false -> scores_within b (quiz_groups z) -> abs_step z e z' ->
  scores_within (b + 1) (quiz_groups z').
Proof.
  intros Hb Hl Hs Hst.
  assert (scores_within (b + 1) (quiz_groups z)) as Hs1 by (apply (scores_within_weaken b); [lia|done]).
  destruct Hst as [z e f Hf|z rand z' (qs' & _ & ->)|z u|z u zj]; [|done|done|done].
  destruct e; simpl in Hf; simplify_eq; try done; simpl.
  - constructor; [by apply new_score_within|done].
  - by apply Forall_delete.
  - apply Forall_alter; [done|]. by intros g _.
  - apply Forall_alter; [done|]. by intros g _.
  - apply change_score_within; [lia|done].
  - apply change_score_within; [lia|done].
Qed.

(** The bound as a graded invariant of the contract: after [k] steps
    other than imports, the scores lie in [[-k, k]]. *)
Lemma abs_step_scores_graded k z e z' :
  is_load e = false -> valid_event z e -> scores_within (Z.of_nat k) (quiz_groups z) ->
  abs_step z e z' -> scores_within (Z.of_nat (S k)) (quiz_groups z').
Proof.
  intros Hl _ Hw Hst. rewrite Nat2Z.inj_succ, <- Z.add_1_r.
  apply (abs_step_scores _ z e); [lia|done|done|done].
Qed.

(** C29 From the constructor's state, after [n] events other than
    imports (each valid where it is handled), every score lies in
    [[-n, n]]; so as long as [n] is below [2^53] every score is a safe
    integer, and the JavaScript arithmetic on scores is exact, as the
    integer model assumes. *)
Theorem scores_bounded json_parse id es :
  events_valid json_parse es (initial_state id) -> Forall (fun e => is_load e = false) es ->
  exists z, decode_state (run_events json_parse es (initial_state id)) = Some z /\
    scores_within (Z.of_nat (length es)) (quiz_groups z) /\
    ((Z.of_nat (length es) <= max_safe_integer)%Z ->
     Forall (fun g => Z.abs (group_minScore g) <= max_safe_integer)%Z (quiz_groups z)).
Proof.
  intros Hv Hl. apply events_valid_ed in Hv. rewrite run_events_ed.
  destruct (ed_run_graded (quiz_builder json_parse) _ (fun k z => scores_within (Z.of_nat k) (quiz_groups z))
              abs_step_scores_graded es (initial_state id) _ 0 eq_refl (Forall_nil_2 _) Hl Hv)
    as (z & Hd & Hw).
  exists z. split_and!; [done|done|]. intros Hn. apply (scores_within_weaken _ _ _ Hn Hw).
Qed.

Lemma scores_bounded_witness :
  exists z, decode_state (run_events sample_parse [EvAddGroup; EvAddGroup; EvIncreaseGroupMinScore 0]
                            (initial_state "q0")) = Some z /\
    scores_within 3 (quiz_groups z) /\
    ((3 <= max_safe_integer)%Z -> Forall (fun g => Z.abs (group_minScore g) <= max_safe_integer)%Z (quiz_groups z)).
Proof.
  apply (scores_bounded sample_parse "q0" [EvAddGroup; EvAddGroup; EvIncreaseGroupMinScore 0]).
  - cbn [events_valid]. split_and!; try exact I; eexists; (split; [reflexivity|]); cbn [valid_event].
    + exact I.
    + exact I.
    + simpl; lia.
  - repeat constructor.
Defined.
