(* ===== verification/Termination.v ===== *)
(** Termination of the removal controls.  The handlers of
    src/static/js/QuizBuilder.jsx that take something out of the quiz,
    [deleteQuestion] (lines 64-69), [removeAnswer] (lines 92-105) and
    [removeGroup] (lines 170-172), each remove one element.  Seen as a loop
    of the editor, removing for as long as there is something to remove,
    their steps form a well-founded relation on states: the size of
    the quiz (questions, answers and groups) is a variant that each step
    decreases, as in the [for]-loop orders of coq-art (forloops.v); the
    well-foundedness and the bound on runs come from the clients of
    [Contract], instantiated with the builder.  The
    re-seating of the correct answer by [removeAnswer] ([ensure_correct])
    keeps the number of answers, so it does not get in the way. *)

From S2P Require Import Prelude Json Immutable Utils Schema Samples QuizBuilder Spec Refinement Invariants Editor Contract Builder.

(** The number of answers of all questions. *)
Definition answer_count (z : quiz) : nat :=
  sum_list_with (fun q => length (question_answers q)) (quiz_questions z).

(** The variant: everything a removal handler can remove. *)
Definition quiz_size (z : quiz) : nat :=
  length (quiz_questions z) + answer_count z + length (quiz_groups z).

(** The removal handlers. *)
Definition is_removal (e : event) : bool :=
  match e with
  | EvDeleteQuestion _ | EvRemoveAnswer _ _ | EvRemoveGroup _ => true
  | _ => false
  end.

(** One call of a removal handler, with a valid index, on a state that
    decodes: a step of the class [is_removal] of the
    builder. *)
Definition removal_step (json_parse : string -> option value) : value -> value -> Prop :=
  ed_class_step (quiz_builder json_parse) is_removal.

(** ** Sizes of lists *)

Lemma sum_list_with_delete {A} (f : A -> nat) (l : list A) n :
  sum_list_with f (delete n l) <= sum_list_with f l.
Proof.
  revert n. induction l as [|x l IH]; intros [|n]; simpl; [lia|lia|lia|].
  specialize (IH n). lia.
Qed.

Lemma sum_list_with_alter_lt {A} (f : A -> nat) (g : A -> A) (l : list A) n x :
  l !! n = Some x -> f (g x) < f x -> sum_list_with f (alter g n l) < sum_list_with f l.
Proof.
  revert n. induction l as [|y l IH]; intros [|n] Hx Hf; simplify_eq/=; [lia|].
  specialize (IH n Hx Hf). lia.
Qed.

Lemma length_delete_lt {A} (l : list A) n : n < length l -> length (delete n l) < length l.
Proof. intros Hn. rewrite length_delete by (apply lookup_lt_is_Some; lia). lia. Qed.

(** ** The variant decreases *)

Lemma removal_size_decreases z e z' :
  is_removal e = true -> valid_event z e -> abs_step z e z' -> quiz_size z' < quiz_size z.
Proof.
  intros Hr Hv Hst. unfold quiz_size, answer_count.
  destruct e; try discriminate; inversion Hst as [? ? f Hf| | |]; subst;
    cbn in Hf; injection Hf as <-; cbn [valid_event] in Hv.
  - pose proof (length_delete_lt _ _ Hv).
    pose proof (sum_list_with_delete (fun q => length (question_answers q)) (quiz_questions z) n). simpl. lia.
  - destruct Hv as (q & Hq & Hi). simpl. rewrite length_alter.
    enough (sum_list_with (fun q => length (question_answers q))
              (alter (map_answers (fun ans => ensure_correct (delete i ans))) n (quiz_questions z)) <
            sum_list_with (fun q => length (question_answers q)) (quiz_questions z)) by lia.
    apply (sum_list_with_alter_lt _ _ _ _ q Hq). simpl. rewrite length_ensure_correct. by apply length_delete_lt.
  - pose proof (length_delete_lt _ _ Hv). simpl. lia.
Qed.

(** C35 Removing always comes to an end: one call of a removal handler
    ([deleteQuestion] and [removeAnswer], bound to the close buttons of
    questions and answers, and [removeGroup], which [ResultGroups]
    receives but never calls, C17), on a state that decodes and with a
    valid index, is a well-founded relation on states, and a run of valid
    removals from a state is never longer than the number of questions,
    answers and groups of its quiz. *)
Theorem removals_terminate json_parse :
  well_founded (removal_step json_parse) /\
  forall s z es, decode_state s = Some z -> Forall (fun e => is_removal e = true) es ->
    events_valid json_parse es s -> length es <= quiz_size z.
Proof.
  split; [apply (ed_class_step_wf _ _ quiz_size removal_size_decreases)|].
  intros s z es Hs Hr Hv. apply events_valid_ed in Hv.
  pose proof (ed_class_run_length _ _ quiz_size removal_size_decreases es s Hr Hv) as Hl.
  unfold ed_measure in Hl. simpl in Hl. by rewrite Hs in Hl.
Qed.

Lemma removals_terminate_witness :
  Acc (removal_step sample_parse) sample_state /\
  length [EvRemoveAnswer 0 1; EvRemoveAnswer 0 0; EvDeleteQuestion 0] <= quiz_size sample_quiz.
Proof.
  destruct (removals_terminate sample_parse) as [Hwf Hlen]. split; [apply Hwf|].
  apply (Hlen sample_state); [exact sample_state_decodes|repeat constructor|].
  cbn [events_valid]. split_and!; try exact I; eexists; (split; [reflexivity|]); cbn [valid_event].
  - eexists; split; [reflexivity|]; simpl; lia.
  - eexists; split; [reflexivity|]; simpl; lia.
  - simpl; lia.
Defined.
