(* ===== verification/View.v ===== *)
(** What [QuizBuilder.render] (src/static/js/QuizBuilder.jsx lines
    244-305) puts in the page and which handler each control calls: one
    [Question] element per question, whose props are the handlers bound to
    its index [i]; the title input; the "New question", "Shuffle answers"
    and "Load from JSON" buttons; the props of [ResultGroups]; and the
    JSON of the quiz, shown by [JSONViewer].  A bound handler is modelled
    as the [event] it triggers.

    [Question.jsx] is not among the sources: how it passes its props on to
    each [Answer] is modelled from the props' names ([answer_handlers]),
    so that the change handlers of [Answer] can be followed to the
    handler they reach. *)

From S2P Require Import Prelude Json Immutable Utils Schema Samples QuizBuilder Spec Refinement Invariants Answer Editor.
From stdpp Require Import pretty.

(** The props of one [Question] element. *)
Record question_props := mkQuestionProps {
  qp_question : value;
  qp_key : string;
  qp_index : nat;
  qp_onClose : event;
  qp_setText : string -> event;
  qp_setAnswerText : nat -> string -> event;
  qp_setAnswerCorrect : nat -> event;
  qp_setRevealText : string -> event;
  qp_setImageUrl : string -> event;
  qp_setAnswerImageUrl : nat -> string -> event;
  qp_removeAnswer : nat -> event;
  qp_reorder : nat -> nat -> event;
  qp_addAnswer : event
}.

(** [<Question question={question} key={`question_${i + 1}`} index={i}
    onClose={this.deleteQuestion(i)} ... addAnswer={this.addAnswer(i)} />] *)
Definition question_element (question : value) (i : nat) : question_props :=
  mkQuestionProps question ("question_" ++ pretty (S i)) i
    (EvDeleteQuestion i) (EvSetQuestionText i) (EvSetAnswerText i) (EvSetAnswerCorrect i)
    (EvSetRevealText i) (EvSetQuestionImageUrl i) (EvSetAnswerImageUrl i) (EvRemoveAnswer i)
    (EvReorderAnswers i) (EvAddAnswer i).

(** What the builder shows and what its controls call. *)
Record builder_view := mkBuilderView {
  bv_title : value;
  bv_onChangeTitle : string -> event;
  (** [None]: the paragraph "Add some questions to get started." *)
  bv_questions : option (list question_props);
  bv_onReorder : nat -> nat -> event;
  bv_addQuestion : event;
  bv_shuffleAnswers : (key -> list value -> list value) -> event;
  bv_groups : value;
  bv_numberOfQuestions : nat;
  bv_increaseMinScore : nat -> event;
  bv_decreaseMinScore : nat -> event;
  bv_addGroup : event;
  bv_removeGroup : nat -> event;
  bv_setGroupText : nat -> string -> event;
  bv_setGroupShare : nat -> string -> event;
  bv_json : value;
  bv_loadFromJSON : option string -> event
}.

Module QuizBuilderView.

  (** [render()].  [quiz.get('questions').map(...).toJS()] on a List
      gives the elements in order with [i] the position; a question
      collection that is not a List is not modelled (the schema admits
      only a List, and a Map would bind string keys): it is an error
      here.  [quiz.toJS()] is the quiz as a plain value. *)
Definition render (s : value) : res builder_view :=
    quiz <- jget (KStr "quiz") s ;;
    qs <- jget (KStr "questions") quiz ;;
    questions <- (match qs with
                  | VList xs => Ok (imap (fun i q => question_element q i) xs)
                  | _ => throw TypeError
                  end) ;;
    title <- jget (KStr "title") quiz ;;
    groups <- jget (KStr "resultGroups") quiz ;;
    Ok (mkBuilderView title EvChangeTitle
          (if bool_decide (0 < length questions) then Some questions else None)
          EvReorder EvAddQuestion EvShuffleAnswers
          groups (length questions)
          EvIncreaseGroupMinScore EvDecreaseGroupMinScore EvAddGroup EvRemoveGroup
          EvSetGroupText EvSetGroupShare
          quiz EvLoad).

End QuizBuilderView.

(** The handlers an [Answer] receives from its [Question] (Question.jsx,
    not among the sources, modelled from the prop names): for answer [j]
    of the question whose props are [p]. *)
Record answer_handlers := mkAnswerHandlers {
  ah_setText : string -> event;
  ah_setImageUrl : string -> event;
  ah_setReveal : string -> event;
  ah_setCorrect : event;
  ah_removeAnswer : event
}.

Definition answer_props (p : question_props) (j : nat) : answer_handlers :=
  mkAnswerHandlers (qp_setAnswerText p j) (qp_setAnswerImageUrl p j) (qp_setRevealText p)
    (qp_setAnswerCorrect p j) (qp_removeAnswer p j).

(** Every control of a question element sends an event that is valid in
    the quiz [z]: the question's own controls always, the controls of an
    answer when that answer exists, typing in an answer's fields through
    [Answer]'s change handlers included. *)
Definition element_events_valid (z : quiz) (p : question_props) : Prop :=
  valid_event z (qp_onClose p) /\ valid_event z (qp_addAnswer p) /\
  (forall t, valid_event z (qp_setText p t) /\ valid_event z (qp_setRevealText p t) /\
             valid_event z (qp_setImageUrl p t)) /\
  (forall from to, valid_event z (qp_reorder p from to)) /\
  (forall j, answer_exists (qp_index p) j z ->
     let ah := answer_props p j in
     valid_event z (ah_setCorrect ah) /\ valid_event z (ah_removeAnswer ah) /\
     forall t, valid_event z (Answer.handleChange (ah_setText ah) t) /\
               valid_event z (Answer.handleImageUrlChange (ah_setImageUrl ah) t) /\
               valid_event z (Answer.handleRevealChange (ah_setReveal ah) t)).

(** ** The view of a state that decodes *)

Lemma render_state kvs qkvs xs :
  kv_lookup (KStr "quiz") kvs = Some (VMap qkvs) -> kv_lookup (KStr "questions") qkvs = Some (VList xs) ->
  exists v, QuizBuilderView.render (VMap kvs) = Ok v /\
    bv_title v = default VUndef (kv_lookup (KStr "title") qkvs) /\
    bv_questions v = (if bool_decide (0 < length xs) then Some (imap (fun i q => question_element q i) xs) else None) /\
    bv_numberOfQuestions v = length xs /\
    bv_groups v = default VUndef (kv_lookup (KStr "resultGroups") qkvs) /\
    bv_json v = VMap qkvs.
Proof.
  intros Hq Hqs. unfold QuizBuilderView.render, jget. simpl. rewrite Hq. simpl. rewrite Hqs. simpl.
  eexists. split; [reflexivity|]. simpl. by rewrite length_imap.
Qed.

Lemma decoded_state_questions s z :
  decode_state s = Some z ->
  exists kvs qkvs xs, s = VMap kvs /\ kv_lookup (KStr "quiz") kvs = Some (VMap qkvs) /\
    decode_quiz (VMap qkvs) = Some z /\
    kv_lookup (KStr "questions") qkvs = Some (VList xs) /\ length xs = length (quiz_questions z).
Proof.
  intros Hs. destruct (decode_state_quiz _ _ Hs) as (kvs & qv & -> & Hq & Hz).
  pose proof Hz as Hz0. decoded_map Hz. destruct (decode_quiz_questions _ _ Hz) as (xs & Hl & Hm).
  exists kvs, kvs0, xs. split_and!; try done. by apply length_mapM in Hm.
Qed.

Lemma question_element_valid z q i :
  i < length (quiz_questions z) -> element_events_valid z (question_element q i).
Proof.
  intros Hi. unfold element_events_valid; cbn.
  split_and!; try done; intros; try split_and!; try done.
Qed.

(** [onChangeTitle(text)] on a state that decodes writes [title] into
    the quiz Map. *)
Lemma onChangeTitle_after t kvs qkvs :
  kv_lookup (KStr "quiz") kvs = Some (VMap qkvs) ->
  after (onChangeTitle t (VMap kvs)) = VMap (kv_set (KStr "quiz") (VMap (kv_set (KStr "title") (VStr t) qkvs)) kvs).
Proof.
  intros Hq. unfold onChangeTitle, updateQuiz, updateState.
  by rewrite (update_present _ _ _ (VMap qkvs)).
Qed.

(** C33 On every state that decodes, [render] succeeds; it shows one
    [Question] element per question (the "Add some questions" paragraph
    exactly when there is none), the element at position [i] has index
    [i], and every control of every element, the change handlers of its
    answers included, sends an event that is valid in the quiz shown. *)
Theorem render_binds_valid s z :
  decode_state s = Some z ->
  exists v, QuizBuilderView.render s = Ok v /\
    bv_numberOfQuestions v = length (quiz_questions z) /\
    (bv_questions v = None <-> quiz_questions z = []) /\
    forall i p, default [] (bv_questions v) !! i = Some p ->
      qp_index p = i /\ element_events_valid z p.
Proof.
  intros Hs. destruct (decoded_state_questions s z Hs) as (kvs & qkvs & xs & -> & Hq & _ & Hqs & Hlen).
  destruct (render_state kvs qkvs xs Hq Hqs) as (v & Hr & _ & Hv & Hn & _ & _).
  exists v. split_and!; [done|congruence| |].
  - rewrite Hv, <- length_zero_iff_nil, <- Hlen. case_bool_decide; split; (done || lia).
  - intros i p Hp. rewrite Hv in Hp. case_bool_decide; [|done]. simpl in Hp.
    rewrite list_lookup_imap in Hp. destruct (xs !! i) as [q|] eqn:Hi; [|done]. injection Hp as <-.
    split; [done|]. apply question_element_valid. rewrite <- Hlen. by eapply lookup_lt_Some.
Qed.

(** C34 Typing [t] in the title input ([onChangeTitle]) on a state that
    decodes: the title input then shows [t], and the JSON shown below the
    builder is a quiz that decodes to the same typed quiz as before (the
    typed view has no title). *)
Theorem title_shown_after_change t s z :
  decode_state s = Some z ->
  exists v, QuizBuilderView.render (after (onChangeTitle t s)) = Ok v /\
    bv_title v = VStr t /\ decode_quiz (bv_json v) = Some z.
Proof.
  intros Hs. destruct (decoded_state_questions s z Hs) as (kvs & qkvs & xs & -> & Hq & Hz & Hqs & _).
  rewrite (onChangeTitle_after t kvs qkvs Hq).
  destruct (render_state (kv_set (KStr "quiz") (VMap (kv_set (KStr "title") (VStr t) qkvs)) kvs)
              (kv_set (KStr "title") (VStr t) qkvs) xs) as (v & Hr & Ht & _ & _ & _ & Hj).
  - by rewrite kv_lookup_kv_set, decide_True.
  - by rewrite kv_lookup_kv_set, decide_False.
  - exists v. split_and!; [done| |].
    + by rewrite Ht, kv_lookup_kv_set, decide_True.
    + rewrite Hj. by apply decode_quiz_put_other.
Qed.

Lemma render_binds_valid_witness :
  decode_state sample_state = Some sample_quiz /\
  exists v, QuizBuilderView.render sample_state = Ok v /\ bv_numberOfQuestions v = 1 /\
    forall p, default [] (bv_questions v) !! 0 = Some p -> element_events_valid sample_quiz p.
Proof.
  split; [exact sample_state_decodes|].
  destruct (render_binds_valid sample_state sample_quiz sample_state_decodes) as (v & Hr & Hn & _ & Hp).
  exists v. split_and!; [exact Hr|rewrite Hn; reflexivity|]. intros p Hl. exact (proj2 (Hp 0 p Hl)).
Defined.

Lemma title_shown_after_change_witness :
  decode_state sample_state = Some sample_quiz /\
  exists v, QuizBuilderView.render (after (onChangeTitle "Capitals of Europe" sample_state)) = Ok v /\
    bv_title v = VStr "Capitals of Europe" /\ decode_quiz (bv_json v) = Some sample_quiz.
Proof.
  split; [exact sample_state_decodes|].
  exact (title_shown_after_change "Capitals of Europe" sample_state sample_quiz sample_state_decodes).
Defined.
