(* ===== verification/Bootstrap.v ===== *)
(** The entry point, src/static/js/bootstrap.js: it takes the first
    element of the page matching [.js-quiz-builder-placeholder] (qwery)
    and mounts a [QuizBuilder] there with no props.  Mounting runs the
    constructor, which builds the initial state with a fresh [uuid.v4()],
    and then [render].  React's [render] rejects a container that is not
    a DOM element with an invariant error; [qwery(...)[0]] is [undefined]
    when no element matches.

    [qwery] is a parameter (the page's elements that match a selector,
    in document order), as is the id [uuid.v4()] returns.  The composition
    [bootstrap] ties [initial_state] (QuizBuilder.v) to
    [QuizBuilderView.render] (View.v). *)

From S2P Require Import Prelude Json Immutable Utils Schema QuizBuilder Spec Refinement Invariants Editor View.

(** [const el = qwery('.js-quiz-builder-placeholder')[0];
    React.render(React.createElement(QuizBuilder, null), el);]: the
    element mounted on, the state the constructor builds, and the first
    view. *)
Definition bootstrap {E} (qwery : string -> list E) (id : string) : res (E * value * builder_view) :=
  match head (qwery ".js-quiz-builder-placeholder") with
  | None => throw InvariantViolation
  | Some el =>
      let state := initial_state id in
      v <- QuizBuilderView.render state ;;
      Ok (el, state, v)
  end.

