(* ===== verification/Handlers.v ===== *)
(** What each handler of src/static/js/QuizBuilder.jsx guarantees on a
    well-formed document: run on a state that decodes to a quiz whose
    questions each have exactly one correct answer (or none) and whose
    result groups are in descending order of score, the handler does not
    throw, the new state decodes to the abstract operation of [Spec], the
    two invariants still hold, and the fact the handler exists for is
    true of the new document.  The witnesses run the handlers on
    [sample_state], a one-question quiz with two result groups. *)

From S2P Require Import Prelude Json Sort Immutable Utils Schema QuizBuilder Spec Refinement Invariants Editor Samples.

(** Apply [handler_ok] to a handler's refinement theorem and its event. *)
Ltac handler_ok_tac impl ev :=
  lazymatch goal with
  | Hs : decode_state ?s = Some ?z |- _ =>
      eapply (handler_ok _ _ _ ev s z impl eq_refl eq_refl Hs); eauto using answer_exists_question
  end.

(** ** Shared steps *)

Lemma sample_quiz_ok : quiz_ok sample_quiz.
Proof. by apply (bool_decide_unpack _). Qed.

#[export] Hint Resolve sample_state_decodes sample_quiz_ok : quiz.

Lemma lookup_map_question n f z :
  quiz_questions (map_question n f z) !! n = f <$> quiz_questions z !! n.
Proof. apply list_lookup_alter_eq. Qed.

Lemma lookup_map_question_ne n m f z :
  n <> m -> quiz_questions (map_question n f z) !! m = quiz_questions z !! m.
Proof. apply list_lookup_alter_ne. Qed.

(** ** Answers *)

(** C7 [removeAnswer(questionNumber)(answerNumber)]: on a well-formed
    document, with indices of an existing question and answer, the
    handler does not throw, the new document is the abstract
    [a_removeAnswer], both invariants still hold (in particular the
    question keeps exactly one correct answer when answers remain), and
    the question has one answer less. *)
Theorem removeAnswer_correct n i s z q :
  decode_state s = Some z -> quiz_questions z !! n = Some q -> i < length (question_answers q) ->
  quiz_ok z ->
  thrown (removeAnswer n i s) = None /\
  decode_state (after (removeAnswer n i s)) = Some (a_removeAnswer n i z) /\
  quiz_ok (a_removeAnswer n i z) /\
  exists q', quiz_questions (a_removeAnswer n i z) !! n = Some q' /\
             length (question_answers q') = length (question_answers q) - 1.
Proof.
  intros Hs Hq Hi Hok. assert (Hv : answer_exists n i z) by (exists q; done).
  split_and!; try by handler_ok_tac (removeAnswer_implements n i) (EvRemoveAnswer n i).
  eexists; split; [unfold a_removeAnswer; by rewrite lookup_map_question, Hq|].
  simpl. rewrite length_ensure_correct. apply length_delete, lookup_lt_is_Some_2, Hi.
Qed.

(** C8 [setAnswerCorrect(questionNumber)(answerNumber)]: the handler does
    not throw, the new document is [a_setAnswerCorrect], both invariants
    hold, and in the question the answer at [answerNumber] is the one and
    only correct answer, the others keeping their place. *)
Theorem setAnswerCorrect_correct n i s z q :
  decode_state s = Some z -> quiz_questions z !! n = Some q -> i < length (question_answers q) ->
  quiz_ok z ->
  thrown (setAnswerCorrect n i s) = None /\
  decode_state (after (setAnswerCorrect n i s)) = Some (a_setAnswerCorrect n i z) /\
  quiz_ok (a_setAnswerCorrect n i z) /\
  exists q', quiz_questions (a_setAnswerCorrect n i z) !! n = Some q' /\
             length (question_answers q') = length (question_answers q) /\
             forall j a, question_answers q' !! j = Some a -> answer_correct a = bool_decide (j = i).
Proof.
  intros Hs Hq Hi Hok. assert (Hv : answer_exists n i z) by (exists q; done).
  split_and!; try by handler_ok_tac (setAnswerCorrect_implements n i) (EvSetAnswerCorrect n i).
  eexists; split; [unfold a_setAnswerCorrect; by rewrite lookup_map_question, Hq|]. simpl.
  split; [apply length_imap|]. intros j a. rewrite list_lookup_imap.
  by intros (a0 & _ & ->)%fmap_Some.
Qed.

(** C9 [addAnswer(questionNumber)]: the handler does not throw, the new
    document is [a_addAnswer], both invariants hold, and the question
    gains one answer at its end, correct exactly when it is the first. *)
Theorem addAnswer_correct n s z q :
  decode_state s = Some z -> quiz_questions z !! n = Some q -> quiz_ok z ->
  thrown (addAnswer n s) = None /\
  decode_state (after (addAnswer n s)) = Some (a_addAnswer n z) /\
  quiz_ok (a_addAnswer n z) /\
  exists q', quiz_questions (a_addAnswer n z) !! n = Some q' /\
             length (question_answers q') = S (length (question_answers q)) /\
             question_answers q' !! length (question_answers q) =
               Some (mkAnswer "" "" (bool_decide (question_answers q = []))).
Proof.
  intros Hs Hq Hok. assert (Hv : n < length (quiz_questions z)) by (by eapply lookup_lt_Some).
  split_and!; try by handler_ok_tac (addAnswer_implements n) (EvAddAnswer n).
  eexists; split; [unfold a_addAnswer; by rewrite lookup_map_question, Hq|]. simpl.
  rewrite length_app; simpl. split; [lia|]. apply list_lookup_middle. done.
Qed.

(** ** Result groups *)

(** C12 [addGroup]: the handler does not throw, the new document is
    [a_addGroup], both invariants hold, and the groups gain one empty
    group in front whose score is one more than the greatest score: above
    every other score and one more than one of them (0 when it is the
    first group). *)
Theorem addGroup_correct s z :
  decode_state s = Some z -> quiz_ok z ->
  thrown (addGroup s) = None /\
  decode_state (after (addGroup s)) = Some (a_addGroup z) /\
  quiz_ok (a_addGroup z) /\
  exists g, quiz_groups (a_addGroup z) = g :: quiz_groups z /\
            group_title g = "" /\ group_share g = "" /\
            Forall (fun g' => group_minScore g' < group_minScore g)%Z (quiz_groups z) /\
            (quiz_groups z <> [] -> exists g', g' ∈ quiz_groups z /\ group_minScore g = (group_minScore g' + 1)%Z) /\
            (quiz_groups z = [] -> group_minScore g = 0%Z).
Proof.
  intros Hs Hok.
  split_and!; try by handler_ok_tac addGroup_implements EvAddGroup.
  destruct (new_score_spec (quiz_groups z)) as (H0 & Hlt & Hmax). by eexists.
Qed.

(** What a score change does to the groups: the changed group, then a
    stable re-sort. *)
Lemma change_score_groups i d z g :
  quiz_groups z !! i = Some g ->
  let gs' := <[i := mkGroup (group_title g) (group_share g) (group_minScore g + d)]> (quiz_groups z) in
  quiz_groups (a_changeGroupMinScore i d z) ≡ₚ gs' /\
  forall m, filter (fun g => group_minScore g = m) (quiz_groups (a_changeGroupMinScore i d z)) =
            filter (fun g => group_minScore g = m) gs'.
Proof.
  intros Hg gs'. unfold a_changeGroupMinScore, a_reSortGroups, map_group. simpl.
  rewrite (list_alter_lookup _ _ _ _ Hg).
  split; [apply sort_groups_perm|intros m; apply sort_groups_stable].
Qed.

(** C10 [increaseGroupMinScore(index)]: the handler does not throw, the new
    document is [a_changeGroupMinScore index 1], both invariants hold (the
    groups are in order again), and its groups are the old ones with one
    more point on group [index], re-sorted stably: a permutation that
    keeps the order of the groups of each score. *)
Theorem increaseGroupMinScore_correct i s z g :
  decode_state s = Some z -> quiz_groups z !! i = Some g -> quiz_ok z ->
  let gs' := <[i := mkGroup (group_title g) (group_share g) (group_minScore g + 1)]> (quiz_groups z) in
  thrown (increaseGroupMinScore i s) = None /\
  decode_state (after (increaseGroupMinScore i s)) = Some (a_changeGroupMinScore i 1 z) /\
  quiz_ok (a_changeGroupMinScore i 1 z) /\
  quiz_groups (a_changeGroupMinScore i 1 z) ≡ₚ gs' /\
  forall m, filter (fun g => group_minScore g = m) (quiz_groups (a_changeGroupMinScore i 1 z)) =
            filter (fun g => group_minScore g = m) gs'.
Proof.
  intros Hs Hg Hok gs'. assert (Hv : i < length (quiz_groups z)) by (by eapply lookup_lt_Some).
  split_and!; try by handler_ok_tac (increaseGroupMinScore_implements i) (EvIncreaseGroupMinScore i).
  all: by apply change_score_groups.
Qed.

(** C11 [decreaseGroupMinScore(index)]: as [increaseGroupMinScore], with
    one point less on group [index]. *)
Theorem decreaseGroupMinScore_correct i s z g :
  decode_state s = Some z -> quiz_groups z !! i = Some g -> quiz_ok z ->
  let gs' := <[i := mkGroup (group_title g) (group_share g) (group_minScore g - 1)]> (quiz_groups z) in
  thrown (decreaseGroupMinScore i s) = None /\
  decode_state (after (decreaseGroupMinScore i s)) = Some (a_changeGroupMinScore i (-1) z) /\
  quiz_ok (a_changeGroupMinScore i (-1) z) /\
  quiz_groups (a_changeGroupMinScore i (-1) z) ≡ₚ gs' /\
  forall m, filter (fun g => group_minScore g = m) (quiz_groups (a_changeGroupMinScore i (-1) z)) =
            filter (fun g => group_minScore g = m) gs'.
Proof.
  intros Hs Hg Hok gs'. assert (Hv : i < length (quiz_groups z)) by (by eapply lookup_lt_Some).
  split_and!; try by handler_ok_tac (decreaseGroupMinScore_implements i) (EvDecreaseGroupMinScore i).
  all: apply (change_score_groups i (-1)%Z z g Hg).
Qed.

(** ** Reordering and shuffling *)

(** C13 [reorder(dragIndex, dropIndex)]: the handler does not throw, the
    new document is [a_reorder], both invariants hold, the questions are
    permuted with the dragged question at [dropIndex], and dragging it
    back restores the document. *)
Theorem reorder_correct from to s z :
  decode_state s = Some z -> from < length (quiz_questions z) -> to < length (quiz_questions z) ->
  quiz_ok z ->
  thrown (reorder from to s) = None /\
  decode_state (after (reorder from to s)) = Some (a_reorder from to z) /\
  quiz_ok (a_reorder from to z) /\
  quiz_questions (a_reorder from to z) ≡ₚ quiz_questions z /\
  quiz_questions (a_reorder from to z) !! to = quiz_questions z !! from /\
  a_reorder to from (a_reorder from to z) = z.
Proof.
  intros Hs Hf Ht Hok.
  split_and!; try by handler_ok_tac (reorder_implements from to) (EvReorder from to).
  - apply list_move_perm.
  - by apply list_move_lookup.
  - destruct z. unfold a_reorder, with_questions. simpl. by rewrite list_move_back.
Qed.

(** C14 [reorderAnswers(questionNumber)(dragIndex, dropIndex)]: the handler
    does not throw, the new document is [a_reorderAnswers], both
    invariants hold, and the answers of the question are permuted with the
    dragged answer at [dropIndex]. *)
Theorem reorderAnswers_correct n from to s z q :
  decode_state s = Some z -> quiz_questions z !! n = Some q ->
  from < length (question_answers q) -> to < length (question_answers q) -> quiz_ok z ->
  thrown (reorderAnswers n from to s) = None /\
  decode_state (after (reorderAnswers n from to s)) = Some (a_reorderAnswers n from to z) /\
  quiz_ok (a_reorderAnswers n from to z) /\
  exists q', quiz_questions (a_reorderAnswers n from to z) !! n = Some q' /\
             question_answers q' ≡ₚ question_answers q /\
             question_answers q' !! to = question_answers q !! from.
Proof.
  intros Hs Hq Hf Ht Hok. assert (Hv : n < length (quiz_questions z)) by (by eapply lookup_lt_Some).
  split_and!; try by handler_ok_tac (reorderAnswers_implements n from to) (EvReorderAnswers n from to).
  eexists; split; [unfold a_reorderAnswers; by rewrite lookup_map_question, Hq|]. simpl.
  split; [apply list_move_perm|by apply list_move_lookup].
Qed.

(** C15 [shuffleAnswers]: whatever permutations lodash [shuffle] returns,
    the handler does not throw, the new document differs from the old one
    only in the order of each question's answers, and both invariants
    hold. *)
Theorem shuffleAnswers_correct (rand : key -> list value -> list value) s z :
  (forall k xs, rand k xs ≡ₚ xs) -> decode_state s = Some z -> quiz_ok z ->
  thrown (shuffleAnswers rand s) = None /\
  exists z', decode_state (after (shuffleAnswers rand s)) = Some z' /\ a_shuffled z z' /\ quiz_ok z'.
Proof.
  intros Hr Hs [Ha Hg]. destruct (shuffleAnswers_refines rand Hr s z Hs) as (Ht & z' & Hd & Hsh).
  split; [done|]. exists z'. split; [done|]. split; [done|]. split.
  - by eapply (abs_step_answers z (EvShuffleAnswers rand)), abs_shuffle.
  - by eapply (abs_step_groups z (EvShuffleAnswers rand)), abs_shuffle.
Qed.

(** ** The title *)

(** C20 [onChangeTitle]: the handler writes the key [title] of the quiz,
    which the schema does not have: the state does change (the input
    shows the new text), but the document the schema reads, its
    [header.titleText] included, stays the same. *)
Theorem onChangeTitle_correct t s z :
  decode_state s = Some z ->
  thrown (onChangeTitle t s) = None /\
  decode_state (after (onChangeTitle t s)) = Some z /\
  path_get (after (onChangeTitle t s)) [KStr "quiz"; KStr "title"] = Some (VStr t).
Proof.
  intros Hs. destruct (onChangeTitle_implements t s z Hs I) as [Ht Hd].
  split_and!; [done|done|].
  destruct (decode_state_quiz _ _ Hs) as (kvs & qv & -> & Hq & Hz). decoded_map Hz.
  unfold onChangeTitle, updateQuiz, updateState.
  rewrite (update_present _ _ _ (VMap kvs0)) by done. simpl.
  rewrite kv_lookup_kv_set, decide_True by done. simpl.
  by rewrite kv_lookup_kv_set, decide_True.
Qed.

(** ** Questions and field edits *)

(** C23 [addQuestion]: the handler does not throw, the new document is
    [a_addQuestion], both invariants hold, and one question with empty
    texts and no answer is appended. *)
Theorem addQuestion_correct s z :
  decode_state s = Some z -> quiz_ok z ->
  thrown (addQuestion s) = None /\
  decode_state (after (addQuestion s)) = Some (a_addQuestion z) /\
  quiz_ok (a_addQuestion z) /\
  quiz_questions (a_addQuestion z) = quiz_questions z ++ [mkQuestion "" "" "" []].
Proof.
  intros Hs Hok. split_and!; try by handler_ok_tac addQuestion_implements EvAddQuestion.
  reflexivity.
Qed.

(** C24 [deleteQuestion(i)]: the handler does not throw, the new document
    is [a_deleteQuestion], both invariants hold, and exactly question [i]
    is gone. *)
Theorem deleteQuestion_correct n s z :
  decode_state s = Some z -> n < length (quiz_questions z) -> quiz_ok z ->
  thrown (deleteQuestion n s) = None /\
  decode_state (after (deleteQuestion n s)) = Some (a_deleteQuestion n z) /\
  quiz_ok (a_deleteQuestion n z) /\
  quiz_questions (a_deleteQuestion n z) = take n (quiz_questions z) ++ drop (S n) (quiz_questions z).
Proof.
  intros Hs Hn Hok. split_and!; try by handler_ok_tac (deleteQuestion_implements n) (EvDeleteQuestion n).
  apply delete_take_drop.
Qed.

(** C25 [setAnswerText(questionNumber)(answerNumber)]: the handler does
    not throw, the new document is [a_setAnswerText], both invariants
    hold, and only the text of that answer changes: its image and
    correctness stay, and so do the other answers. *)
Theorem setAnswerText_correct n i t s z q a :
  decode_state s = Some z -> quiz_questions z !! n = Some q -> question_answers q !! i = Some a ->
  quiz_ok z ->
  thrown (setAnswerText n i t s) = None /\
  decode_state (after (setAnswerText n i t s)) = Some (a_setAnswerText n i t z) /\
  quiz_ok (a_setAnswerText n i t z) /\
  exists q', quiz_questions (a_setAnswerText n i t z) !! n = Some q' /\
    question_answers q' = <[i := mkAnswer t (answer_imageUrl a) (answer_correct a)]> (question_answers q).
Proof.
  intros Hs Hq Ha Hok.
  assert (Hv : answer_exists n i z) by (exists q; split; [done|by eapply lookup_lt_Some]).
  split_and!; try by handler_ok_tac (setAnswerText_implements n i t) (EvSetAnswerText n i t).
  eexists; split; [unfold a_setAnswerText; by rewrite lookup_map_question, Hq|].
  simpl. by rewrite (list_alter_lookup _ _ _ _ Ha).
Qed.

(** C26 [removeGroup(index)]: the handler does not throw, the new
    document is [a_removeGroup], both invariants hold (the remaining
    groups are still in order), and exactly group [index] is gone. *)
Theorem removeGroup_correct i s z :
  decode_state s = Some z -> i < length (quiz_groups z) -> quiz_ok z ->
  thrown (removeGroup i s) = None /\
  decode_state (after (removeGroup i s)) = Some (a_removeGroup i z) /\
  quiz_ok (a_removeGroup i z) /\
  quiz_groups (a_removeGroup i z) = take i (quiz_groups z) ++ drop (S i) (quiz_groups z).
Proof.
  intros Hs Hi Hok. split_and!; try by handler_ok_tac (removeGroup_implements i) (EvRemoveGroup i).
  apply delete_take_drop.
Qed.

(** C27 [setGroupText(index)]: the handler does not throw, the new
    document is [a_setGroupText], both invariants hold, and only the
    title of group [index] changes: every score stays where it was. *)
Theorem setGroupText_correct i t s z g :
  decode_state s = Some z -> quiz_groups z !! i = Some g -> quiz_ok z ->
  thrown (setGroupText i t s) = None /\
  decode_state (after (setGroupText i t s)) = Some (a_setGroupText i t z) /\
  quiz_ok (a_setGroupText i t z) /\
  quiz_groups (a_setGroupText i t z) = <[i := mkGroup t (group_share g) (group_minScore g)]> (quiz_groups z).
Proof.
  intros Hs Hg Hok. assert (Hv : i < length (quiz_groups z)) by (by eapply lookup_lt_Some).
  split_and!; try by handler_ok_tac (setGroupText_implements i t) (EvSetGroupText i t).
  simpl. by rewrite (list_alter_lookup _ _ _ _ Hg).
Qed.

(** ** Indices out of range *)

Lemma mapM_None_elem {A B} (f : A -> option B) l x : x ∈ l -> f x = None -> mapM f l = None.
Proof.
  intros Hx Hf. destruct (mapM f l) eqn:Hm; [|done]. apply mapM_Some in Hm.
  apply list_elem_of_lookup in Hx as [i Hi].
  destruct (Forall2_lookup_l _ _ _ _ _ Hm Hi) as (y & _ & Hy). congruence.
Qed.

Lemma decode_quiz_bad_questions kvs qs :
  kv_lookup (KStr "questions") kvs = Some (VList qs) -> mapM decode_question qs = None ->
  decode_quiz (VMap kvs) = None.
Proof.
  intros Hl Hm. destruct (decode_quiz (VMap kvs)) eqn:Hz; [|done].
  destruct (decode_quiz_questions _ _ Hz) as (qs' & Hl' & Hm'). congruence.
Qed.

(** The question list of a decoded state, past its end. *)
Lemma decoded_questions_past s z n :
  decode_state s = Some z -> length (quiz_questions z) <= n ->
  exists kvs qkvs qs, s = VMap kvs /\ kv_lookup (KStr "quiz") kvs = Some (VMap qkvs) /\
    kv_lookup (KStr "questions") qkvs = Some (VList qs) /\ qs !! n = None.
Proof.
  intros Hs Hn. destruct (decode_state_quiz _ _ Hs) as (kvs & qv & -> & Hq & Hz). decoded_map Hz.
  destruct (decode_quiz_questions _ _ Hz) as (qs & Hl & Hm). apply length_mapM in Hm.
  exists kvs, kvs0, qs. split_and!; [done|done|done|]. apply lookup_ge_None_2. lia.
Qed.

(** C21 [setQuestionText(i)] with no question [i]: the updater gets
    [undefined], whose [set] throws a TypeError, and the state stays as
    it was.  [render] only binds existing indices, so the UI cannot get
    here. *)
Theorem setQuestionText_out_of_range n t s z :
  decode_state s = Some z -> length (quiz_questions z) <= n ->
  setQuestionText n t s = mkRun s (Some TypeError).
Proof.
  intros Hs Hn. destruct (decoded_questions_past s z n Hs Hn) as (kvs & qkvs & qs & -> & Hq & Hl & Hnone).
  unfold setQuestionText, updateQuiz, updateState.
  rewrite (update_present _ _ _ (VMap qkvs)) by done.
  unfold updateIn. simpl. rewrite Hl. simpl. by rewrite Hnone.
Qed.

(** C22 [setRevealText(i)] with no question [i]: [setIn] does not throw;
    it pads the question list with [undefined] up to [i] and puts a Map
    holding only [more] there, so the state no longer decodes to a quiz. *)
Theorem setRevealText_out_of_range n t s z :
  decode_state s = Some z -> length (quiz_questions z) <= n ->
  thrown (setRevealText n t s) = None /\ decode_state (after (setRevealText n t s)) = None.
Proof.
  intros Hs Hn. destruct (decoded_questions_past s z n Hs Hn) as (kvs & qkvs & qs & -> & Hq & Hl & Hnone).
  unfold setRevealText, updateQuiz, updateState.
  rewrite (update_present _ _ _ (VMap qkvs)) by done.
  unfold setIn. simpl. rewrite Hl. simpl. rewrite Hnone. simpl. split; [done|].
  unfold decode_state. simpl. rewrite kv_lookup_kv_set, decide_True by done. simpl.
  apply (decode_quiz_bad_questions _ (list_set n (VMap [(KStr "more", VStr t)]) qs)).
  - by rewrite kv_lookup_kv_set, decide_True.
  - apply (mapM_None_elem _ _ (VMap [(KStr "more", VStr t)])); [|done].
    rewrite list_set_ge by (apply lookup_ge_None_1 in Hnone; lia). set_solver.
Qed.

(** ** Witnesses: the handlers run on [sample_state] *)

Lemma removeAnswer_correct_witness :
  thrown (removeAnswer 0 1 sample_state) = None /\
  decode_state (after (removeAnswer 0 1 sample_state)) = Some (a_removeAnswer 0 1 sample_quiz).
Proof.
  destruct (removeAnswer_correct 0 1 sample_state sample_quiz _ sample_state_decodes eq_refl
              ltac:(simpl; lia) sample_quiz_ok) as (H1 & H2 & _).
  exact (conj H1 H2).
Defined.

Lemma setAnswerCorrect_correct_witness :
  thrown (setAnswerCorrect 0 1 sample_state) = None /\
  decode_state (after (setAnswerCorrect 0 1 sample_state)) = Some (a_setAnswerCorrect 0 1 sample_quiz).
Proof.
  destruct (setAnswerCorrect_correct 0 1 sample_state sample_quiz _ sample_state_decodes eq_refl
              ltac:(simpl; lia) sample_quiz_ok) as (H1 & H2 & _).
  exact (conj H1 H2).
Defined.

Lemma addAnswer_correct_witness :
  thrown (addAnswer 0 sample_state) = None /\
  decode_state (after (addAnswer 0 sample_state)) = Some (a_addAnswer 0 sample_quiz).
Proof.
  destruct (addAnswer_correct 0 sample_state sample_quiz _ sample_state_decodes eq_refl sample_quiz_ok)
    as (H1 & H2 & _).
  exact (conj H1 H2).
Defined.

Lemma addGroup_correct_witness :
  thrown (addGroup sample_state) = None /\
  decode_state (after (addGroup sample_state)) = Some (a_addGroup sample_quiz).
Proof.
  destruct (addGroup_correct sample_state sample_quiz sample_state_decodes sample_quiz_ok) as (H1 & H2 & _).
  exact (conj H1 H2).
Defined.

Lemma increaseGroupMinScore_correct_witness :
  thrown (increaseGroupMinScore 1 sample_state) = None /\
  decode_state (after (increaseGroupMinScore 1 sample_state)) = Some (a_changeGroupMinScore 1 1 sample_quiz).
Proof.
  destruct (increaseGroupMinScore_correct 1 sample_state sample_quiz _ sample_state_decodes eq_refl
              sample_quiz_ok) as (H1 & H2 & _).
  exact (conj H1 H2).
Defined.

Lemma decreaseGroupMinScore_correct_witness :
  thrown (decreaseGroupMinScore 0 sample_state) = None /\
  decode_state (after (decreaseGroupMinScore 0 sample_state)) = Some (a_changeGroupMinScore 0 (-1) sample_quiz).
Proof.
  destruct (decreaseGroupMinScore_correct 0 sample_state sample_quiz _ sample_state_decodes eq_refl
              sample_quiz_ok) as (H1 & H2 & _).
  exact (conj H1 H2).
Defined.

Lemma reorder_correct_witness :
  thrown (reorder 0 0 sample_state) = None /\
  decode_state (after (reorder 0 0 sample_state)) = Some (a_reorder 0 0 sample_quiz).
Proof.
  destruct (reorder_correct 0 0 sample_state sample_quiz sample_state_decodes
              ltac:(simpl; lia) ltac:(simpl; lia) sample_quiz_ok) as (H1 & H2 & _).
  exact (conj H1 H2).
Defined.

Lemma reorderAnswers_correct_witness :
  thrown (reorderAnswers 0 0 1 sample_state) = None /\
  decode_state (after (reorderAnswers 0 0 1 sample_state)) = Some (a_reorderAnswers 0 0 1 sample_quiz).
Proof.
  destruct (reorderAnswers_correct 0 0 1 sample_state sample_quiz _ sample_state_decodes eq_refl
              ltac:(simpl; lia) ltac:(simpl; lia) sample_quiz_ok) as (H1 & H2 & _).
  exact (conj H1 H2).
Defined.

Lemma shuffleAnswers_correct_witness :
  thrown (shuffleAnswers (fun _ xs => rev xs) sample_state) = None.
Proof.
  exact (proj1 (shuffleAnswers_correct (fun _ xs => rev xs) sample_state sample_quiz
                  (fun _ xs => symmetry (Permutation_rev xs)) sample_state_decodes sample_quiz_ok)).
Defined.

Lemma onChangeTitle_correct_witness :
  decode_state (after (onChangeTitle "Capitals of Europe" sample_state)) = Some sample_quiz.
Proof.
  exact (proj1 (proj2 (onChangeTitle_correct "Capitals of Europe" sample_state sample_quiz
                         sample_state_decodes))).
Defined.

Lemma setQuestionText_out_of_range_witness :
  setQuestionText 1 "Spain?" sample_state = mkRun sample_state (Some TypeError).
Proof.
  exact (setQuestionText_out_of_range 1 "Spain?" sample_state sample_quiz sample_state_decodes
           ltac:(simpl; lia)).
Defined.

Lemma setRevealText_out_of_range_witness :
  decode_state (after (setRevealText 2 "Madrid" sample_state)) = None.
Proof.
  exact (proj2 (setRevealText_out_of_range 2 "Madrid" sample_state sample_quiz sample_state_decodes
                  ltac:(simpl; lia))).
Defined.

Lemma addQuestion_correct_witness :
  decode_state (after (addQuestion sample_state)) = Some (a_addQuestion sample_quiz).
Proof.
  exact (proj1 (proj2 (addQuestion_correct sample_state sample_quiz sample_state_decodes sample_quiz_ok))).
Defined.

Lemma deleteQuestion_correct_witness :
  decode_state (after (deleteQuestion 0 sample_state)) = Some (a_deleteQuestion 0 sample_quiz).
Proof.
  exact (proj1 (proj2 (deleteQuestion_correct 0 sample_state sample_quiz sample_state_decodes
                         ltac:(simpl; lia) sample_quiz_ok))).
Defined.

Lemma setAnswerText_correct_witness :
  decode_state (after (setAnswerText 0 1 "Marseille" sample_state)) =
  Some (a_setAnswerText 0 1 "Marseille" sample_quiz).
Proof.
  exact (proj1 (proj2 (setAnswerText_correct 0 1 "Marseille" sample_state sample_quiz _ _
                         sample_state_decodes eq_refl eq_refl sample_quiz_ok))).
Defined.

Lemma removeGroup_correct_witness :
  decode_state (after (removeGroup 1 sample_state)) = Some (a_removeGroup 1 sample_quiz).
Proof.
  exact (proj1 (proj2 (removeGroup_correct 1 sample_state sample_quiz sample_state_decodes
                         ltac:(simpl; lia) sample_quiz_ok))).
Defined.

Lemma setGroupText_correct_witness :
  decode_state (after (setGroupText 0 "Well done" sample_state)) =
  Some (a_setGroupText 0 "Well done" sample_quiz).
Proof.
  exact (proj1 (proj2 (setGroupText_correct 0 "Well done" sample_state sample_quiz _
                         sample_state_decodes eq_refl sample_quiz_ok))).
Defined.
