(* ===== verification/ResultGroups.v ===== *)
(** The messaging section, src/lib/ResultGroups.jsx: what [ResultGroups]
    renders for the result groups of the state, and what its buttons do.

    [ResultGroups.render] sorts the groups it is given again, by
    [on(group => -group.get('minScore'))], and flags a group whose
    [minScore] is above the number of questions.  Its "Add group" button
    calls [onAddGroup] and each group's close button
    [ResultGroup.removeGroup]; both only log to the console.  The props
    [addGroup], [removeGroup], [setGroupText], [setGroupShare],
    [increaseMinScore] and [decreaseMinScore] that [QuizBuilder.render]
    passes are never called, and the two text areas have no [onChange]:
    from the UI, the result groups change only through an import. *)

From S2P Require Import Prelude Json Sort Immutable Utils Schema QuizBuilder Spec Refinement Invariants Editor Samples ElasticTextArea View.

(** JS [a > b] on the values a group holds: numeric comparison after
    [ToNumber], false when either side is NaN. *)
Definition js_gt (a b : value) : bool := num_ltb (to_number b) (to_number a).

(** What one [ResultGroup] shows: its class names, the score in the
    [min-score] div, and the values of its two text areas. *)
Record group_view := mkGroupView {
  view_classes : list string;
  view_minScore : value;
  view_title : value;
  view_share : value
}.

Module ResultGroup.

  (** [classnames({'quiz-builder__result-group': true,
      'quiz-builder__result-group--error': isError})] and the three
      [group.get] of the markup. *)
Definition render (group : value) (isError : bool) : res group_view :=
    m <- jget (KStr "minScore") group ;;
    t <- jget (KStr "title") group ;;
    sh <- jget (KStr "share") group ;;
    Ok (mkGroupView ("quiz-builder__result-group" ::
                     (if isError then ["quiz-builder__result-group--error"] else [])) m t sh).

  (** The two [ElasticTextArea]s of a group: the title and the share,
      with a class, a value and a placeholder, and no [onChange]; React
      keeps this.state at [null] for the text area. *)
Definition textAreas (group : value) : res (eta_view * eta_view) :=
    t <- jget (KStr "title") group ;;
    sh <- jget (KStr "share") group ;;
    Ok (ElasticTextArea.render [(KStr "className", VStr "quiz-builder__answer-text"); (KStr "value", t);
                                (KStr "placeholder", VStr "Enter message text here ...")] VNull,
        ElasticTextArea.render [(KStr "className", VStr "quiz-builder__answer-text"); (KStr "value", sh);
                                (KStr "placeholder", VStr "Enter share text here ...")] VNull).

  (** [removeGroup() { console.log("remove group"); }]: the state of the
      builder is left as it is. *)
Definition removeGroup (s : value) : value := s.

End ResultGroup.

Module ResultGroups.

  (** [onAddGroup() { console.log("add group"); }] *)
Definition onAddGroup (s : value) : value := s.

  (** [render()]: the groups sorted by descending score, each with
      [isError = group.get('minScore') > numberOfQuestions]; [None] is the
      paragraph "Add some messaging to get started." shown when the
      mapped List is empty ([groups.length] is Immutable 3's deprecated
      alias of [size]). *)
Definition render (groups : value) (numberOfQuestions : nat) : res (option (list group_view)) :=
    sorted <- jsort minScoreKey groups ;;
    xs <- toJS_values sorted ;;
    views <- res_mapM (fun group =>
               m <- jget (KStr "minScore") group ;;
               ResultGroup.render group (js_gt m (VInt (Z.of_nat numberOfQuestions)))) xs ;;
    Ok (match views with [] => None | _ => Some views end).

End ResultGroups.

(** What the messaging section shows for a typed group. *)
Definition view_of_group (numberOfQuestions : nat) (g : group) : group_view :=
  mkGroupView ("quiz-builder__result-group" ::
               (if bool_decide (Z.of_nat numberOfQuestions < group_minScore g)%Z
                then ["quiz-builder__result-group--error"] else []))
    (VInt (group_minScore g)) (VStr (group_title g)) (VStr (group_share g)).

(** ** The UI as it is wired *)

(** The handlers [render] reaches: everything but the six group
    handlers, which only [ResultGroups] could call. *)
Definition wired (e : event) : bool :=
  match e with
  | EvAddGroup | EvRemoveGroup _ | EvSetGroupText _ _ | EvSetGroupShare _ _
  | EvDecreaseGroupMinScore _ | EvIncreaseGroupMinScore _ => false
  | _ => true
  end.

(** A user action: an event of a wired handler, or a click on one of the
    two buttons of the messaging section. *)
Inductive ui_action :=
| UiEvent (e : event)
| UiAddGroupClick
| UiRemoveGroupClick (index : nat).

Section UI.
  Variable json_parse : string -> option value.

Definition ui_handle (a : ui_action) (s : value) : value :=
    match a with
    | UiEvent e => handle json_parse e s
    | UiAddGroupClick => ResultGroups.onAddGroup s
    | UiRemoveGroupClick _ => ResultGroup.removeGroup s
    end.

Definition ui_valid (allowed : event -> Prop) (z : quiz) (a : ui_action) : Prop :=
    match a with
    | UiEvent e => wired e = true /\ allowed e /\ valid_event z e
    | _ => True
    end.

  (** The states reached from the initial state by user actions. *)
Inductive ui_reachable (allowed : event -> Prop) : value -> Prop :=
  | ui_reachable_init id : ui_reachable allowed (initial_state id)
  | ui_reachable_step s z a :
      ui_reachable allowed s -> decode_state s = Some z -> ui_valid allowed z a ->
      ui_reachable allowed (ui_handle a s).
End UI.

(** ** Rendering the groups of a decoded state *)

Lemma as_str_Some v t : as_str v = Some t -> v = VStr t.
Proof. destruct v; simpl; congruence. Qed.

Lemma decode_group_fields kvs g :
  decode_group (VMap kvs) = Some g ->
  kv_lookup (KStr "title") kvs = Some (VStr (group_title g)) /\
  kv_lookup (KStr "share") kvs = Some (VStr (group_share g)) /\
  kv_lookup (KStr "minScore") kvs = Some (VInt (group_minScore g)).
Proof.
  intros Hg. split_and!; [| |by apply decode_group_minScore].
  all: unfold decode_group in Hg; simpl in Hg; opt_inv.
  all: match goal with
       | Hm : field as_str ?k _ = Some _ |- kv_lookup (KStr ?k) _ = _ =>
           apply field_Some in Hm as (v & Hv & ->%as_str_Some); exact Hv
       end.
Qed.

Lemma render_group_view n x g :
  decode_group x = Some g ->
  (m <- jget (KStr "minScore") x ;; ResultGroup.render x (js_gt m (VInt (Z.of_nat n)))) =
  Ok (view_of_group n g).
Proof.
  intros Hg. decoded_map Hg. destruct (decode_group_fields _ _ Hg) as (Ht & Hs & Hm).
  unfold ResultGroup.render, jget. simpl. rewrite Ht, Hs, Hm. simpl.
  unfold view_of_group, js_gt. simpl. do 3 f_equal.
  by destruct (Z.ltb_spec (Z.of_nat n) (group_minScore g)); [rewrite bool_decide_eq_true_2|rewrite bool_decide_eq_false_2 by lia].
Qed.

(** The view of each group of a List that decodes. *)
Lemma render_group_views gs zgs n :
  mapM decode_group gs = Some zgs ->
  res_mapM (fun group => m <- jget (KStr "minScore") group ;;
                          ResultGroup.render group (js_gt m (VInt (Z.of_nat n)))) gs =
  Ok (view_of_group n <$> zgs).
Proof.
  intros Hm. apply res_mapM_Ok, Forall2_fmap_r. apply mapM_Some in Hm.
  eapply Forall2_impl; [exact Hm|]. intros x g Hg. by apply render_group_view.
Qed.

(** The messaging section shows the groups it is given in the order of
    the stable re-sort [sort_groups]. *)
Lemma render_groups gs zgs n :
  mapM decode_group gs = Some zgs ->
  ResultGroups.render (VList gs) n =
  Ok (match sort_groups zgs with [] => None | gs' => Some (view_of_group n <$> gs') end).
Proof.
  intros Hm. destruct (jsort_groups gs zgs Hm) as (gs' & Hj & Hm').
  unfold ResultGroups.render. rewrite Hj. simpl. rewrite (render_group_views _ _ n Hm'). simpl.
  by destruct (sort_groups zgs).
Qed.

(** ** Groups under the UI *)

(** A wired handler other than an import leaves the groups alone. *)
Lemma wired_step_groups z e z' :
  wired e = true -> is_load e = false -> abs_step z e z' -> quiz_groups z' = quiz_groups z.
Proof.
  intros Hw Hl Hst. destruct Hst as [z e f Hf|z rand z' (qs' & _ & ->)|z u|z u zj]; try done.
  destruct e; simpl in Hf, Hw; simplify_eq; done.
Qed.

(** C18 The messaging section inside the builder: on every state that
    decodes, [QuizBuilder.render] succeeds, and [ResultGroups], given the
    props it passes ([groups={quiz.get('resultGroups')}] and
    [numberOfQuestions={questions.length}]), shows the groups in the
    order of the stable descending re-sort, each with its score, title
    and share, flagged as an error exactly when its score is above the
    number of questions; with no group it shows the "Add some messaging"
    paragraph.  On the states the editor reaches the groups are already in
    that order (C2). *)
Theorem render_state_groups s z :
  decode_state s = Some z ->
  exists v, QuizBuilderView.render s = Ok v /\
    ResultGroups.render (bv_groups v) (bv_numberOfQuestions v) =
    Ok (match sort_groups (quiz_groups z) with
        | [] => None
        | gs => Some (view_of_group (length (quiz_questions z)) <$> gs)
        end).
Proof.
  intros Hs. destruct (decoded_state_questions s z Hs) as (kvs & qkvs & xs & -> & Hq & Hz & Hqs & Hlen).
  destruct (render_state kvs qkvs xs Hq Hqs) as (v & Hr & _ & _ & Hn & Hg & _).
  destruct (decode_quiz_groups _ _ Hz) as (gs & Hl & Hm).
  exists v. split; [done|]. rewrite Hg, Hl, Hn, Hlen. by apply render_groups.
Qed.

(** C17 As the UI is wired, the result groups never change except by an
    import: the "Add group" and close buttons only log, and no other
    control calls a group handler.  Without an import every state the UI
    reaches has no result group at all. *)
Theorem ui_no_groups_without_import json_parse s :
  ui_reachable json_parse (fun e => is_load e = false) s ->
  exists z, decode_state s = Some z /\ quiz_groups z = [].
Proof.
  induction 1 as [id|s z a _ IH Hs Hv].
  - by eexists.
  - destruct IH as (z0 & Hz0 & Hg). rewrite Hs in Hz0. injection Hz0 as <-.
    destruct a as [e| |i]; simpl in Hv |- *; [|by exists z|by exists z].
    destruct Hv as (Hw & Hl & Hv).
    destruct (handle_refines json_parse e s z Hs Hv) as (z' & Hd & Hst).
    exists z'. split; [done|]. by rewrite (wired_step_groups z e z').
Qed.

(** C32 The two text areas of a result group show its title and its
    share but get no change handler: React keeps such a controlled
    [textarea] at its value, so the messaging text cannot be edited in
    the page, and [setGroupText] and [setGroupShare] are never reached. *)
Theorem group_text_areas_readonly x g :
  decode_group x = Some g ->
  exists v1 v2, ResultGroup.textAreas x = Ok (v1, v2) /\
    prop "value" (eta_textarea v1) = VStr (group_title g) /\
    prop "value" (eta_textarea v2) = VStr (group_share g) /\
    kv_lookup (KStr "onChange") (eta_textarea v1) = None /\
    kv_lookup (KStr "onChange") (eta_textarea v2) = None.
Proof.
  intros Hg. decoded_map Hg. destruct (decode_group_fields _ _ Hg) as (Ht & Hs & _).
  unfold ResultGroup.textAreas, jget. simpl. rewrite Ht, Hs. simpl.
  do 2 eexists. split; [reflexivity|]. split_and!; reflexivity.
Qed.

(** ** Witnesses *)

Lemma group_text_areas_readonly_witness :
  exists v1 v2, ResultGroup.textAreas (sample_group "All" 1) = Ok (v1, v2) /\
    prop "value" (eta_textarea v1) = VStr "All" /\
    prop "value" (eta_textarea v2) = VStr "" /\
    kv_lookup (KStr "onChange") (eta_textarea v1) = None /\
    kv_lookup (KStr "onChange") (eta_textarea v2) = None.
Proof. exact (group_text_areas_readonly (sample_group "All" 1) (mkGroup "All" "" 1) eq_refl). Defined.


Lemma render_state_groups_witness :
  exists v, QuizBuilderView.render (VMap [(KStr "quiz", unsorted_doc)]) = Ok v /\
    ResultGroups.render (bv_groups v) (bv_numberOfQuestions v) =
    Ok (Some (view_of_group 1 <$> [mkGroup "All" "" 1; mkGroup "None" "" 0])).
Proof.
  exact (render_state_groups (VMap [(KStr "quiz", unsorted_doc)])
    (mkQuiz "q1" "Capitals" "list" 1
       [mkQuestion "France?" "" "" [mkAnswer "Paris" "" true; mkAnswer "Lyon" "" false]]
       [mkGroup "None" "" 0; mkGroup "All" "" 1]) eq_refl).
Defined.

Lemma ui_no_groups_without_import_witness :
  exists z, decode_state (ui_handle sample_parse UiAddGroupClick
              (ui_handle sample_parse (UiEvent EvAddQuestion) (initial_state "q0"))) = Some z /\
            quiz_groups z = [].
Proof.
  apply (ui_no_groups_without_import sample_parse).
  eapply (ui_reachable_step _ _ _ (mkQuiz "q0" "" "list" 1 [mkQuestion "" "" "" []] []));
    [|vm_compute; reflexivity|done].
  eapply (ui_reachable_step _ _ _ (mkQuiz "q0" "" "list" 1 [] [])); [constructor|reflexivity|].
  simpl. done.
Defined.
